(** * Indexing and search engine of the chat explorer: store, parser,
      indexer and hierarchy grouping

    Shallow embedding of
    - [src/analytics/data/DatabaseManager.js] (module [Store]),
    - [src/analytics/data/Indexer.js] (module [Indexer]),
    - [_groupSubagentsUnderParents] of [src/chats-mobile.js] (module
      [Grouping]),
    followed by the properties of these operations.

    Conventions.  A JavaScript string is the list of its UTF-16 code units
    ([list N]); [.length] is [length].  JavaScript numbers that hold
    counts, sizes and epoch milliseconds are integers ([Z]).  A value
    that may be [undefined] or [null] is an [option].  A SQL table is the
    list of its rows in rowid order; a [SELECT] without [ORDER BY] scans
    it in that order. *)

From Stdlib Require Import Ascii String.
From stdpp Require Import base option list numbers gmap sorting.

Local Open Scope Z_scope.

(** ** JavaScript strings and the library functions the sources call *)

Module JS.

(** An ASCII literal as a JavaScript string. *)
Definition str (s : string) : list N :=
  (λ a, N_of_ascii a) <$> list_ascii_of_string s.

(** [x || d] on strings: the empty string is falsy. *)
Definition truthy (s : list N) : bool :=
  match s with [] => false | _ => true end.

(** A string-or-null value kept only when truthy ([x || null]). *)
Definition or_null (o : option (list N)) : option (list N) :=
  match o with
  | Some s => if truthy s then Some s else None
  | None => None
  end.

(** [x || 0] and [x || d] on numbers: zero is falsy. *)
Definition num_or (x d : Z) : Z := if x =? 0 then d else x.

(** A JavaScript number is an IEEE 754 double.  It holds every integer
    up to [2^53] in absolute value; a larger integer is rounded to 53
    significant bits, to the nearest, a tie to the even one.  (Overflow
    to [Infinity], from [2^1024] on, is left out.) *)
Definition max_exact : Z := 9007199254740992.

Definition round53 (z : Z) : Z :=
  let a := Z.abs z in
  if a <? max_exact then z
  else
    let e := Z.log2 a - 52 in
    let q := a / 2 ^ e in
    let r := a mod 2 ^ e in
    let half := 2 ^ (e - 1) in
    let q' := if (half <? r) || ((r =? half) && Z.odd q) then q + 1 else q in
    Z.sgn z * (q' * 2 ^ e).

(** [x + y] on integer-valued numbers. *)
Definition js_add (x y : Z) : Z := round53 (x + y).

(** WhiteSpace and LineTerminator of ECMAScript: what [\s] matches and
    what [String.prototype.trim] strips. *)
Definition is_space (c : N) : bool :=
  ((9 <=? c) && (c <=? 13) || (c =? 32) || (c =? 160) || (c =? 5760)
   || (8192 <=? c) && (c <=? 8202) || (c =? 8232) || (c =? 8233)
   || (c =? 8239) || (c =? 8287) || (c =? 12288) || (c =? 65279))%N.

(** [\w] without the unicode flag: [A-Za-z0-9_]. *)
Definition is_word (c : N) : bool :=
  ((65 <=? c) && (c <=? 90) || (97 <=? c) && (c <=? 122)
   || (48 <=? c) && (c <=? 57) || (c =? 95))%N.

Fixpoint drop_while {A} (p : A → bool) (l : list A) : list A :=
  match l with
  | [] => []
  | x :: l' => if p x then drop_while p l' else l
  end.

Fixpoint take_while {A} (p : A → bool) (l : list A) : list A :=
  match l with
  | [] => []
  | x :: l' => if p x then x :: take_while p l' else []
  end.

(** [String.prototype.trim]. *)
Definition trim (s : list N) : list N :=
  reverse (drop_while is_space (reverse (drop_while is_space s))).

(** [!s || !s.trim()] for a string [s]. *)
Definition is_blank (s : list N) : bool := negb (truthy (trim s)).

(** [s.split(sep)] for a one-character separator: the pieces between
    separators, empty ones included; the empty string gives one empty
    piece. *)
Fixpoint split (sep : N) (s : list N) : list (list N) :=
  match s with
  | [] => [[]]
  | c :: s' =>
      if (c =? sep)%N then [] :: split sep s'
      else match split sep s' with
           | piece :: rest => (c :: piece) :: rest
           | [] => [[c]]
           end
  end.

(** [arr.indexOf(x)] on an array of strings; [None] stands for [-1]. *)
Fixpoint indexOf (x : list N) (arr : list (list N)) : option nat :=
  match arr with
  | [] => None
  | y :: arr' => if bool_decide (y = x) then Some 0%nat
                 else S <$> indexOf x arr'
  end.

Fixpoint starts_with (pat s : list N) : bool :=
  match pat, s with
  | [], _ => true
  | p :: pat', c :: s' => (p =? c)%N && starts_with pat' s'
  | _ :: _, [] => false
  end.

(** [s.replace(pat, rep)] with a string pattern: the first occurrence
    only. *)
Fixpoint replace_first (pat rep s : list N) : list N :=
  if starts_with pat s then rep ++ drop (length pat) s
  else match s with
       | [] => []
       | c :: s' => c :: replace_first pat rep s'
       end.

Definition slash : N := 47.

(** [path.basename] of Node's POSIX flavour: trailing slashes are
    dropped, then what follows the last remaining slash is returned. *)
Definition basename (p : list N) : list N :=
  reverse (take_while (λ c, negb (c =? slash)%N)
             (drop_while (λ c, (c =? slash)%N) (reverse p))).

(** [Array.prototype.sort(cmp)]: a stable sort; [cmp a b > 0] asks for
    [a] after [b]. *)
Fixpoint sort_insert {A} (cmp : A → A → Z) (x : A) (l : list A) : list A :=
  match l with
  | [] => [x]
  | y :: l' => if 0 <? cmp x y then y :: sort_insert cmp x l' else x :: l
  end.

Definition sort {A} (cmp : A → A → Z) (l : list A) : list A :=
  foldr (sort_insert cmp) [] l.

(** [new Set()] filled with [add]: insertion order, first occurrence
    kept. *)
Definition set_add (x : list N) (s : list (list N)) : list (list N) :=
  if bool_decide (x ∈ s) then s else s ++ [x].

(** [counts[k] = (counts[k] || 0) + 1] on an object used as a table of
    counters, kept as the list of its entries in insertion order.  A
    key that names a property of [Object.prototype] is not covered: for
    it [counts[k]] answers the inherited value before any is stored.
    Nor is the place of a key that is a canonical array index, which
    [Object.entries] lists before the other keys. *)
Fixpoint bump (k : list N) (counts : list (list N * Z)) : list (list N * Z) :=
  match counts with
  | [] => [(k, 1)]
  | (k', n) :: rest =>
      if bool_decide (k' = k) then (k', num_or n 0 + 1) :: rest
      else (k', n) :: bump k rest
  end.

(** [counts[k] || 0] *)
Fixpoint count_of (k : list N) (counts : list (list N * Z)) : Z :=
  match counts with
  | [] => 0
  | (k', n) :: rest => if bool_decide (k' = k) then n else count_of k rest
  end.

(** *** Global replacement by a regular expression

    [s.replace(/re/g, rep)] scans [s] from the left; where the
    expression matches, the match is replaced and the scan goes on after
    it.  A matcher sees the code unit before the position (for [\b]) and
    the rest of the string, and answers the length of the match.  None of
    the expressions used here matches the empty string.  [skip] counts
    the code units of the current match that are still to be passed. *)

Definition matcher := option N → list N → option nat.

Fixpoint replace_all (m : matcher) (rep : list N)
    (prev : option N) (skip : nat) (s : list N) : list N :=
  match s with
  | [] => []
  | c :: s' =>
      match skip with
      | S k => replace_all m rep (Some c) k s'
      | O =>
          match m prev s with
          | Some (S k) => rep ++ replace_all m rep (Some c) k s'
          | _ => c :: replace_all m rep (Some c) 0 s'
          end
      end
  end.

Definition regex_replace (m : matcher) (rep s : list N) : list N :=
  replace_all m rep None 0 s.

End JS.

(** ** The store: [DatabaseManager.js] *)

Module Store.
Import JS.

(** A row of [conversations].  [id] is the primary key and [file_path]
    is [UNIQUE]. *)
Record conversation_row := ConversationRow {
  r_id : list N;
  r_file_path : list N;
  r_filename : list N;
  r_project : option (list N);
  r_message_count : Z;
  r_file_size : Z;
  r_last_modified : Z;
  r_created : Z;
  r_tokens_total : Z;
  r_tokens_input : Z;
  r_tokens_output : Z;
  r_primary_model : option (list N);
  r_indexed_at : Z;
  r_is_subagent : option Z;
  r_parent_id : option (list N);
  r_cwd : option (list N)
}.

(** A row of the FTS5 table [conversation_fts]; it has no constraint. *)
Record fts_row := FtsRow {
  f_conversation_id : list N;
  f_content : list N;
  f_project : list N
}.

(** A row of [tool_usage]; [(conversation_id, tool_name)] is [UNIQUE] and
    [conversation_id] references [conversations(id)] with
    [ON DELETE CASCADE]. *)
Record tool_row := ToolRow {
  t_conversation_id : list N;
  t_tool_name : list N;
  t_call_count : Z
}.

(** A row of [file_index], keyed by [file_path]. *)
Record file_row := FileRow {
  fi_mtime : Z;
  fi_size : Z;
  fi_indexed_at : Z
}.

(** The database.  [foreign_keys] is the state of the pragma of that
    name: when it is on, deleting a conversation row also deletes the
    tool rows that reference it. *)
Record DB := MkDB {
  conversations : list conversation_row;
  conversation_fts : list fts_row;
  tool_usage : list tool_row;
  file_index : gmap (list N) file_row;
  foreign_keys : bool
}.

Definition set_conversations (db : DB) (cs : list conversation_row) : DB :=
  MkDB cs (conversation_fts db) (tool_usage db) (file_index db) (foreign_keys db).
Definition set_fts (db : DB) (fs : list fts_row) : DB :=
  MkDB (conversations db) fs (tool_usage db) (file_index db) (foreign_keys db).
Definition set_tools (db : DB) (ts : list tool_row) : DB :=
  MkDB (conversations db) (conversation_fts db) ts (file_index db) (foreign_keys db).
Definition set_file_index (db : DB) (fi : gmap (list N) file_row) : DB :=
  MkDB (conversations db) (conversation_fts db) (tool_usage db) fi (foreign_keys db).

(** *** SQL statements *)

(** [DELETE FROM conversation_fts WHERE conversation_id = ?] *)
Definition delete_fts (cid : list N) (db : DB) : DB :=
  set_fts db (filter (λ f, f_conversation_id f ≠ cid) (conversation_fts db)).

(** [DELETE FROM tool_usage WHERE conversation_id = ?] *)
Definition delete_tools (cid : list N) (db : DB) : DB :=
  set_tools db (filter (λ t, t_conversation_id t ≠ cid) (tool_usage db)).

(** Rows of [conversations] leave: with foreign keys on, the tool rows of
    every row that [gone] selects leave with them. *)
Definition delete_conversations_where (gone : conversation_row → bool) (db : DB) : DB :=
  let dead := r_id <$> filter (λ r, gone r = true) (conversations db) in
  let db1 := set_conversations db (filter (λ r, gone r = false) (conversations db)) in
  if foreign_keys db
  then set_tools db1 (filter (λ t, t_conversation_id t ∉ dead) (tool_usage db))
  else db1.

(** [DELETE FROM conversations WHERE id = ?] *)
Definition delete_conversation (cid : list N) (db : DB) : DB :=
  delete_conversations_where (λ r, bool_decide (r_id r = cid)) db.

(** [INSERT OR REPLACE INTO conversations ...]: the rows in conflict on
    the primary key or on [file_path] are deleted, then the row is
    added. *)
Definition insert_or_replace_conversation (row : conversation_row) (db : DB) : DB :=
  let db1 := delete_conversations_where
               (λ r, bool_decide (r_id r = r_id row)
                     || bool_decide (r_file_path r = r_file_path row)) db in
  set_conversations db1 (conversations db1 ++ [row]).

(** [INSERT INTO conversation_fts ...].  The content is kept as the
    string that is bound; that SQLite stores it as UTF-8, where an
    unpaired surrogate does not survive, is left out. *)
Definition insert_fts (row : fts_row) (db : DB) : DB :=
  set_fts db (conversation_fts db ++ [row]).

(** [INSERT OR REPLACE INTO tool_usage ...] *)
Definition insert_or_replace_tool (row : tool_row) (db : DB) : DB :=
  set_tools db
    (filter (λ t, ¬ (t_conversation_id t = t_conversation_id row
                     ∧ t_tool_name t = t_tool_name row)) (tool_usage db)
     ++ [row]).

(** [INSERT OR REPLACE INTO file_index ...] *)
Definition insert_or_replace_file (path : list N) (row : file_row) (db : DB) : DB :=
  set_file_index db (<[path := row]> (file_index db)).

(** [DELETE FROM file_index WHERE file_path = ?] *)
Definition delete_file (path : list N) (db : DB) : DB :=
  set_file_index db (delete path (file_index db)).

(** [UPDATE conversations SET parent_id = NULL WHERE parent_id = ?] *)
Definition clear_parent (cid : list N) (r : conversation_row) : conversation_row :=
  if bool_decide (r_parent_id r = Some cid)
  then ConversationRow (r_id r) (r_file_path r) (r_filename r) (r_project r)
         (r_message_count r) (r_file_size r) (r_last_modified r) (r_created r)
         (r_tokens_total r) (r_tokens_input r) (r_tokens_output r)
         (r_primary_model r) (r_indexed_at r) (r_is_subagent r) None (r_cwd r)
  else r.

Definition clear_parent_refs (cid : list N) (db : DB) : DB :=
  set_conversations db (clear_parent cid <$> conversations db).

(** [UPDATE conversations SET project = ? WHERE id = ?] *)
Definition set_project (name : list N) (r : conversation_row) : conversation_row :=
  ConversationRow (r_id r) (r_file_path r) (r_filename r) (Some name)
    (r_message_count r) (r_file_size r) (r_last_modified r) (r_created r)
    (r_tokens_total r) (r_tokens_input r) (r_tokens_output r)
    (r_primary_model r) (r_indexed_at r) (r_is_subagent r) (r_parent_id r) (r_cwd r).

Definition update_project (name cid : list N) (db : DB) : DB :=
  set_conversations db
    ((λ r, if bool_decide (r_id r = cid) then set_project name r else r)
       <$> conversations db).

(** [UPDATE conversation_fts SET project = ? WHERE conversation_id = ?] *)
Definition update_fts_project (name cid : list N) (db : DB) : DB :=
  set_fts db
    ((λ f, if bool_decide (f_conversation_id f = cid)
           then FtsRow (f_conversation_id f) (f_content f) name else f)
       <$> conversation_fts db).

(** *** [needsIndexing] *)

Definition needsIndexing (filePath : list N) (mtime size : Z) (db : DB) : bool :=
  match file_index db !! filePath with
  | None => true
  | Some row => negb (fi_mtime row =? mtime) || negb (fi_size row =? size)
  end.

(** *** [upsertConversation] *)

Record token_usage := TokenUsage {
  tu_total : Z; tu_input : Z; tu_output : Z
}.

(** The conversation object the indexer hands over.  [o_primaryModel]
    is [modelInfo.primaryModel]; [o_tools] holds the entries of
    [toolUsage.tools] in insertion order. *)
Record conversation := Conversation {
  o_id : list N;
  o_filePath : list N;
  o_filename : list N;
  o_project : option (list N);
  o_cwd : option (list N);
  o_messageCount : Z;
  o_fileSize : Z;
  o_lastModified : option Z;
  o_created : option Z;
  o_tokenUsage : option token_usage;
  o_primaryModel : option (list N);
  o_tools : option (list (list N * Z));
  o_isSubagent : bool;
  o_parentId : option (list N)
}.

Definition row_of_conversation (c : conversation) (now : Z) : conversation_row :=
  ConversationRow
    (o_id c) (o_filePath c) (o_filename c)
    (or_null (o_project c))
    (num_or (o_messageCount c) 0)
    (num_or (o_fileSize c) 0)
    (num_or (default 0 (o_lastModified c)) now)
    (num_or (default 0 (o_created c)) now)
    (num_or (default 0 (tu_total <$> o_tokenUsage c)) 0)
    (num_or (default 0 (tu_input <$> o_tokenUsage c)) 0)
    (num_or (default 0 (tu_output <$> o_tokenUsage c)) 0)
    (or_null (o_primaryModel c))
    now
    (Some (if o_isSubagent c then 1 else 0))
    (or_null (o_parentId c))
    (or_null (o_cwd c)).

(** The body of the transaction, statement by statement; [now] is
    [Date.now()]. *)
Definition upsertConversation (c : conversation) (searchableContent : list N)
    (now : Z) (db : DB) : DB :=
  let db := insert_or_replace_conversation (row_of_conversation c now) db in
  let db := delete_fts (o_id c) db in
  let db :=
    if is_blank searchableContent then db
    else insert_fts (FtsRow (o_id c) searchableContent
                       (default [] (or_null (o_project c)))) db in
  let db := insert_or_replace_file (o_filePath c)
              (FileRow (num_or (default 0 (o_lastModified c)) now)
                 (num_or (o_fileSize c) 0) now) db in
  let db := delete_tools (o_id c) db in
  foldl (λ db entry, insert_or_replace_tool (ToolRow (o_id c) entry.1 entry.2) db)
    db (default [] (o_tools c)).

(** *** [removeConversation] and [removeFile] *)

Definition removeConversation (cid : list N) (db : DB) : DB :=
  delete_conversation cid (delete_tools cid (delete_fts cid db)).

(** [SELECT id FROM conversations WHERE file_path = ?], first row. *)
Definition conversation_at (filePath : list N) (db : DB) : option conversation_row :=
  head (filter (λ r, r_file_path r = filePath) (conversations db)).

Definition removeFile (filePath : list N) (db : DB) : DB :=
  let db :=
    match conversation_at filePath db with
    | Some conv =>
        let db := clear_parent_refs (r_id conv) db in
        let db := delete_fts (r_id conv) db in
        let db := delete_tools (r_id conv) db in
        delete_conversation (r_id conv) db
    | None => db
    end in
  delete_file filePath db.

(** [getIndexedFilePaths] *)
Definition getIndexedFilePaths (db : DB) : list (list N) :=
  (map_to_list (file_index db)).*1.

(** *** [_rowToConversation] *)

Record conversation_object := ConversationObject {
  v_id : list N;
  v_filePath : list N;
  v_filename : list N;
  v_project : option (list N);
  v_messageCount : Z;
  v_fileSize : Z;
  v_lastModified : Z;
  v_created : Z;
  v_tokens : Z;
  v_tokenUsage : token_usage;
  v_primaryModel : option (list N);
  v_indexedAt : Z;
  v_isSubagent : bool;
  v_parentId : option (list N)
}.

Definition _rowToConversation (row : conversation_row) : conversation_object :=
  ConversationObject (r_id row) (r_file_path row) (r_filename row) (r_project row)
    (r_message_count row) (r_file_size row) (r_last_modified row) (r_created row)
    (r_tokens_total row)
    (TokenUsage (r_tokens_total row) (r_tokens_input row) (r_tokens_output row))
    (r_primary_model row) (r_indexed_at row)
    (bool_decide (r_is_subagent row = Some 1))
    (or_null (r_parent_id row)).

(** [getConversation] *)
Definition getConversation (cid : list N) (db : DB) : option conversation_object :=
  _rowToConversation <$> head (filter (λ r, r_id r = cid) (conversations db)).

(** *** [_escapeFtsQuery] *)

(** The character class of the first expression: double quote, colon,
    the two parentheses, caret, star, minus and plus. *)
Definition is_special (c : N) : bool :=
  ((c =? 34) || (c =? 58) || (c =? 40) || (c =? 41) || (c =? 94)
   || (c =? 42) || (c =? 45) || (c =? 43))%N.

Definition special_matcher : matcher := λ _ s,
  match s with
  | c :: _ => if is_special c then Some 1%nat else None
  | [] => None
  end.

(** Case-insensitive match of one code unit against an upper-case ASCII
    letter [k] (flag [i] without flag [u]: only the letter itself and
    its lower-case form canonicalise to [k]). *)
Definition eq_ci (k c : N) : bool := ((c =? k) || (c =? k + 32))%N.

Fixpoint starts_with_ci (kw s : list N) : bool :=
  match kw, s with
  | [], _ => true
  | k :: kw', c :: s' => eq_ci k c && starts_with_ci kw' s'
  | _ :: _, [] => false
  end.

Definition operators : list (list N) :=
  [str "AND"; str "OR"; str "NOT"; str "NEAR"].

(** [\b] holds between a word character and a non-word character or an
    end of the string. *)
Definition word_before (prev : option N) : bool :=
  match prev with Some c => is_word c | None => false end.
Definition word_after (s : list N) : bool :=
  match s with c :: _ => is_word c | [] => false end.

(** [/\b(AND|OR|NOT|NEAR)\b/i] at one position: the alternatives are
    tried in order. *)
Definition operator_matcher : matcher := λ prev s,
  if word_before prev then None
  else
    length <$> head (filter (λ kw, starts_with_ci kw s = true
                                   ∧ word_after (drop (length kw) s) = false)
                       operators).

(** [/\s+/]: the longest run of white space, at least one long. *)
Definition space_matcher : matcher := λ _ s,
  match length (take_while is_space s) with
  | O => None
  | n => Some n
  end.

Definition _escapeFtsQuery (query : list N) : list N :=
  let r := trim (regex_replace space_matcher (str " ")
                   (regex_replace operator_matcher (str " ")
                      (regex_replace special_matcher (str " ") query))) in
  if truthy r then r else str "*".

(** *** Reading *)

Record options := Options {
  limit : option Z;
  offset : option Z;
  sortBy : option (list N);
  sortOrder : option (list N);
  opt_project : option (list N);
  includeSubagents : option bool
}.

(** [LIMIT ? OFFSET ?] of SQLite: a negative limit is no limit, a
    negative offset is no offset. *)
Definition limit_offset {A} (lim off : Z) (rows : list A) : list A :=
  let rows := drop (Z.to_nat off) rows in
  if lim <? 0 then rows else take (Z.to_nat lim) rows.

Definition allowedSorts : list (list N * (conversation_row → Z)) :=
  [ (str "last_modified", r_last_modified);
    (str "created", r_created);
    (str "tokens_total", r_tokens_total);
    (str "message_count", r_message_count);
    (str "file_size", r_file_size) ].

Definition safeSort (sortBy : list N) : conversation_row → Z :=
  default r_last_modified
    (snd <$> head (filter (λ e, e.1 = sortBy) allowedSorts)).

(** [(is_subagent = 0 OR is_subagent IS NULL)] *)
Definition not_subagent (r : conversation_row) : bool :=
  match r_is_subagent r with
  | None => true
  | Some n => n =? 0
  end.

(** One search result: the conversation and, for ranked results, its
    score, its snippet and the query it answers. *)
Record search_result {score : Type} := SearchResult {
  sr_conversation : conversation_object;
  sr_relevance : option score;
  sr_snippet : option (list N);
  sr_searchTerm : option (list N)
}.
Global Arguments search_result : clear implicits.
Global Arguments SearchResult {score}.

Section queries.
(** [String.prototype.toUpperCase], and the FTS5 engine: for the rows
    of the FTS table and a [MATCH] expression it answers the matching
    rows in ascending [bm25] order with their score and snippet, or
    fails ([None]). *)
Context {score : Type}.
Variable toUpperCase : list N → list N.
Variable fts5 : list fts_row → list N → option (list (fts_row * score * list N)).

(** [ORDER BY col ASC|DESC] is modelled as a stable sort of the table
    order.  The order in which SQLite answers rows of equal key is its
    own; the properties of the listing do not say which it is. *)
Definition getConversations (o : options) (db : DB) : list conversation_object :=
  let limit := default 100 (limit o) in
  let offset := default 0 (offset o) in
  let sortBy := default (str "last_modified") (sortBy o) in
  let sortOrder := default (str "DESC") (sortOrder o) in
  let key := safeSort sortBy in
  let asc := bool_decide (toUpperCase sortOrder = str "ASC") in
  let rows := conversations db in
  let rows :=
    if default false (includeSubagents o) then rows
    else filter (λ r, not_subagent r = true) rows in
  let rows :=
    match or_null (opt_project o) with
    | Some p => filter (λ r, r_project r = Some p) rows
    | None => rows
    end in
  let rows :=
    sort (λ a b, if asc then key a - key b else key b - key a) rows in
  _rowToConversation <$> limit_offset limit offset rows.

(** The ranked query shared by both searches: the FTS hits joined to
    their conversations, without subagents unless asked for. *)
Definition ranked (query : list N) (o : options) (db : DB)
    : option (list (conversation_row * score * list N)) :=
  hits ← fts5 (conversation_fts db) (_escapeFtsQuery query);
  let joined :=
    hits ≫= λ h,
      (λ c, (c, h.1.2, h.2))
        <$> filter (λ c, r_id c = f_conversation_id h.1.1) (conversations db) in
  let joined :=
    if default false (includeSubagents o) then joined
    else filter (λ j, not_subagent j.1.1 = true) joined in
  Some (limit_offset (default 50 (limit o)) (default 0 (offset o)) joined).

Definition listing (o : options) (db : DB) : list (search_result score) :=
  (λ c, SearchResult c None None None) <$> getConversations o db.

Definition searchConversations (query : list N) (o : options) (db : DB)
    : list (search_result score) :=
  if is_blank query then listing o db
  else
    match ranked query o db with
    | Some rows =>
        (λ j, SearchResult (_rowToConversation j.1.1) (Some j.1.2) None None) <$> rows
    | None => listing o db
    end.

Definition searchConversationsWithSnippets (query : list N) (o : options) (db : DB)
    : list (search_result score) :=
  if is_blank query then []
  else
    match ranked query o db with
    | Some rows =>
        (λ j, SearchResult (_rowToConversation j.1.1) (Some j.1.2)
                (Some j.2) (Some query)) <$> rows
    | None => searchConversations query o db
    end.
End queries.

(** *** [resolveEncodedProjectNames] *)

(** The entry of one encoded folder in [folderData]. *)
Record folder_data := FolderData {
  fd_conversations : list conversation_row;
  fd_cwds : list (list N)
}.

(** The path segment after the first segment named [projects]. *)
Definition encodedFolder (file_path : list N) : option (list N) :=
  let pathParts := split slash file_path in
  idx ← indexOf (str "projects") pathParts;
  pathParts !! S idx.

Definition add_conversation (conv : conversation_row) (data : folder_data) : folder_data :=
  FolderData (fd_conversations data ++ [conv])
    (match or_null (r_cwd conv) with
     | Some c => set_add c (fd_cwds data)
     | None => fd_cwds data
     end).

(** The [Map] is kept as the list of its entries in insertion order. *)
Fixpoint map_has {V} (k : list N) (m : list (list N * V)) : bool :=
  match m with
  | [] => false
  | (k', _) :: m' => bool_decide (k' = k) || map_has k m'
  end.

Definition map_alter {V} (f : V → V) (k : list N) (m : list (list N * V))
    : list (list N * V) :=
  (λ e, if bool_decide (e.1 = k) then (e.1, f e.2) else e) <$> m.

Definition group_conversation (m : list (list N * folder_data)) (conv : conversation_row)
    : list (list N * folder_data) :=
  match encodedFolder (r_file_path conv) with
  | None => m
  | Some folder =>
      let m := if map_has folder m then m else m ++ [(folder, FolderData [] [])] in
      map_alter (add_conversation conv) folder m
  end.

Definition folderData (db : DB) : list (list N * folder_data) :=
  foldl group_conversation [] (conversations db).

(** The canonical name of a folder: the basename of the first of its
    shortest cwds, when there is a cwd and the basename is not empty.
    (The loop that compares the other cwds with this one only breaks out
    of itself.) *)
Definition canonicalName (data : folder_data) : option (list N) :=
  rootCwd ← head (sort (λ a b, Z.of_nat (length a) - Z.of_nat (length b)) (fd_cwds data));
  or_null (Some (basename rootCwd)).

Record resolve_state := ResolveState {
  rs_db : DB;
  rs_resolved : Z;
  rs_updated : bool
}.

Definition resolve_conversation (name : list N) (st : resolve_state)
    (conv : conversation_row) : resolve_state :=
  if bool_decide (r_project conv ≠ Some name)
  then ResolveState
         (update_fts_project name (r_id conv) (update_project name (r_id conv) (rs_db st)))
         (rs_resolved st + 1) true
  else st.

Definition resolve_folder (st : DB * Z * Z) (entry : list N * folder_data) : DB * Z * Z :=
  match canonicalName entry.2 with
  | None => st
  | Some name =>
      let r := foldl (resolve_conversation name)
                 (ResolveState st.1.1 st.1.2 false) (fd_conversations entry.2) in
      (rs_db r, rs_resolved r, if rs_updated r then st.2 + 1 else st.2)
  end.

(** The new database with [(resolved, folders)]. *)
Definition resolveEncodedProjectNames (db : DB) : DB * Z * Z :=
  foldl resolve_folder (db, 0, 0) (folderData db).

End Store.

(** ** The parser and the indexer: [Indexer.js] *)

Module Indexer.
Import JS Store.

(** *** Log lines

    A line of a log file is blank, or [JSON.parse] fails on it, or it is
    an object with the fields of the log format: [type], [cwd] and
    [message], the message with [cwd], [content], [usage] and [model].
    Content is a string, one block or an array of blocks, the blocks
    being objects; token counts are numbers. *)

Record usage := Usage {
  input_tokens : option Z;
  output_tokens : option Z
}.

Record block := Block {
  b_type : option (list N);
  b_text : option (list N);
  b_name : option (list N)
}.

Inductive content :=
  | ContentString (s : list N)
  | ContentArray (blocks : list block)
  | ContentBlock (b : block).

Record message := Message {
  m_cwd : option (list N);
  m_content : option content;
  m_usage : option usage;
  m_model : option (list N)
}.

Record item := Item {
  i_type : option (list N);
  i_cwd : option (list N);
  i_message : option message
}.

Inductive line :=
  | Blank
  | Invalid
  | Json (it : item).

(** *** [_extractTextContent] and [_extractToolNames] *)

Fixpoint join (sep : list N) (parts : list (list N)) : list N :=
  match parts with
  | [] => []
  | [p] => p
  | p :: rest => p ++ sep ++ join sep rest
  end.

Definition newline : list N := [10%N].

Definition content_truthy (c : option content) : bool :=
  match c with
  | None => false
  | Some (ContentString s) => truthy s
  | Some _ => true
  end.

Definition _extractTextContent (c : option content) : list N :=
  match c with
  | None => []
  | Some (ContentString s) => s
  | Some (ContentArray blocks) =>
      join newline
        ((λ b, default [] (or_null (b_text b)))
           <$> filter (λ b, b_type b = Some (str "text")) blocks)
  | Some (ContentBlock b) =>
      if bool_decide (b_type b = Some (str "text"))
      then default [] (or_null (b_text b)) else []
  end.

Definition _extractToolNames (c : option content) : list (list N) :=
  let blocks :=
    match c with
    | None => []
    | Some (ContentString s) => []
    | Some (ContentArray blocks) => blocks
    | Some (ContentBlock b) => [b]
    end in
  omap (λ b, if bool_decide (b_type b = Some (str "tool_use"))
             then or_null (b_name b) else None) blocks.

(** *** [_parseJsonlStreaming] *)

Record parse_state := ParseState {
  ps_messageCount : Z;
  ps_input : Z;
  ps_output : Z;
  ps_tools : list (list N * Z);
  ps_toolTotal : Z;
  ps_cwd : option (list N);
  ps_contentParts : list (list N);
  ps_modelCounts : list (list N * Z)
}.

Definition initial_state : parse_state :=
  ParseState 0 0 0 [] 0 None [] [].

Definition is_message_line (it : item) : bool :=
  match i_message it with
  | Some _ => bool_decide (i_type it = Some (str "assistant"))
              || bool_decide (i_type it = Some (str "user"))
  | None => false
  end.

Definition is_assistant (it : item) : bool :=
  bool_decide (i_type it = Some (str "assistant")).

(** What the cwd scan of one line finds. *)
Definition found_cwd (it : item) : option (list N) :=
  match or_null (i_cwd it) with
  | Some c => Some c
  | None => or_null (i_message it ≫= m_cwd)
  end.

(** The [line] event handler. *)
Definition on_line (st : parse_state) (l : line) : parse_state :=
  match l with
  | Blank => st
  | Invalid => st
  | Json it =>
      let cwd :=
        match or_null (ps_cwd st) with
        | Some c => Some c
        | None => match found_cwd it with Some c => Some c | None => ps_cwd st end
        end in
      match i_message it with
      | Some msg =>
          if is_message_line it then
            let text := _extractTextContent (m_content msg) in
            let parts :=
              if truthy text then ps_contentParts st ++ [take (Z.to_nat 2000) text]
              else ps_contentParts st in
            let with_usage := is_assistant it && bool_decide (is_Some (m_usage msg)) in
            let input :=
              if with_usage
              then js_add (ps_input st)
                     (num_or (default 0 (m_usage msg ≫= input_tokens)) 0)
              else ps_input st in
            let output :=
              if with_usage
              then js_add (ps_output st)
                     (num_or (default 0 (m_usage msg ≫= output_tokens)) 0)
              else ps_output st in
            let models :=
              match or_null (m_model msg) with
              | Some model => bump model (ps_modelCounts st)
              | None => ps_modelCounts st
              end in
            let names :=
              if is_assistant it && content_truthy (m_content msg)
              then _extractToolNames (m_content msg) else [] in
            ParseState (ps_messageCount st + 1) input output
              (foldl (λ tools tool, bump tool tools) (ps_tools st) names)
              (ps_toolTotal st + Z.of_nat (length names))
              cwd parts models
          else
            ParseState (ps_messageCount st) (ps_input st) (ps_output st)
              (ps_tools st) (ps_toolTotal st) cwd (ps_contentParts st)
              (ps_modelCounts st)
      | None =>
          ParseState (ps_messageCount st) (ps_input st) (ps_output st)
            (ps_tools st) (ps_toolTotal st) cwd (ps_contentParts st)
            (ps_modelCounts st)
      end
  end.

Record parse_result := ParseResult {
  messageCount : Z;
  tokenUsage : token_usage;
  primaryModel : option (list N);
  models : list (list N * Z);
  toolTotal : Z;
  tools : list (list N * Z);
  searchableContent : list N;
  cwd : option (list N)
}.

(** The model used most, the first of them in the order of the
    entries when several are. *)
Definition most_used (counts : list (list N * Z)) : option (list N) :=
  (foldl (λ (best : Z * option (list N)) e,
            if best.1 <? e.2 then (e.2, Some e.1) else best)
     (0, None) counts).2.

(** The [close] event handler. *)
Definition on_close (st : parse_state) : parse_result :=
  ParseResult (ps_messageCount st)
    (TokenUsage (js_add (ps_input st) (ps_output st)) (ps_input st) (ps_output st))
    (most_used (ps_modelCounts st))
    (ps_modelCounts st)
    (ps_toolTotal st) (ps_tools st)
    (take (Z.to_nat 100000) (join newline (ps_contentParts st)))
    (ps_cwd st).

Definition _parseJsonlStreaming (lines : list line) : parse_result :=
  on_close (foldl on_line initial_state lines).

(** *** [_detectSubagent], [_extractProjectFromPath], [_indexFile] *)

Definition _detectSubagent (filePath : list N) : bool * option (list N) :=
  let pathParts := split slash filePath in
  match indexOf (str "subagents") pathParts with
  | Some (S i) => (true, pathParts !! i)
  | _ => (false, None)
  end.

Definition _extractProjectFromPath (projectsDir filePath : list N) : list N :=
  let relativePath := replace_first projectsDir [] filePath in
  match filter (λ p, truthy p = true) (split slash relativePath) with
  | encoded :: _ =>
      if starts_with (str "-") encoded then drop 1 encoded else encoded
  | [] => str "Unknown"
  end.

Record file_stats := FileStats {
  st_mtime : Z;
  st_size : Z;
  st_birthtime : Z
}.

Definition conversation_of (projectsDir filePath : list N) (st : file_stats)
    (parsed : parse_result) : conversation :=
  let filename := basename filePath in
  let sub := _detectSubagent filePath in
  let baseId := replace_first (str ".jsonl") [] filename in
  let id :=
    match sub.1, or_null sub.2 with
    | true, Some parentId => parentId ++ str "_" ++ baseId
    | _, _ => baseId
    end in
  let project :=
    match or_null (cwd parsed) with
    | Some c => basename c
    | None => _extractProjectFromPath projectsDir filePath
    end in
  Conversation id filePath filename (Some project) (cwd parsed)
    (messageCount parsed) (st_size st) (Some (st_mtime st)) (Some (st_birthtime st))
    (Some (tokenUsage parsed)) (primaryModel parsed) (Some (tools parsed))
    sub.1 sub.2.

(** What the pass observes of one discovered file: its path, the answer
    of [fs.stat] ([None] when it fails), the lines that the reader
    delivers before the stream ends or fails ([None] when it fails
    before the first line) and the clock at the time of the upsert.  A
    failing stream does not fail the parse: its error handler closes
    the reader first, and the [close] handler resolves the parse with
    what was read. *)
Record file_obs := FileObs {
  fo_path : list N;
  fo_stat : option file_stats;
  fo_lines : option (list line);
  fo_now : Z
}.

Definition _indexFile (projectsDir : list N) (f : file_obs) (st : file_stats)
    (db : DB) : option DB :=
  let lines := default [] (fo_lines f) in
  Some (upsertConversation
          (conversation_of projectsDir (fo_path f) st (_parseJsonlStreaming lines))
          (searchableContent (_parseJsonlStreaming lines)) (fo_now f) db).

(** *** [runFullIndex] *)

Record stats := Stats {
  filesScanned : Z;
  filesIndexed : Z;
  filesSkipped : Z;
  filesRemoved : Z;
  errors : Z;
  projectNamesResolved : option Z
}.

Record pass_state := PassState {
  p_db : DB;
  p_stats : stats;
  p_indexedPaths : list (list N)
}.

Definition count_indexed (s : stats) : stats :=
  Stats (filesScanned s) (filesIndexed s + 1) (filesSkipped s) (filesRemoved s)
    (errors s) (projectNamesResolved s).
Definition count_skipped (s : stats) : stats :=
  Stats (filesScanned s) (filesIndexed s) (filesSkipped s + 1) (filesRemoved s)
    (errors s) (projectNamesResolved s).
Definition count_removed (s : stats) : stats :=
  Stats (filesScanned s) (filesIndexed s) (filesSkipped s) (filesRemoved s + 1)
    (errors s) (projectNamesResolved s).
Definition count_error (s : stats) : stats :=
  Stats (filesScanned s) (filesIndexed s) (filesSkipped s) (filesRemoved s)
    (errors s + 1) (projectNamesResolved s).

(** The body of the loop over the discovered files.  (The batches of
    fifty only pace the progress output.) *)
Definition process_file (projectsDir : list N) (ps : pass_state) (f : file_obs)
    : pass_state :=
  match fo_stat f with
  | None => PassState (p_db ps) (count_error (p_stats ps)) (p_indexedPaths ps)
  | Some st =>
      let tracked := filter (λ p, p ≠ fo_path f) (p_indexedPaths ps) in
      if needsIndexing (fo_path f) (st_mtime st) (st_size st) (p_db ps)
      then
        match _indexFile projectsDir f st (p_db ps) with
        | Some db => PassState db (count_indexed (p_stats ps)) tracked
        | None => PassState (p_db ps) (count_error (p_stats ps)) tracked
        end
      else PassState (p_db ps) (count_skipped (p_stats ps)) tracked
  end.

Definition remove_deleted (ps : pass_state) (deletedPath : list N) : pass_state :=
  PassState (removeFile deletedPath (p_db ps)) (count_removed (p_stats ps))
    (p_indexedPaths ps).

Definition runFullIndex (projectsDir : list N) (files : list file_obs) (db : DB)
    : DB * stats :=
  let s0 := Stats (Z.of_nat (length files)) 0 0 0 0 None in
  let ps := foldl (process_file projectsDir)
              (PassState db s0 (getIndexedFilePaths db)) files in
  let ps := foldl remove_deleted ps (p_indexedPaths ps) in
  let r := resolveEncodedProjectNames (p_db ps) in
  let s := p_stats ps in
  (r.1.1,
   Stats (filesScanned s) (filesIndexed s) (filesSkipped s) (filesRemoved s)
     (errors s) (if 0 <? r.1.2 then Some r.1.2 else None)).

End Indexer.

(** ** Hierarchy grouping: [_groupSubagentsUnderParents] of [chats-mobile.js] *)

Module Grouping.
Import JS.

(** A conversation of a result set: the fields the grouping reads or
    writes, and the rest of the object as [g_rest]. *)
Record conv {rest : Type} := Conv {
  g_id : list N;
  g_isSubagent : bool;
  g_parentId : option (list N);
  g_lastModified : Z;
  g_subagentCount : option Z;
  g_isStub : bool;
  g_rest : rest
}.
Global Arguments conv : clear implicits.
Global Arguments Conv {rest}.

Section grouping.
Context {rest : Type}.
(** [backend] is [useDatabaseBackend && databaseBackend.isInitialized];
    [getConversation] is the lookup of the database backend. *)
Variable backend : bool.
Variable getConversation : list N → option (conv rest).

Definition with_count (n : Z) (stub : bool) (c : conv rest) : conv rest :=
  Conv (g_id c) (g_isSubagent c) (g_parentId c) (g_lastModified c)
    (Some n) stub (g_rest c).

(** [(a, b) => new Date(b.lastModified) - new Date(a.lastModified)] *)
Definition newest_first (a b : conv rest) : Z :=
  g_lastModified b - g_lastModified a.

Definition parents (conversations : list (conv rest)) : list (conv rest) :=
  filter (λ c, g_isSubagent c = false) conversations.
Definition subagents (conversations : list (conv rest)) : list (conv rest) :=
  filter (λ c, g_isSubagent c = true) conversations.

Definition parentIdsNeedingStubs (conversations : list (conv rest)) : list (list N) :=
  let parentIdsInResults := g_id <$> parents conversations in
  foldl (λ set x, set_add x set) []
    (omap (λ s, match or_null (g_parentId s) with
                | Some p => if bool_decide (p ∈ parentIdsInResults) then None else Some p
                | None => None
                end) (subagents conversations)).

Definition subagentCounts (conversations : list (conv rest)) : list (list N * Z) :=
  foldl (λ counts s, match or_null (g_parentId s) with
                     | Some p => bump p counts
                     | None => counts
                     end) [] (subagents conversations).

Definition parentStubs (conversations : list (conv rest)) : list (conv rest) :=
  if backend then
    omap (λ parentId,
            with_count (num_or (count_of parentId (subagentCounts conversations)) 0) true
              <$> getConversation parentId)
      (parentIdsNeedingStubs conversations)
  else [].

Definition allParents (conversations : list (conv rest)) : list (conv rest) :=
  sort newest_first
    (((λ parent,
         with_count
           (num_or (num_or (count_of (g_id parent) (subagentCounts conversations))
                      (default 0 (g_subagentCount parent))) 0)
           (g_isStub parent) parent) <$> parents conversations)
     ++ parentStubs conversations).

Definition childSubagents (conversations : list (conv rest)) (parent : conv rest)
    : list (conv rest) :=
  sort newest_first
    (filter (λ s, g_parentId s = Some (g_id parent)) (subagents conversations)).

Definition orphanSubagents (conversations : list (conv rest)) : list (conv rest) :=
  let allParentIds := g_id <$> allParents conversations in
  filter (λ s, match or_null (g_parentId s) with
               | Some p => negb (bool_decide (p ∈ allParentIds))
               | None => true
               end = true) (subagents conversations).

Definition _groupSubagentsUnderParents (conversations : list (conv rest))
    : list (conv rest) :=
  match subagents conversations with
  | [] => conversations
  | _ =>
      (allParents conversations ≫= λ parent,
         parent :: childSubagents conversations parent)
      ++ orphanSubagents conversations
  end.
End grouping.

End Grouping.

(** * Definitions for the statements *)

Import JS Store Indexer Grouping.

(** ** Token totals *)

Definition Zsum (l : list Z) : Z := foldr Z.add 0 l.

(** The message of a line that is a message line of type [assistant]. *)
Definition assistant_message (l : line) : option message :=
  match l with
  | Json it =>
      if bool_decide (i_type it = Some (str "assistant")) then i_message it else None
  | _ => None
  end.

(** The input and output tokens a line reports, zero for what is
    missing. *)
Definition input_of (l : line) : Z :=
  default 0 ((assistant_message l ≫= m_usage) ≫= input_tokens).
Definition output_of (l : line) : Z :=
  default 0 ((assistant_message l ≫= m_usage) ≫= output_tokens).

(** The absolute values of the token counts of a file, added up. *)
Definition token_weight (lines : list line) : Z :=
  Zsum ((λ l, Z.abs (input_of l)) <$> lines)
  + Zsum ((λ l, Z.abs (output_of l)) <$> lines).

(** ** Canonical project names *)

(** The encoded folder of a session, the sessions of a folder and their
    cwds, in table order. *)
Definition folder_of (r : conversation_row) : option (list N) :=
  encodedFolder (r_file_path r).
Definition group (folder : list N) (rows : list conversation_row) : list conversation_row :=
  filter (λ r, folder_of r = Some folder) rows.
Definition group_cwds (folder : list N) (rows : list conversation_row) : list (list N) :=
  omap (λ r, or_null (r_cwd r)) (group folder rows).

(** The first of the shortest strings of a list. *)
Fixpoint shortest (l : list (list N)) : option (list N) :=
  match l with
  | [] => None
  | x :: l' =>
      match shortest l' with
      | Some y => if (length y <? length x)%nat then Some y else Some x
      | None => Some x
      end
  end.

(** The canonical name of a folder: the basename of the first of the
    shortest cwds of its sessions, when it is not empty. *)
Definition canonical (folder : list N) (rows : list conversation_row) : option (list N) :=
  c ← shortest (group_cwds folder rows);
  or_null (Some (basename c)).

(** A session after the resolution. *)
Definition resolved_row (rows : list conversation_row) (r : conversation_row)
    : conversation_row :=
  match folder_of r ≫= λ folder, canonical folder rows with
  | Some name => set_project name r
  | None => r
  end.

(** The contents of [folderData], in closed form. *)
Definition dedupe (l : list (list N)) : list (list N) :=
  foldl (λ s x, set_add x s) [] l.

Definition group_data (rows : list conversation_row) (folder : list N) : folder_data :=
  FolderData (group folder rows) (dedupe (group_cwds folder rows)).

Definition folders (rows : list conversation_row) : list (list N) :=
  dedupe (omap folder_of rows).

(** The updates of the transaction as one list: the canonical name and
    the session of each. *)
Definition steps (fd : list (list N * folder_data)) : list (list N * conversation_row) :=
  fd ≫= λ e,
    match canonicalName e.2 with
    | Some name => (λ c, (name, c)) <$> fd_conversations e.2
    | None => []
    end.

Definition step_db (db : DB) (s : list N * conversation_row) : DB :=
  if bool_decide (r_project s.2 ≠ Some s.1)
  then update_fts_project s.1 (r_id s.2) (update_project s.1 (r_id s.2) db)
  else db.

(** An FTS row after the resolution. *)
Definition resolved_fts (rows : list conversation_row) (f : fts_row) : fts_row :=
  match head (filter (λ r, r_id r = f_conversation_id f) rows) with
  | Some r =>
      match folder_of r ≫= λ folder, canonical folder rows with
      | Some name =>
          if bool_decide (r_project r ≠ Some name)
          then FtsRow (f_conversation_id f) (f_content f) name else f
      | None => f
      end
  | None => f
  end.

(** ** Databases the store produces *)

(** The FTS rows of a session carry its project (the empty string for
    none). *)
Definition in_sync (db : DB) : Prop :=
  ∀ f r, f ∈ conversation_fts db → r ∈ conversations db →
         f_conversation_id f = r_id r → f_project f = default [] (r_project r).

(** The databases that the writing operations make of an empty one. *)
Inductive reachable : DB → Prop :=
  | reachable_empty (fk : bool) : reachable (MkDB [] [] [] ∅ fk)
  | reachable_upsert (c : conversation) (text : list N) (now : Z) (db : DB) :
      reachable db → reachable (upsertConversation c text now db)
  | reachable_removeConversation (cid : list N) (db : DB) :
      reachable db → reachable (removeConversation cid db)
  | reachable_removeFile (p : list N) (db : DB) :
      reachable db → reachable (removeFile p db)
  | reachable_resolve (db : DB) :
      reachable db → reachable (resolveEncodedProjectNames db).1.1.

(** ** The FTS query sanitizer *)








(** * Worked inputs *)

Module Examples.
Local Open Scope string_scope.

Definition empty_db : DB := MkDB [] [] [] ∅ true.

Definition mock (id path project : string) (cwd : option string) (parent : option string)
    : conversation :=
  Conversation (str id) (str path) (basename (str path)) (Some (str project))
    (str <$> cwd) 6 2048 (Some 1700000000000) (Some 1690000000000)
    (Some (TokenUsage 150 100 50)) (Some (str "claude-sonnet-4-20250514"))
    (Some [(str "Read", 2); (str "Write", 1)])
    (bool_decide (is_Some parent)) (str <$> parent).

(** Two sessions of one folder, one started in a subdirectory. *)
Definition from_root : conversation :=
  mock "conv-from-root"
    "/Users/t/.claude/projects/-Users-t-projects-my-project/conv-from-root.jsonl"
    "my-project" (Some "/Users/t/projects/my-project") None.
Definition from_subdir : conversation :=
  mock "conv-from-subdir"
    "/Users/t/.claude/projects/-Users-t-projects-my-project/conv-from-subdir.jsonl"
    "components" (Some "/Users/t/projects/my-project/src/components") None.
Definition project_db : DB :=
  upsertConversation from_subdir (str "Content from subdir") 2000
    (upsertConversation from_root (str "Content from root") 1000 empty_db).

(** A parent and a subagent of it. *)
Definition parent_conv : conversation :=
  mock "parent-to-remove" "/test/parent-to-remove.jsonl" "test" None None.
Definition orphan_conv : conversation :=
  mock "subagent-orphan" "/test/parent-to-remove/subagents/agent-1.jsonl" "test" None
    (Some "parent-to-remove").
Definition family_db : DB :=
  upsertConversation orphan_conv (str "child") 2000
    (upsertConversation parent_conv (str "parent") 1000 empty_db).

(** A projects directory with two log files in the folder [-foo]; the
    first log records the cwd [/], the second records none. *)
Definition projects_dir : list N := str "/home/u/.claude/projects".

Definition user_line (cwd : option string) (text : string) : line :=
  Json (Item (Some (str "user")) (str <$> cwd)
          (Some (Message None (Some (ContentString (str text))) None None))).
Definition assistant_line (text : string) (input output : option Z) : line :=
  Json (Item (Some (str "assistant")) None
          (Some (Message None (Some (ContentString (str text)))
                   (Some (Usage input output))
                   (Some (str "claude-sonnet-4-20250514"))))).

Definition root_file : file_obs :=
  FileObs (str "/home/u/.claude/projects/-foo/s1.jsonl")
    (Some (FileStats 1700000000000 120 1690000000000))
    (Some [user_line (Some "/") "hello"; assistant_line "hi" (Some 10) (Some 5)])
    1700000001000.
Definition plain_file : file_obs :=
  FileObs (str "/home/u/.claude/projects/-foo/s2.jsonl")
    (Some (FileStats 1700000000500 80 1690000000500))
    (Some [Invalid; user_line None "question"; Blank;
           assistant_line "answer" (Some 7) None])
    1700000002000.

(** A file whose modification time is the epoch. *)
Definition epoch_file : file_obs :=
  FileObs (str "/home/u/.claude/projects/-foo/s3.jsonl")
    (Some (FileStats 0 80 0))
    (Some [user_line None "question"])
    1700000003000.

(** A result set: a parent and two of its subagents, the older one
    first. *)
Definition result_parent : conv unit :=
  Conv (str "p") false None 3000 None false tt.
Definition result_older : conv unit :=
  Conv (str "p_agent-a") true (Some (str "p")) 1000 None false tt.
Definition result_newer : conv unit :=
  Conv (str "p_agent-b") true (Some (str "p")) 2000 None false tt.
Definition results : list (conv unit) := [result_parent; result_older; result_newer].

(** [toUpperCase] on ASCII strings. *)
Definition ascii_upper (s : list N) : list N :=
  (λ c, if ((97 <=? c) && (c <=? 122))%N then (c - 32)%N else c) <$> s.

(** An FTS engine that fails on every query. *)
Definition failing_fts5 (rows : list fts_row) (q : list N)
    : option (list (fts_row * Z * list N)) := None.

End Examples.

Import Examples.

Definition no_options : options := Options None None None None None None.

Definition tracked_only_db : DB :=
  insert_or_replace_file (str "/test/broken.jsonl") (FileRow 1 2 3) family_db.

Definition my_project_folder : list N := str "-Users-t-projects-my-project".
Definition my_project_cwd : list N := str "/Users/t/projects/my-project".

(** ** Definitions for the further properties *)

(** Every session's file has a tracking row, with the modification time
    and size of the session. *)
Definition tracked (db : DB) : Prop :=
  ∀ r, r ∈ conversations db →
    ∃ row, file_index db !! r_file_path r = Some row
           ∧ fi_mtime row = r_last_modified r ∧ fi_size row = r_file_size r.

(** The field of a conversation object that a sort column shows as. *)
Definition object_sorts : list (list N * (conversation_object → Z)) :=
  [ (str "last_modified", v_lastModified);
    (str "created", v_created);
    (str "tokens_total", v_tokens);
    (str "message_count", v_messageCount);
    (str "file_size", v_fileSize) ].

Definition object_key (sortBy : list N) : conversation_object → Z :=
  default v_lastModified
    (snd <$> head (filter (λ e, e.1 = sortBy) object_sorts)).

(** An FTS engine that answers every row, each with score zero and its
    content as snippet. *)
Definition every_row_fts5 (rows : list fts_row) (q : list N)
    : option (list (fts_row * Z * list N)) :=
  Some ((λ f, (f, 0, f_content f)) <$> rows).

(** ** The parser's view of a file *)

(** The message of a line that counts, an object with a message and
    type [user] or [assistant], with whether the type is [assistant]. *)
Definition counted (l : line) : option (bool * message) :=
  match l with
  | Json it =>
      if is_message_line it then (λ m, (is_assistant it, m)) <$> i_message it
      else None
  | _ => None
  end.

(** What a counted message adds to the searchable text, the tools it
    calls and the model it names. *)
Definition text_part (e : bool * message) : option (list N) :=
  let text := _extractTextContent (m_content e.2) in
  if truthy text then Some (take (Z.to_nat 2000) text) else None.
Definition tool_calls (e : bool * message) : list (list N) :=
  if e.1 && content_truthy (m_content e.2)
  then _extractToolNames (m_content e.2) else [].
Definition model_of (e : bool * message) : option (list N) :=
  or_null (m_model e.2).

(** The cwd a line records. *)
Definition cwd_of (l : line) : option (list N) :=
  match l with Json it => found_cwd it | _ => None end.

Definition occurrences (x : list N) (l : list (list N)) : Z :=
  Z.of_nat (length (filter (λ y, y = x) l)).

(** The names under which an object literal answers a value before any
    is stored: the properties of [Object.prototype].  A counter kept
    under such a name does not start at zero. *)
Definition inherited : list (list N) :=
  [ str "constructor"; str "__proto__"; str "hasOwnProperty";
    str "isPrototypeOf"; str "propertyIsEnumerable"; str "toLocaleString";
    str "toString"; str "valueOf"; str "__defineGetter__";
    str "__defineSetter__"; str "__lookupGetter__"; str "__lookupSetter__" ].

(** The counted messages of a file, the tools they call and the models
    they name, in file order. *)
Definition counted_messages (lines : list line) : list (bool * message) :=
  omap counted lines.
Definition called_tools (lines : list line) : list (list N) :=
  counted_messages lines ≫= tool_calls.
Definition named_models (lines : list line) : list (list N) :=
  omap model_of (counted_messages lines).

(** A log in which the assistant calls [Read] twice and [Write] once,
    and answers once with one model and twice with another. *)
Definition tool_line (model : list N) (names : list (list N)) : line :=
  Json (Item (Some (str "assistant")) None
          (Some (Message None
                   (Some (ContentArray
                            ((λ n, Block (Some (str "tool_use")) None (Some n)) <$> names)))
                   None (Some model)))).
Definition tool_log : list line :=
  [ user_line (Some "/w/app"%string) "go";
    tool_line (str "opus") [str "Read"; str "Write"];
    Invalid;
    tool_line (str "sonnet") [str "Read"];
    tool_line (str "sonnet") [] ].

(** ** The files a pass meets *)

(** The paths of the discovered files that [fs.stat] answers for. *)
Definition present_paths (files : list file_obs) : list (list N) :=
  fo_path <$> filter (λ f, is_Some (fo_stat f)) files.

(** ** Results of the grouping *)

(** Two result objects that differ at most in the badge count and the
    stub mark. *)
Definition same_conversation {rest : Type} (a b : conv rest) : Prop :=
  g_id a = g_id b ∧ g_isSubagent a = g_isSubagent b ∧ g_parentId a = g_parentId b
  ∧ g_lastModified a = g_lastModified b ∧ g_rest a = g_rest b.

(** A store that knows the parent of the two subagents. *)
Definition result_store (p : list N) : option (conv unit) :=
  if bool_decide (p = str "p") then Some result_parent else None.

(** A log of the same name as [root_file] in another project folder. *)
Definition namesake_file : file_obs :=
  FileObs (str "/home/u/.claude/projects/-bar/s1.jsonl")
    (Some (FileStats 1700000000900 64 1690000000900))
    (Some [user_line (Some "/bar"%string) "other"])
    1700000004000.

(** ** Paths by their segments *)

(** The path with the given segments. *)
Definition path_of (segments : list (list N)) : list N := join [slash] segments.

(** The documented place of a subagent log:
    [.../{parent-id}/subagents/{file}]. *)
Definition subagent_path (pre : list (list N)) (parent file : list N) : list N :=
  path_of (pre ++ [parent; str "subagents"; file]).

Definition underscore : N := 95.

(** ** The result sets that are grouped *)

(** [_transformConversation] of the database backend, [Indexer.js], as
    far as the grouping reads its result: the id, the subagent mark, the
    parent id and [lastModified] of the store's object, with no badge
    count and no stub mark; [g_rest] keeps the object it is made of. *)
Definition _transformConversation (v : conversation_object) : conv conversation_object :=
  Conv (v_id v) (v_isSubagent v) (or_null (v_parentId v)) (v_lastModified v) None false v.

(** What [/api/conversations] hands to the grouping when subagents are
    asked for: [databaseBackend.getConversations] with
    [{limit: 10000, includeSubagents}]. *)
Definition listed_with_subagents (toUpperCase : list N → list N) (db : DB)
    : list (conv conversation_object) :=
  _transformConversation
    <$> getConversations toUpperCase
          (Options (Some 10000) None None None None (Some true)) db.

(** What [/api/search] hands to the grouping: its results after
    [results.sort] by [lastModified], newest first. *)
Definition search_results_sorted {rest : Type} (results : list (conv rest))
    : list (conv rest) :=
  sort newest_first results.

(** ** Folders under the projects root *)

(** A projects root is given by its path segments.  The folder of a log
    under it is the path segment immediately under the root; the
    sessions of a folder and their cwds are taken in table order. *)
Definition under_root (root : list (list N)) (path : list N) : Prop :=
  take (length root) (split slash path) = root.

Global Instance under_root_dec (root : list (list N)) (path : list N)
    : Decision (under_root root path) :=
  decide (take (length root) (split slash path) = root).

Definition folder_under (root : list (list N)) (path : list N) : option (list N) :=
  if bool_decide (under_root root path) then split slash path !! length root else None.

Definition root_group (root : list (list N)) (folder : list N)
    (rows : list conversation_row) : list conversation_row :=
  filter (λ r, folder_under root (r_file_path r) = Some folder) rows.

Definition root_group_cwds (root : list (list N)) (folder : list N)
    (rows : list conversation_row) : list (list N) :=
  omap r_cwd (root_group root folder rows).

(** The root of the worked examples, and that of the sessions of
    [project_db]. *)
Definition home_root : list (list N) :=
  [str ""; str "home"; str "u"; str ".claude"; str "projects"].
Definition users_root : list (list N) :=
  [str ""; str "Users"; str "t"; str ".claude"; str "projects"].

(** * Properties *)

Ltac ltb_cases :=
  repeat match goal with
    | |- context [(?a <? ?b)%nat] => destruct (Nat.ltb_spec a b)
    | |- context [?a <? ?b] => destruct (Z.ltb_spec a b)
    end.

(** ** The library functions at work *)

Example split_ex : split 47 (str "/a//b") = [[]; str "a"; []; str "b"].
Proof. reflexivity. Qed.
Example basename_ex : basename (str "/u/proj/my-project/") = str "my-project".
Proof. reflexivity. Qed.
Example basename_root : basename (str "/") = [].
Proof. reflexivity. Qed.
Example trim_ex : trim (str "  a b  ") = str "a b".
Proof. reflexivity. Qed.
Example sort_ex :
  sort (λ a b : Z * Z, a.1 - b.1) [(2, 0); (1, 1); (2, 2); (1, 3)]
  = [(1, 1); (1, 3); (2, 0); (2, 2)].
Proof. reflexivity. Qed.
Example indexOf_ex : indexOf (str "b") [str "a"; str "b"] = Some 1%nat.
Proof. vm_compute. reflexivity. Qed.
Example escape_ex1 :
  _escapeFtsQuery (str "error:ENOENT AND (file NOT found)")
  = str "error ENOENT file found".
Proof. vm_compute. reflexivity. Qed.
Example escape_ex2 : _escapeFtsQuery (str "AND OR NOT") = str "*".
Proof. vm_compute. reflexivity. Qed.
Example escape_ex3 :
  _escapeFtsQuery (str "test and query band ANDROID near")
  = str "test query band ANDROID".
Proof. vm_compute. reflexivity. Qed.
Example encoded_ex :
  encodedFolder (str "/Users/t/.claude/projects/-Users-t-projects-my/c.jsonl")
  = Some (str "-Users-t-projects-my").
Proof. vm_compute. reflexivity. Qed.

(** ** White space *)

Lemma drop_while_nil_iff {A} (p : A → bool) (l : list A) :
  drop_while p l = [] ↔ Forall (λ x, p x = true) l.
Proof.
  induction l as [|x l IH]; simpl.
  - split; [constructor | done].
  - destruct (p x) eqn:E.
    + rewrite IH. split; [by constructor | by inversion 1].
    + split; [done | inversion 1; congruence].
Qed.

(** A string is blank exactly when all its code units are white space. *)
Lemma is_blank_spec (s : list N) :
  is_blank s = true ↔ Forall (λ c, is_space c = true) s.
Proof.
  unfold is_blank, trim. rewrite <- (drop_while_nil_iff is_space s).
  destruct (drop_while is_space s) as [|c r] eqn:E; simpl.
  - split; done.
  - split; [|done]. intros H. exfalso.
    destruct (reverse _) as [|y t] eqn:E2 in H; [|done].
    assert (E3 : drop_while is_space (reverse (c :: r)) = []).
    { apply (f_equal reverse) in E2. rewrite reverse_involutive in E2. done. }
    apply drop_while_nil_iff in E3. rewrite Forall_reverse in E3.
    assert (Hc : is_space c = true) by (by inversion E3).
    clear -E Hc. induction s as [|x s IH]; simpl in E; [done|].
    destruct (is_space x) eqn:Ex; [auto | congruence].
Qed.

(** ** Statements leave the other tables alone *)

Lemma conversations_tools_fold (cid : list N) (entries : list (list N * Z)) (db : DB) :
  let db' := foldl (λ db e, insert_or_replace_tool (ToolRow cid e.1 e.2) db) db entries in
  conversations db' = conversations db
  ∧ conversation_fts db' = conversation_fts db
  ∧ file_index db' = file_index db.
Proof.
  revert db. induction entries as [|e es IH]; intros db; simpl; [done|].
  destruct (IH (insert_or_replace_tool (ToolRow cid e.1 e.2) db)) as (-> & -> & ->).
  done.
Qed.

Lemma fts_delete_conversations_where (gone : conversation_row → bool) (db : DB) :
  conversation_fts (delete_conversations_where gone db) = conversation_fts db.
Proof. unfold delete_conversations_where. by destruct (foreign_keys db). Qed.

Lemma file_index_delete_conversations_where (gone : conversation_row → bool) (db : DB) :
  file_index (delete_conversations_where gone db) = file_index db.
Proof. unfold delete_conversations_where. by destruct (foreign_keys db). Qed.

Lemma conversations_delete_conversations_where (gone : conversation_row → bool) (db : DB) :
  conversations (delete_conversations_where gone db)
  = filter (λ r, gone r = false) (conversations db).
Proof. unfold delete_conversations_where. by destruct (foreign_keys db). Qed.

(** After the tool rows of [cid] are gone, deleting the conversation
    [cid] removes no further tool row, foreign keys or not. *)
Lemma tools_delete_conversation (cid : list N) (db : DB) :
  Forall (λ t, t_conversation_id t ≠ cid) (tool_usage db) →
  tool_usage (delete_conversation cid db) = tool_usage db.
Proof.
  intros H. unfold delete_conversation, delete_conversations_where.
  destruct (foreign_keys db); [|done]. simpl.
  induction H as [|t l Ht _ IH]; [done|].
  rewrite filter_cons_True; [by rewrite IH|].
  intros Hin. apply list_elem_of_fmap in Hin as (r & E & Hr).
  apply list_elem_of_filter in Hr as [Hr _].
  apply bool_decide_eq_true in Hr. congruence.
Qed.

Lemma conversation_at_None (p : list N) (db : DB) :
  conversation_at p db = None ↔ ∀ r, r ∈ conversations db → r_file_path r ≠ p.
Proof.
  unfold conversation_at. rewrite head_None. split.
  - intros E r Hr Hp.
    assert (r ∈ filter (λ r, r_file_path r = p) (conversations db))
      by (by apply list_elem_of_filter).
    rewrite E in H. by apply not_elem_of_nil in H.
  - intros H. destruct (filter _ _) as [|r l] eqn:E; [done|].
    assert (Hr : r ∈ filter (λ r, r_file_path r = p) (conversations db))
      by (rewrite E; left).
    apply list_elem_of_filter in Hr as [Hp Hr]. by destruct (H r Hr).
Qed.

(** ** Removing a file *)

(** C10.  When no session row has file path [p], [removeFile p] deletes
    the file-tracking row of [p] (the other tracking rows stay) and
    leaves the sessions, the FTS rows and the tool rows as they were. *)
Theorem removeFile_without_session (p : list N) (db : DB) :
  (∀ r, r ∈ conversations db → r_file_path r ≠ p) →
  conversations (removeFile p db) = conversations db
  ∧ conversation_fts (removeFile p db) = conversation_fts db
  ∧ tool_usage (removeFile p db) = tool_usage db
  ∧ file_index (removeFile p db) = delete p (file_index db)
  ∧ file_index (removeFile p db) !! p = None.
Proof.
  intros H. apply conversation_at_None in H.
  unfold removeFile. rewrite H. simpl.
  repeat split; try done. apply lookup_delete_eq.
Qed.

Lemma filter_bool_decide_false {A} `{EqDecision B} (f : A → B) (b : B) (l : list A) :
  filter (λ x, bool_decide (f x = b) = false) l = filter (λ x, f x ≠ b) l.
Proof.
  apply list_filter_iff. intros x. by rewrite bool_decide_eq_false.
Qed.

Lemma Forall_filter_ne {A} `{EqDecision B} (f : A → B) (b : B) (l : list A) :
  Forall (λ x, f x ≠ b) (filter (λ x, f x ≠ b) l).
Proof. apply Forall_forall. intros x Hx. by apply list_elem_of_filter in Hx as [? _]. Qed.

Lemma clear_parent_id (cid : list N) (r : conversation_row) :
  r_id (clear_parent cid r) = r_id r.
Proof. unfold clear_parent. by case_bool_decide. Qed.

Lemma clear_parent_cleared (cid : list N) (r : conversation_row) :
  r_parent_id (clear_parent cid r) ≠ Some cid.
Proof. unfold clear_parent. by case_bool_decide. Qed.

Lemma removeFile_file_index (p : list N) (db : DB) :
  file_index (removeFile p db) = delete p (file_index db).
Proof.
  unfold removeFile. destruct (conversation_at p db) as [conv|]; simpl; [|done].
  unfold delete_conversation. by rewrite file_index_delete_conversations_where.
Qed.

Lemma removeFile_tables (p : list N) (db : DB) (conv : conversation_row) :
  conversation_at p db = Some conv →
  conversations (removeFile p db)
    = filter (λ r, r_id r ≠ r_id conv) (clear_parent (r_id conv) <$> conversations db)
  ∧ conversation_fts (removeFile p db)
    = filter (λ f, f_conversation_id f ≠ r_id conv) (conversation_fts db)
  ∧ tool_usage (removeFile p db)
    = filter (λ t, t_conversation_id t ≠ r_id conv) (tool_usage db).
Proof.
  intros Hat. unfold removeFile. rewrite Hat. simpl.
  set (cid := r_id conv).
  set (db3 := delete_tools cid (delete_fts cid (clear_parent_refs cid db))).
  split; [|split].
  - unfold delete_conversation. rewrite conversations_delete_conversations_where.
    subst db3. simpl. apply (filter_bool_decide_false r_id).
  - unfold delete_conversation. by rewrite fts_delete_conversations_where.
  - rewrite tools_delete_conversation; [done|]. subst db3. simpl.
    apply (Forall_filter_ne t_conversation_id).
Qed.

(** C1.  [removeFile p] is one state transformer (the body of its
    transaction): it deletes the file-tracking row of [p]; and when a
    session [conv] has file path [p], it sets [parent_id] to null in the
    sessions that name [conv] as parent, keeps every session of another
    id, and deletes the session rows, the FTS rows and the tool rows of
    [conv]'s id.  Afterwards no session, FTS or tool row carries that
    id, no session has it as [parent_id], and [p] is not tracked. *)
Theorem removeFile_spec (p : list N) (db : DB) :
  file_index (removeFile p db) = delete p (file_index db)
  ∧ file_index (removeFile p db) !! p = None
  ∧ match conversation_at p db with
    | Some conv =>
        conversations (removeFile p db)
          = filter (λ r, r_id r ≠ r_id conv)
              (clear_parent (r_id conv) <$> conversations db)
        ∧ conversation_fts (removeFile p db)
          = filter (λ f, f_conversation_id f ≠ r_id conv) (conversation_fts db)
        ∧ tool_usage (removeFile p db)
          = filter (λ t, t_conversation_id t ≠ r_id conv) (tool_usage db)
        ∧ (∀ r, r ∈ conversations (removeFile p db) →
                r_id r ≠ r_id conv ∧ r_parent_id r ≠ Some (r_id conv))
        ∧ (∀ r, r ∈ conversations db → r_id r ≠ r_id conv →
                clear_parent (r_id conv) r ∈ conversations (removeFile p db))
        ∧ (∀ f, f ∈ conversation_fts (removeFile p db) → f_conversation_id f ≠ r_id conv)
        ∧ (∀ t, t ∈ tool_usage (removeFile p db) → t_conversation_id t ≠ r_id conv)
    | None =>
        conversations (removeFile p db) = conversations db
        ∧ conversation_fts (removeFile p db) = conversation_fts db
        ∧ tool_usage (removeFile p db) = tool_usage db
    end.
Proof.
  rewrite removeFile_file_index. split; [done|]. split; [apply lookup_delete_eq|].
  destruct (conversation_at p db) as [conv|] eqn:Hat.
  - destruct (removeFile_tables p db conv Hat) as (-> & -> & ->).
    split; [done|]. split; [done|]. split; [done|]. split; [|split; [|split]].
    + intros r Hr. apply list_elem_of_filter in Hr as [Hid Hr]. split; [done|].
      apply list_elem_of_fmap in Hr as (r0 & -> & _). apply clear_parent_cleared.
    + intros r Hr Hne. apply list_elem_of_filter. split.
      * by rewrite clear_parent_id.
      * by apply list_elem_of_fmap_2.
    + intros f Hin. by apply list_elem_of_filter in Hin as [? _].
    + intros t Hin. by apply list_elem_of_filter in Hin as [? _].
  - unfold removeFile. by rewrite Hat.
Qed.

(** ** Upserting a session *)

Lemma upsertConversation_fts (c : conversation) (text : list N) (now : Z) (db : DB) :
  conversation_fts (upsertConversation c text now db)
  = filter (λ f, f_conversation_id f ≠ o_id c) (conversation_fts db)
    ++ (if is_blank text then []
        else [FtsRow (o_id c) text (default [] (or_null (o_project c)))]).
Proof.
  unfold upsertConversation.
  match goal with |- conversation_fts (foldl _ ?d ?l) = _ =>
    destruct (conversations_tools_fold (o_id c) l d) as (_ & -> & _) end.
  destruct (is_blank text); simpl.
  - unfold insert_or_replace_conversation. simpl.
    rewrite fts_delete_conversations_where. by rewrite app_nil_r.
  - unfold insert_or_replace_conversation. simpl.
    by rewrite fts_delete_conversations_where.
Qed.

Lemma upsertConversation_conversations (c : conversation) (text : list N) (now : Z) (db : DB) :
  conversations (upsertConversation c text now db)
  = filter (λ r, (bool_decide (r_id r = o_id c)
                  || bool_decide (r_file_path r = o_filePath c)) = false)
      (conversations db)
    ++ [row_of_conversation c now].
Proof.
  unfold upsertConversation.
  match goal with |- conversations (foldl _ ?d ?l) = _ =>
    destruct (conversations_tools_fold (o_id c) l d) as (-> & _ & _) end.
  destruct (is_blank text); simpl;
    unfold insert_or_replace_conversation; simpl;
    by rewrite conversations_delete_conversations_where.
Qed.

Lemma upsertConversation_file_index (c : conversation) (text : list N) (now : Z) (db : DB) :
  file_index (upsertConversation c text now db)
  = <[o_filePath c := FileRow (num_or (default 0 (o_lastModified c)) now)
                        (num_or (o_fileSize c) 0) now]> (file_index db).
Proof.
  unfold upsertConversation.
  match goal with |- file_index (foldl _ ?d ?l) = _ =>
    destruct (conversations_tools_fold (o_id c) l d) as (_ & _ & ->) end.
  destruct (is_blank text); simpl;
    unfold insert_or_replace_conversation; simpl;
    by rewrite file_index_delete_conversations_where.
Qed.

Lemma filter_eq_of_filter_ne {A} `{EqDecision B} (f : A → B) (b : B) (l : list A) :
  filter (λ x, f x = b) (filter (λ x, f x ≠ b) l) = [].
Proof.
  induction l as [|x l IH]; [done|].
  destruct (decide (f x = b)).
  - by rewrite (filter_cons_False (λ x, f x ≠ b)) by tauto.
  - rewrite (filter_cons_True (λ x, f x ≠ b)) by done.
    by rewrite filter_cons_False.
Qed.

(** C3.  After [upsertConversation c text] the FTS table is the old one
    without the rows of [c]'s id, followed by one new row for that id
    unless [text] is blank; so the id has at most one FTS row, and none
    when [text] is empty or all white space. *)
Theorem upsertConversation_fts_rows (c : conversation) (text : list N) (now : Z) (db : DB) :
  let rows_of (d : DB) := filter (λ f, f_conversation_id f = o_id c) (conversation_fts d) in
  (length (rows_of (upsertConversation c text now db)) ≤ 1)%nat
  ∧ (Forall (λ ch, is_space ch = true) text →
       rows_of (upsertConversation c text now db) = []
       ∧ conversation_fts (upsertConversation c text now db)
         = filter (λ f, f_conversation_id f ≠ o_id c) (conversation_fts db))
  ∧ (¬ Forall (λ ch, is_space ch = true) text →
       rows_of (upsertConversation c text now db)
       = [FtsRow (o_id c) text (default [] (or_null (o_project c)))]).
Proof.
  simpl. rewrite upsertConversation_fts, filter_app.
  rewrite (filter_eq_of_filter_ne f_conversation_id). simpl.
  destruct (is_blank text) eqn:E.
  - apply is_blank_spec in E. rewrite app_nil_r. simpl. split; [lia|]. split; done.
  - assert (¬ Forall (λ ch, is_space ch = true) text).
    { intros H. apply is_blank_spec in H. congruence. }
    rewrite filter_cons_True by done. simpl. split; [lia|]. split; done.
Qed.

(** ** The stable sort *)

Section sort_facts.
Context {A : Type}.

Lemma sort_insert_Permutation (cmp : A → A → Z) (x : A) (l : list A) :
  sort_insert cmp x l ≡ₚ x :: l.
Proof.
  induction l as [|y l IH]; simpl; [done|].
  destruct (0 <? cmp x y); [|done].
  rewrite IH. apply Permutation_swap.
Qed.

Lemma sort_Permutation (cmp : A → A → Z) (l : list A) : sort cmp l ≡ₚ l.
Proof.
  induction l as [|x l IH]; simpl; [done|].
  unfold sort in *. simpl. by rewrite sort_insert_Permutation, IH.
Qed.

Lemma sort_ext (cmp cmp' : A → A → Z) (l : list A) :
  (∀ a b, cmp a b = cmp' a b) → sort cmp l = sort cmp' l.
Proof.
  intros E. unfold sort. induction l as [|x l IH]; simpl; [done|].
  rewrite IH. generalize (foldr (sort_insert cmp') [] l). intros s.
  induction s as [|y s IHs]; simpl; [done|]. by rewrite E, IHs.
Qed.

Variable key : A → Z.

Lemma sort_insert_sorted (x : A) (l : list A) :
  StronglySorted (λ a b, key a ≤ key b) l →
  StronglySorted (λ a b, key a ≤ key b) (sort_insert (λ a b, key a - key b) x l).
Proof.
  induction l as [|y l IH]; simpl; intros Hl.
  - repeat constructor.
  - apply StronglySorted_cons in Hl as [Hy Hl].
    destruct (0 <? key x - key y) eqn:E.
    + apply Z.ltb_lt in E. apply StronglySorted_cons. split; [|auto].
      rewrite sort_insert_Permutation. constructor; [lia | done].
    + apply Z.ltb_ge in E. apply StronglySorted_cons. split.
      * constructor; [lia|]. eapply Forall_impl; [exact Hy|].
        simpl. intros; lia.
      * by apply StronglySorted_cons.
Qed.

(** The result is in ascending order of the key ... *)
Lemma sort_sorted (l : list A) :
  StronglySorted (λ a b, key a ≤ key b) (sort (λ a b, key a - key b) l).
Proof.
  unfold sort. induction l as [|x l IH]; simpl; [constructor|].
  by apply sort_insert_sorted.
Qed.

Lemma sort_insert_stable (t : Z) (x : A) (l : list A) :
  filter (λ a, key a = t) (sort_insert (λ a b, key a - key b) x l)
  = filter (λ a, key a = t) (x :: l).
Proof.
  induction l as [|y l IH]; simpl; [done|].
  destruct (0 <? key x - key y) eqn:E; [|done].
  apply Z.ltb_lt in E.
  rewrite (filter_cons _ y), IH, !(filter_cons _ x), !(filter_cons _ y).
  repeat case_decide; try done; lia.
Qed.

(** ... and elements of equal key keep their order. *)
Lemma sort_stable (t : Z) (l : list A) :
  filter (λ a, key a = t) (sort (λ a b, key a - key b) l)
  = filter (λ a, key a = t) l.
Proof.
  unfold sort. induction l as [|x l IH]; simpl; [done|].
  rewrite sort_insert_stable, !filter_cons. by rewrite IH.
Qed.
End sort_facts.

(** ** [LIMIT] and [OFFSET] *)

Lemma limit_offset_length {A} (lim off : Z) (rows : list A) :
  0 ≤ lim → (length (limit_offset lim off rows) ≤ Z.to_nat lim)%nat.
Proof.
  intros H. unfold limit_offset.
  destruct (lim <? 0) eqn:E; [apply Z.ltb_lt in E; lia|].
  rewrite length_take. lia.
Qed.

Lemma limit_offset_nonempty {A} (lim off : Z) (rows : list A) :
  0 < lim → off ≤ 0 → rows ≠ [] → limit_offset lim off rows ≠ [].
Proof.
  intros Hl Ho Hr. unfold limit_offset.
  destruct (lim <? 0) eqn:E; [apply Z.ltb_lt in E; lia|].
  replace (Z.to_nat off) with 0%nat by lia. simpl.
  destruct rows as [|r rows]; [done|].
  destruct (Z.to_nat lim) eqn:E2; [lia | done].
Qed.

Lemma limit_offset_sorted {A} (R : relation A) (lim off : Z) (rows : list A) :
  StronglySorted R rows → StronglySorted R (limit_offset lim off rows).
Proof.
  intros H. unfold limit_offset.
  assert (Hd : StronglySorted R (drop (Z.to_nat off) rows)).
  { rewrite <- (take_drop (Z.to_nat off) rows) in H.
    by apply StronglySorted_app_1_r in H. }
  destruct (lim <? 0); [done|].
  rewrite <- (take_drop (Z.to_nat lim) (drop _ rows)) in Hd.
  by apply StronglySorted_app_1_l in Hd.
Qed.

(** ** Blank queries *)

(** C8.  For a query that is empty or all white space, and whatever the
    options and the database, the search with snippets answers the
    empty list. *)
Theorem searchConversationsWithSnippets_blank {score : Type}
    (toUpperCase : list N → list N)
    (fts5 : list fts_row → list N → option (list (fts_row * score * list N)))
    (query : list N) (o : options) (db : DB) :
  Forall (λ c, is_space c = true) query →
  searchConversationsWithSnippets toUpperCase fts5 query o db = [].
Proof.
  intros H. apply is_blank_spec in H.
  unfold searchConversationsWithSnippets. by rewrite H.
Qed.

Lemma sort_nonempty {A} (cmp : A → A → Z) (l : list A) : l ≠ [] → sort cmp l ≠ [].
Proof.
  intros H E. pose proof (sort_Permutation cmp l) as HP. rewrite E in HP.
  apply Permutation_nil_l in HP. done.
Qed.

(** With no sort option given, the listing is by [last_modified],
    newest first. *)
Lemma getConversations_default_order (toUpperCase : list N → list N)
    (o : options) (db : DB) :
  sortBy o = None → sortOrder o = None →
  toUpperCase (str "DESC") = str "DESC" →
  StronglySorted (λ a b, v_lastModified b ≤ v_lastModified a)
    (getConversations toUpperCase o db).
Proof.
  intros E1 E2 E3. unfold getConversations. rewrite E1, E2. simpl. rewrite E3.
  rewrite bool_decide_eq_false_2 by (by vm_compute).
  replace (safeSort (str "last_modified")) with r_last_modified by reflexivity.
  match goal with |- context [sort _ ?l] => generalize l end. intros rows.
  apply (StronglySorted_fmap _ (λ a b, - r_last_modified a ≤ - r_last_modified b)).
  { intros x y. simpl. lia. }
  apply limit_offset_sorted.
  rewrite (sort_ext _ (λ a b, - r_last_modified a - - r_last_modified b))
    by (intros; lia).
  apply (sort_sorted (λ r, - r_last_modified r)).
Qed.

(** C9.  For a query that is empty or all white space the plain search
    does not answer the empty list of the snippet search: it answers
    the paged listing of [getConversations] for the same options, so at
    most [limit] sessions (100 when no limit is given), newest first
    when no sort option is given, and at least one session when the
    store has a session that passes the filters. *)
Theorem searchConversations_blank {score : Type}
    (toUpperCase : list N → list N)
    (fts5 : list fts_row → list N → option (list (fts_row * score * list N)))
    (query : list N) (o : options) (db : DB) :
  Forall (λ c, is_space c = true) query →
  searchConversations toUpperCase fts5 query o db
    = (λ c, SearchResult c None None None) <$> getConversations toUpperCase o db
  ∧ sr_conversation <$> searchConversations toUpperCase fts5 query o db
    = getConversations toUpperCase o db
  ∧ (0 ≤ default 100 (limit o) →
       (length (searchConversations toUpperCase fts5 query o db)
        ≤ Z.to_nat (default 100%Z (limit o)))%nat)
  ∧ (sortBy o = None → sortOrder o = None →
     toUpperCase (str "DESC") = str "DESC" →
       StronglySorted (λ a b, v_lastModified b ≤ v_lastModified a)
         (sr_conversation <$> searchConversations toUpperCase fts5 query o db))
  ∧ (0 < default 100 (limit o) → default 0 (offset o) ≤ 0 →
     opt_project o = None →
     (∃ r, r ∈ conversations db
           ∧ (default false (includeSubagents o) = true ∨ not_subagent r = true)) →
       searchConversations toUpperCase fts5 query o db ≠ [])
  ∧ searchConversationsWithSnippets toUpperCase fts5 query o db = [].
Proof.
  intros H. pose proof H as Hb. apply is_blank_spec in Hb.
  assert (E : searchConversations toUpperCase fts5 query o db
              = (λ c, SearchResult c None None None) <$> getConversations toUpperCase o db).
  { unfold searchConversations. by rewrite Hb. }
  assert (E' : sr_conversation <$> searchConversations toUpperCase fts5 query o db
               = getConversations toUpperCase o db).
  { rewrite E, <- list_fmap_compose. apply list_fmap_id. }
  rewrite E'. split; [done|]. split; [done|]. split; [|split; [|split]].
  - intros Hl. rewrite E, length_fmap. unfold getConversations.
    rewrite length_fmap. by apply limit_offset_length.
  - apply getConversations_default_order.
  - intros Hl Ho Hp (r & Hr & Hs). rewrite E.
    intros Hnil. apply fmap_nil_inv in Hnil. revert Hnil.
    unfold getConversations. rewrite Hp. simpl.
    intros Hnil. apply fmap_nil_inv in Hnil. revert Hnil.
    apply limit_offset_nonempty; [done..|]. apply sort_nonempty.
    destruct (default false (includeSubagents o)) eqn:Ei.
    + intros Hnil. rewrite Hnil in Hr. by apply not_elem_of_nil in Hr.
    + destruct Hs as [?|Hs]; [done|]. intros Hnil.
      assert (Hin : r ∈ filter (λ r, not_subagent r = true) (conversations db))
        by (by apply list_elem_of_filter).
      rewrite Hnil in Hin. by apply not_elem_of_nil in Hin.
  - unfold searchConversationsWithSnippets. by rewrite Hb.
Qed.

(** ** Incremental indexing *)

Lemma needsIndexing_false_iff (p : list N) (m s : Z) (db : DB) :
  needsIndexing p m s db = false
  ↔ ∃ row, file_index db !! p = Some row ∧ fi_mtime row = m ∧ fi_size row = s.
Proof.
  unfold needsIndexing. destruct (file_index db !! p) as [row|].
  - rewrite orb_false_iff, !negb_false_iff, !Z.eqb_eq. split.
    + intros [? ?]. by exists row.
    + intros (row' & ? & ? & ?). by simplify_eq.
  - split; [done|]. by intros (row & ? & _).
Qed.


Lemma remove_deleted_fold (ps : pass_state) (paths : list (list N)) :
  let ps' := foldl remove_deleted ps paths in
  filesIndexed (p_stats ps') = filesIndexed (p_stats ps)
  ∧ filesSkipped (p_stats ps') = filesSkipped (p_stats ps)
  ∧ errors (p_stats ps') = errors (p_stats ps)
  ∧ ∀ p, p ∉ paths → file_index (p_db ps') !! p = file_index (p_db ps) !! p.
Proof.
  revert ps. induction paths as [|q paths IH]; intros ps; simpl; [done|].
  destruct (IH (remove_deleted ps q)) as (-> & -> & -> & Hfi). simpl.
  repeat split; try done.
  intros p Hp. apply not_elem_of_cons in Hp as [Hne Hp].
  rewrite (Hfi p Hp). unfold remove_deleted. cbn [p_db].
  rewrite removeFile_file_index.
  by apply lookup_delete_ne.
Qed.

Lemma resolve_conversation_fold_file_index (name : list N) (st : resolve_state)
    (convs : list conversation_row) :
  file_index (rs_db (foldl (resolve_conversation name) st convs)) = file_index (rs_db st).
Proof.
  revert st. induction convs as [|c convs IH]; intros st; simpl; [done|].
  rewrite IH. unfold resolve_conversation. by case_bool_decide.
Qed.

Lemma resolveEncodedProjectNames_file_index (db : DB) :
  file_index (resolveEncodedProjectNames db).1.1 = file_index db.
Proof.
  unfold resolveEncodedProjectNames.
  change (file_index db) with (file_index (db, 0, 0).1.1).
  generalize (db, 0, 0) as st. generalize (folderData db) as fd.
  induction fd as [|e fd IH]; intros st; simpl; [done|].
  rewrite IH. unfold resolve_folder. destruct (canonicalName e.2); [|done].
  simpl. apply resolve_conversation_fold_file_index.
Qed.

(** The tracking row a file has after a pass that meets it. *)
Lemma process_file_tracks (dir : list N) (ps : pass_state) (f : file_obs) (st : file_stats) :
  fo_stat f = Some st → is_Some (fo_lines f) → st_mtime st ≠ 0 →
  ∃ row, file_index (p_db (process_file dir ps f)) !! fo_path f = Some row
         ∧ fi_mtime row = st_mtime st ∧ fi_size row = st_size st.
Proof.
  intros Hst [lines Hl] Hm. unfold process_file. rewrite Hst.
  destruct (needsIndexing _ _ _ _) eqn:E.
  - unfold _indexFile. rewrite Hl. simpl.
    rewrite upsertConversation_file_index. simpl.
    eexists. split; [apply lookup_insert_eq|]. simpl. unfold num_or.
    split.
    + destruct (st_mtime st =? 0) eqn:E0; [apply Z.eqb_eq in E0|]; done.
    + by destruct (st_size st =? 0) eqn:E0; [apply Z.eqb_eq in E0|].
  - simpl. by apply needsIndexing_false_iff.
Qed.

Lemma process_file_untracks (dir : list N) (ps : pass_state) (f : file_obs) (st : file_stats) :
  fo_stat f = Some st → fo_path f ∉ p_indexedPaths (process_file dir ps f).
Proof.
  intros Hst. unfold process_file. rewrite Hst.
  assert (fo_path f ∉ filter (λ p, p ≠ fo_path f) (p_indexedPaths ps)).
  { intros Hin. by apply list_elem_of_filter in Hin as [? _]. }
  destruct (needsIndexing _ _ _ _); [destruct (_indexFile _ _ _ _)|]; done.
Qed.

(** What a pass over the one file [f] reports when [f] is tracked with
    its present modification time and size. *)
Lemma runFullIndex_skips (dir : list N) (f : file_obs) (st : file_stats) (db : DB) :
  fo_stat f = Some st →
  needsIndexing (fo_path f) (st_mtime st) (st_size st) db = false →
  filesSkipped (runFullIndex dir [f] db).2 = 1
  ∧ filesIndexed (runFullIndex dir [f] db).2 = 0
  ∧ errors (runFullIndex dir [f] db).2 = 0.
Proof.
  intros Hst Hn. unfold runFullIndex. simpl.
  match goal with |- context [foldl remove_deleted ?ps ?l] =>
    destruct (remove_deleted_fold ps l) as (E1 & E2 & E3 & _) end.
  rewrite E1, E2, E3. unfold process_file. rewrite Hst. simpl. by rewrite Hn.
Qed.

(** [needsIndexing] answers false exactly when the file has a tracking
    row with the same modification time and size.  For such a file the
    pass neither parses nor upserts: the database is left as it is and
    only [filesSkipped] grows; a pass over that file alone reports one
    file skipped and none indexed.  This is what a second pass reports
    after a first pass over a file whose modification time is not zero;
    for a modification time of zero see [epoch_file_indexed_again]. *)
Theorem unchanged_file_is_skipped (dir : list N) (f : file_obs) (st : file_stats) (db : DB) :
  fo_stat f = Some st →
  (needsIndexing (fo_path f) (st_mtime st) (st_size st) db = false
   ↔ ∃ row, file_index db !! fo_path f = Some row
            ∧ fi_mtime row = st_mtime st ∧ fi_size row = st_size st)
  ∧ ((∃ row, file_index db !! fo_path f = Some row
             ∧ fi_mtime row = st_mtime st ∧ fi_size row = st_size st) →
     (∀ stats tracked,
        p_db (process_file dir (PassState db stats tracked) f) = db
        ∧ p_stats (process_file dir (PassState db stats tracked) f) = count_skipped stats)
     ∧ filesSkipped (runFullIndex dir [f] db).2 = 1
     ∧ filesIndexed (runFullIndex dir [f] db).2 = 0)
  ∧ (is_Some (fo_lines f) → st_mtime st ≠ 0 →
     filesSkipped (runFullIndex dir [f] (runFullIndex dir [f] db).1).2 = 1
     ∧ filesIndexed (runFullIndex dir [f] (runFullIndex dir [f] db).1).2 = 0).
Proof.
  intros Hst. split; [apply needsIndexing_false_iff|]. split.
  - intros Hrow. apply needsIndexing_false_iff in Hrow. split.
    + intros stats tracked. unfold process_file. rewrite Hst. simpl. by rewrite Hrow.
    + destruct (runFullIndex_skips dir f st db Hst Hrow) as (? & ? & _). done.
  - intros Hl Hm.
    assert (Hn : needsIndexing (fo_path f) (st_mtime st) (st_size st)
                   (runFullIndex dir [f] db).1 = false).
    { apply needsIndexing_false_iff. unfold runFullIndex. simpl.
      rewrite resolveEncodedProjectNames_file_index.
      set (ps := PassState db _ _).
      destruct (remove_deleted_fold (process_file dir ps f)
                  (p_indexedPaths (process_file dir ps f))) as (_ & _ & _ & Hfi).
      simpl in Hfi. setoid_rewrite Hfi; [|by eapply process_file_untracks].
      by apply process_file_tracks. }
    destruct (runFullIndex_skips dir f st _ Hst Hn) as (? & ? & _). done.
Qed.

(** ** Token totals *)

Lemma num_or_0 (x : Z) : num_or x 0 = x.
Proof. unfold num_or. destruct (x =? 0) eqn:E; [apply Z.eqb_eq in E|]; done. Qed.

Lemma round53_exact (z : Z) : Z.abs z ≤ max_exact → round53 z = z.
Proof.
  intros Hz. unfold round53. destruct (Z.ltb_spec (Z.abs z) max_exact) as [|Hge]; [done|].
  assert (z = max_exact ∨ z = - max_exact) as [->| ->] by lia; by vm_compute.
Qed.

Lemma js_add_exact (x y : Z) : Z.abs x + Z.abs y ≤ max_exact → js_add x y = x + y.
Proof. intros H. apply round53_exact. lia. Qed.

Lemma on_line_tokens (st : parse_state) (l : line) :
  (Z.abs (ps_input st) + Z.abs (input_of l) ≤ max_exact →
   ps_input (on_line st l) = ps_input st + input_of l)
  ∧ (Z.abs (ps_output st) + Z.abs (output_of l) ≤ max_exact →
     ps_output (on_line st l) = ps_output st + output_of l).
Proof.
  unfold input_of, output_of, assistant_message.
  destruct l as [| |it]; simpl; [split; intros; lia..|].
  destruct it as [ty cw [msg|]]; simpl.
  - unfold is_message_line, is_assistant. simpl.
    case_bool_decide as Ha; simpl.
    + destruct (m_usage msg) as [u|]; simpl; [|split; intros; lia].
      rewrite !num_or_0. split; intros H; by apply js_add_exact.
    + case_bool_decide; simpl; split; intros; lia.
  - case_bool_decide; simpl; split; intros; lia.
Qed.

Lemma Zsum_abs (f : line → Z) (lines : list line) :
  Z.abs (Zsum (f <$> lines)) ≤ Zsum ((λ l, Z.abs (f l)) <$> lines).
Proof.
  induction lines as [|l lines IH]; [done|].
  rewrite !fmap_cons. unfold Zsum in *. cbn [foldr]. lia.
Qed.

Lemma parse_fold_tokens (st : parse_state) (lines : list line) :
  (Z.abs (ps_input st) + Zsum ((λ l, Z.abs (input_of l)) <$> lines) ≤ max_exact →
   ps_input (foldl on_line st lines) = ps_input st + Zsum (input_of <$> lines))
  ∧ (Z.abs (ps_output st) + Zsum ((λ l, Z.abs (output_of l)) <$> lines) ≤ max_exact →
     ps_output (foldl on_line st lines) = ps_output st + Zsum (output_of <$> lines)).
Proof.
  revert st. induction lines as [|l lines IH]; intros st.
  { simpl. split; intros; lia. }
  rewrite !fmap_cons. change (foldl on_line st (l :: lines))
    with (foldl on_line (on_line st l) lines).
  pose proof (Zsum_abs input_of lines) as Hi. pose proof (Zsum_abs output_of lines) as Ho.
  destruct (IH (on_line st l)) as [IHi IHo].
  destruct (on_line_tokens st l) as [Ei Eo].
  unfold Zsum in *. cbn [foldr]. split; intros H.
  - rewrite IHi; rewrite Ei; lia.
  - rewrite IHo; rewrite Eo; lia.
Qed.

(** C6.  When the absolute values of the token counts of a file add up
    to at most [2^53], the range in which the additions of the parser
    are exact: the parser's input and output token counts are the sums,
    over the message lines of type [assistant], of
    [usage.input_tokens] and [usage.output_tokens] with zero for what is
    missing; the total is their sum; and the session row that indexing
    the file stores carries these three numbers, so
    [tokens_total = tokens_input + tokens_output] there too. *)
Theorem parser_token_totals (lines : list line) :
  token_weight lines ≤ max_exact →
  tu_input (tokenUsage (_parseJsonlStreaming lines)) = Zsum (input_of <$> lines)
  ∧ tu_output (tokenUsage (_parseJsonlStreaming lines)) = Zsum (output_of <$> lines)
  ∧ tu_total (tokenUsage (_parseJsonlStreaming lines))
    = tu_input (tokenUsage (_parseJsonlStreaming lines))
      + tu_output (tokenUsage (_parseJsonlStreaming lines))
  ∧ ∀ (dir path : list N) (st : file_stats) (now : Z) (db : DB),
      let row := row_of_conversation
                   (conversation_of dir path st (_parseJsonlStreaming lines)) now in
      row ∈ conversations
              (upsertConversation
                 (conversation_of dir path st (_parseJsonlStreaming lines))
                 (searchableContent (_parseJsonlStreaming lines)) now db)
      ∧ r_tokens_input row = Zsum (input_of <$> lines)
      ∧ r_tokens_output row = Zsum (output_of <$> lines)
      ∧ r_tokens_total row = r_tokens_input row + r_tokens_output row.
Proof.
  unfold token_weight. intros Hw. unfold _parseJsonlStreaming.
  pose proof (Zsum_abs input_of lines) as Hi. pose proof (Zsum_abs output_of lines) as Ho.
  assert (Hpi : 0 ≤ Zsum ((λ l, Z.abs (input_of l)) <$> lines)) by lia.
  assert (Hpo : 0 ≤ Zsum ((λ l, Z.abs (output_of l)) <$> lines)) by lia.
  destruct (parse_fold_tokens initial_state lines) as [Ei Eo]. simpl in Ei, Eo.
  specialize (Ei ltac:(lia)). specialize (Eo ltac:(lia)).
  simpl. rewrite Ei, Eo, js_add_exact by lia. repeat split; try done.
  - rewrite upsertConversation_conversations. set_solver.
  - by rewrite num_or_0.
  - by rewrite num_or_0.
  - by rewrite !num_or_0.
Qed.

(** ** Hierarchy grouping *)

Lemma StronglySorted_impl {A} (R1 R2 : relation A) (l : list A) :
  (∀ x y, R1 x y → R2 x y) → StronglySorted R1 l → StronglySorted R2 l.
Proof.
  intros HR. induction 1 as [|x l _ IH Hx]; constructor; [done|].
  eapply Forall_impl; [exact Hx | auto].
Qed.

Lemma omap_ext_elem {A B} (f g : A → option B) (l : list A) :
  (∀ x, x ∈ l → f x = g x) → omap f l = omap g l.
Proof.
  induction l as [|x l IH]; intros H; simpl; [done|].
  rewrite (H x) by left.
  assert (E : omap f l = omap g l) by (apply IH; intros y Hy; apply H; by right).
  unfold omap in E. by rewrite E.
Qed.

Section grouping_facts.
Context {rest : Type}.
Implicit Types (convs : list (conv rest)) (parent : conv rest).

Lemma childSubagents_Permutation convs parent :
  childSubagents convs parent
  ≡ₚ filter (λ s, g_parentId s = Some (g_id parent)) (subagents convs).
Proof. apply sort_Permutation. Qed.

Lemma childSubagents_sorted convs parent :
  StronglySorted (λ a b, g_lastModified b ≤ g_lastModified a)
    (childSubagents convs parent).
Proof.
  unfold childSubagents.
  rewrite (sort_ext _ (λ a b : conv rest, - g_lastModified a - - g_lastModified b))
    by (intros; unfold newest_first; lia).
  eapply StronglySorted_impl; [|apply (sort_sorted (λ c : conv rest, - g_lastModified c))].
  simpl. intros; lia.
Qed.

Lemma childSubagents_stable convs parent (t : Z) :
  filter (λ s, g_lastModified s = t) (childSubagents convs parent)
  = filter (λ s, g_lastModified s = t)
      (filter (λ s, g_parentId s = Some (g_id parent)) (subagents convs)).
Proof.
  unfold childSubagents.
  rewrite (sort_ext _ (λ a b : conv rest, - g_lastModified a - - g_lastModified b))
    by (intros; unfold newest_first; lia).
  rewrite (list_filter_iff _ (λ s : conv rest, - g_lastModified s = - t))
    by (intros; lia).
  rewrite (sort_stable (λ c : conv rest, - g_lastModified c)).
  apply list_filter_iff. intros; lia.
Qed.

(** The grouping asks the store only for the parents that are missing
    from the result set. *)
Lemma grouping_store_answers (backend : bool)
    (getConversation getConversation' : list N → option (conv rest)) convs :
  (∀ p, p ∈ parentIdsNeedingStubs convs → getConversation p = getConversation' p) →
  _groupSubagentsUnderParents backend getConversation convs
  = _groupSubagentsUnderParents backend getConversation' convs.
Proof.
  intros H.
  assert (E : parentStubs backend getConversation convs
              = parentStubs backend getConversation' convs).
  { unfold parentStubs. destruct backend; [|done].
    apply omap_ext_elem. intros p Hp. by rewrite (H p Hp). }
  unfold _groupSubagentsUnderParents, orphanSubagents, allParents. by rewrite E.
Qed.
End grouping_facts.

(** A list in the order of its sort is left as it is by the sort. *)
Lemma sort_of_sorted {A} (key : A → Z) (l : list A) :
  StronglySorted (λ a b, key a ≤ key b) l → sort (λ a b, key a - key b) l = l.
Proof.
  unfold sort. induction 1 as [|x l Hl IH Hx]; [done|].
  cbn [foldr]. rewrite IH. destruct l as [|y l']; [done|].
  apply Forall_cons_1 in Hx as [Hxy _]. cbn [sort_insert].
  destruct (Z.ltb_spec 0 (key x - key y)); [lia|done].
Qed.

Lemma StronglySorted_filter {A} (R : relation A) (P : A → Prop) `{∀ x, Decision (P x)}
    (l : list A) :
  StronglySorted R l → StronglySorted R (filter P l).
Proof.
  induction 1 as [|x l Hl IH Hx]; [constructor|].
  rewrite filter_cons. case_decide; [|done].
  constructor; [done|]. apply Forall_forall. intros y Hy.
  apply list_elem_of_filter in Hy as [_ Hy]. rewrite Forall_forall in Hx. by apply Hx.
Qed.

Lemma childSubagents_of_sorted {rest : Type} (convs : list (conv rest)) (parent : conv rest) :
  StronglySorted (λ a b, g_lastModified b ≤ g_lastModified a) convs →
  childSubagents convs parent
  = filter (λ s, g_parentId s = Some (g_id parent)) (subagents convs).
Proof.
  intros Hs. unfold childSubagents.
  rewrite (sort_ext _ (λ a b : conv rest, - g_lastModified a - - g_lastModified b))
    by (intros; unfold newest_first; lia).
  apply (sort_of_sorted (λ c : conv rest, - g_lastModified c)).
  unfold subagents. do 2 apply StronglySorted_filter.
  eapply StronglySorted_impl; [|exact Hs]. simpl. intros; lia.
Qed.

Lemma search_results_sorted_order {rest : Type} (results : list (conv rest)) :
  StronglySorted (λ a b, g_lastModified b ≤ g_lastModified a)
    (search_results_sorted results).
Proof.
  unfold search_results_sorted.
  rewrite (sort_ext _ (λ a b : conv rest, - g_lastModified a - - g_lastModified b))
    by (intros; unfold newest_first; lia).
  eapply StronglySorted_impl; [|apply (sort_sorted (λ c : conv rest, - g_lastModified c))].
  simpl. intros; lia.
Qed.

Lemma listed_with_subagents_order (toUpperCase : list N → list N) (db : DB) :
  toUpperCase (str "DESC") = str "DESC" →
  StronglySorted (λ a b, g_lastModified b ≤ g_lastModified a)
    (listed_with_subagents toUpperCase db).
Proof.
  intros Hup. unfold listed_with_subagents.
  apply (StronglySorted_fmap _ (λ a b, v_lastModified b ≤ v_lastModified a)).
  { by intros x y. }
  by apply getConversations_default_order.
Qed.

(** C7.  The result sets that the grouping is handed are newest first:
    the listing of [/api/conversations] by the order of its query, the
    results of [/api/search] by the sort that precedes the grouping.
    For every result set that is newest first, the subagents emitted
    under each parent are the subagents of the result set with that
    parent id in the order they have in the result set: the sort of a
    parent's subagents leaves them as they are.  The grouped result is
    then the parents, each followed by its subagents, and the orphans
    last; a result set without subagents is returned as it is.  The
    result is a function of the result set, the backend flag and the
    store's answers for the missing parents, so that a repeated call
    with the same inputs gives the same output. *)
Theorem grouping_children_order {rest : Type} :
  (∀ (backend : bool) (getConversation : list N → option (conv rest))
     (convs : list (conv rest)),
     StronglySorted (λ a b, g_lastModified b ≤ g_lastModified a) convs →
     (∀ parent,
        childSubagents convs parent
        = filter (λ s, g_parentId s = Some (g_id parent)) (subagents convs))
     ∧ (subagents convs = [] →
        _groupSubagentsUnderParents backend getConversation convs = convs)
     ∧ (subagents convs ≠ [] →
        _groupSubagentsUnderParents backend getConversation convs
        = (allParents backend getConversation convs ≫= λ parent,
             parent :: filter (λ s, g_parentId s = Some (g_id parent)) (subagents convs))
          ++ orphanSubagents backend getConversation convs)
     ∧ (∀ getConversation',
          (∀ p, p ∈ parentIdsNeedingStubs convs → getConversation p = getConversation' p) →
          _groupSubagentsUnderParents backend getConversation convs
          = _groupSubagentsUnderParents backend getConversation' convs))
  ∧ (∀ (toUpperCase : list N → list N) (db : DB),
       toUpperCase (str "DESC") = str "DESC" →
       StronglySorted (λ a b, g_lastModified b ≤ g_lastModified a)
         (listed_with_subagents toUpperCase db))
  ∧ (∀ results : list (conv rest),
       StronglySorted (λ a b, g_lastModified b ≤ g_lastModified a)
         (search_results_sorted results)).
Proof.
  split; [|split].
  - intros backend getConversation convs Hs. split; [|split; [|split]].
    + intros parent. by apply childSubagents_of_sorted.
    + intros E. unfold _groupSubagentsUnderParents. by rewrite E.
    + intros E.
      assert (EG : _groupSubagentsUnderParents backend getConversation convs
                   = (allParents backend getConversation convs ≫= λ parent,
                        parent :: childSubagents convs parent)
                     ++ orphanSubagents backend getConversation convs).
      { unfold _groupSubagentsUnderParents. by destruct (subagents convs). }
      rewrite EG. f_equal. clear EG.
      induction (allParents backend getConversation convs) as [|parent ps IH]; [done|].
      rewrite !bind_cons, IH. by rewrite childSubagents_of_sorted.
    + intros g' H. by apply grouping_store_answers.
  - apply listed_with_subagents_order.
  - apply search_results_sorted_order.
Qed.

(** ** Canonical project names *)

Lemma dedupe_snoc (l : list (list N)) (x : list N) :
  dedupe (l ++ [x]) = set_add x (dedupe l).
Proof. unfold dedupe. by rewrite foldl_app. Qed.

Lemma elem_of_set_add (x y : list N) (s : list (list N)) :
  y ∈ set_add x s ↔ y = x ∨ y ∈ s.
Proof.
  unfold set_add. case_bool_decide.
  - split; [auto|]. by intros [->|?].
  - rewrite elem_of_app, list_elem_of_singleton. tauto.
Qed.

Lemma elem_of_dedupe (l : list (list N)) (y : list N) : y ∈ dedupe l ↔ y ∈ l.
Proof.
  induction l as [|x l IH] using rev_ind.
  - done.
  - rewrite dedupe_snoc, elem_of_set_add, IH, elem_of_app, list_elem_of_singleton. tauto.
Qed.

Lemma map_has_spec {V} (k : list N) (m : list (list N * V)) :
  map_has k m = bool_decide (k ∈ m.*1).
Proof.
  induction m as [|[k' v] m IH]; [done|].
  rewrite fmap_cons. cbn [map_has fst]. rewrite IH. apply eq_true_iff_eq.
  rewrite orb_true_iff, !bool_decide_eq_true, elem_of_cons.
  split; (intros [E|E]; [left; by symmetry | by right]).
Qed.

Lemma group_snoc (folder : list N) (rows : list conversation_row) (r : conversation_row) :
  group folder (rows ++ [r])
  = group folder rows ++ (if decide (folder_of r = Some folder) then [r] else []).
Proof.
  unfold group. by rewrite filter_app.
Qed.

Lemma group_data_snoc_other (rows : list conversation_row) (r : conversation_row)
    (folder : list N) :
  folder_of r ≠ Some folder → group_data (rows ++ [r]) folder = group_data rows folder.
Proof.
  intros H. unfold group_data, group_cwds. rewrite group_snoc.
  rewrite decide_False by done. by rewrite app_nil_r.
Qed.

Lemma group_data_snoc_same (rows : list conversation_row) (r : conversation_row)
    (folder : list N) :
  folder_of r = Some folder →
  group_data (rows ++ [r]) folder = add_conversation r (group_data rows folder).
Proof.
  intros H. unfold group_data, group_cwds, add_conversation. rewrite group_snoc.
  rewrite decide_True by done. simpl. f_equal.
  rewrite omap_app. simpl.
  destruct (or_null (r_cwd r)); simpl; [apply dedupe_snoc | by rewrite app_nil_r].
Qed.

Lemma group_nil_of_not_folder (rows : list conversation_row) (folder : list N) :
  folder ∉ folders rows → group folder rows = [].
Proof.
  unfold folders. rewrite elem_of_dedupe. intros H.
  unfold group. induction rows as [|r rows IH]; [done|].
  rewrite filter_cons. case_decide as E.
  - exfalso. apply H. apply list_elem_of_omap. exists r. split; [left | done].
  - apply IH. intros Hin. apply H. apply list_elem_of_omap in Hin as (x & Hx & Ex).
    apply list_elem_of_omap. exists x. split; [by right | done].
Qed.

(** [folderData] holds, for each folder in order of first appearance,
    the sessions of the folder and the set of their cwds. *)
Lemma folderData_spec (rows : list conversation_row) :
  foldl group_conversation [] rows = (λ folder, (folder, group_data rows folder)) <$> folders rows.
Proof.
  induction rows as [|r rows IH] using rev_ind; [done|].
  rewrite foldl_app. simpl. rewrite IH. unfold group_conversation.
  fold (folder_of r). unfold folders. rewrite omap_app. simpl.
  destruct (folder_of r) as [folder|] eqn:Ef; simpl.
  - rewrite dedupe_snoc. fold (folders rows).
    rewrite map_has_spec, <- list_fmap_compose.
    replace (fst ∘ (λ folder0, (folder0, group_data rows folder0)) <$> folders rows)
      with (folders rows) by (symmetry; apply list_fmap_id).
    unfold set_add, map_alter. case_bool_decide as Hin.
    + rewrite <- list_fmap_compose. apply list_fmap_ext. intros i x Hx. simpl.
      case_bool_decide as Ex.
      * subst x. by rewrite group_data_snoc_same.
      * rewrite group_data_snoc_other; [done | congruence].
    + rewrite !fmap_app. simpl. rewrite bool_decide_eq_true_2 by done. f_equal.
      * rewrite <- list_fmap_compose. apply list_fmap_ext. intros i x Hx. simpl.
        apply list_elem_of_lookup_2 in Hx.
        rewrite bool_decide_eq_false_2 by (intros ->; done).
        rewrite group_data_snoc_other; [done|]. intros E. simplify_eq. done.
      * rewrite group_data_snoc_same by done. unfold group_data, group_cwds.
        by rewrite (group_nil_of_not_folder rows folder Hin).
  - rewrite app_nil_r. apply list_fmap_ext. intros i x Hx.
    rewrite group_data_snoc_other; [done | congruence].
Qed.

Lemma shortest_snoc (l : list (list N)) (x : list N) :
  shortest (l ++ [x])
  = match shortest l with
    | Some y => if (length x <? length y)%nat then Some x else Some y
    | None => Some x
    end.
Proof.
  induction l as [|a l IH]; [done|].
  simpl. rewrite IH. destruct (shortest l) as [y|]; simpl.
  - ltb_cases; simpl; ltb_cases; try done; lia.
  - by ltb_cases.
Qed.

Lemma shortest_min (l : list (list N)) (y : list N) :
  shortest l = Some y → y ∈ l ∧ Forall (λ z, (length y ≤ length z)%nat) l.
Proof.
  revert y. induction l as [|a l IH]; intros y; simpl; [done|].
  destruct (shortest l) as [y'|] eqn:E.
  - destruct (IH y' eq_refl) as [Hin Hall].
    destruct (Nat.ltb_spec (length y') (length a)); intros ?; simplify_eq.
    + split; [by right|]. constructor; [lia | done].
    + split; [left|]. constructor; [lia|].
      eapply Forall_impl; [exact Hall|]. simpl. intros; lia.
  - intros ?; simplify_eq. destruct l as [|b l]; [|simpl in E; by repeat case_match].
    split; [left | by repeat constructor].
Qed.

Lemma shortest_None (l : list (list N)) : shortest l = None ↔ l = [].
Proof.
  destruct l as [|a l]; simpl; [done|].
  split; [|done]. by repeat case_match.
Qed.

Lemma shortest_dedupe (l : list (list N)) : shortest (dedupe l) = shortest l.
Proof.
  induction l as [|x l IH] using rev_ind; [done|].
  rewrite dedupe_snoc, shortest_snoc. unfold set_add. case_bool_decide as Hin.
  - rewrite IH. destruct (shortest l) as [y|] eqn:E.
    + apply shortest_min in E as [_ Hall]. rewrite elem_of_dedupe in Hin.
      rewrite Forall_forall in Hall. specialize (Hall x Hin).
      destruct (Nat.ltb_spec (length x) (length y)); [lia | done].
    + apply shortest_None in E. subst l. by apply not_elem_of_nil in Hin.
  - by rewrite shortest_snoc, IH.
Qed.

(** The head of the cwds sorted by length is the first of the
    shortest. *)
Lemma head_sort_shortest (l : list (list N)) :
  head (sort (λ a b, Z.of_nat (length a) - Z.of_nat (length b)) l) = shortest l.
Proof.
  induction l as [|x l IH]; [done|].
  unfold sort in *. simpl. rewrite <- IH.
  destruct (foldr _ [] l) as [|y s]; simpl; [done|].
  ltb_cases; simpl; try done; lia.
Qed.

Lemma canonicalName_spec (rows : list conversation_row) (folder : list N) :
  canonicalName (group_data rows folder) = canonical folder rows.
Proof.
  unfold canonicalName, canonical, group_data. simpl.
  by rewrite head_sort_shortest, shortest_dedupe.
Qed.

(** *** The updates of the transaction, one after the other *)

Lemma resolve_conversation_fold (name : list N) (st : resolve_state)
    (convs : list conversation_row) :
  rs_db (foldl (resolve_conversation name) st convs)
  = foldl step_db (rs_db st) ((λ c, (name, c)) <$> convs).
Proof.
  revert st. induction convs as [|c convs IH]; intros st; [done|].
  rewrite fmap_cons. cbn [foldl]. rewrite IH. f_equal.
  unfold resolve_conversation, step_db. simpl. by case_bool_decide.
Qed.

Lemma resolve_folder_fold (st : DB * Z * Z) (fd : list (list N * folder_data)) :
  (foldl resolve_folder st fd).1.1 = foldl step_db st.1.1 (steps fd).
Proof.
  revert st. induction fd as [|e fd IH]; intros st; [done|].
  unfold steps. rewrite bind_cons. fold (steps fd). cbn [foldl].
  rewrite foldl_app, IH. f_equal.
  unfold resolve_folder. destruct (canonicalName e.2); [|done].
  simpl. by rewrite resolve_conversation_fold.
Qed.

Lemma filter_none {A} (P : A → Prop) `{∀ x, Decision (P x)} (l : list A) :
  (∀ x, x ∈ l → ¬ P x) → filter P l = [].
Proof.
  induction l as [|a l IH]; intros Hl; [done|].
  rewrite filter_cons_False by (apply Hl; left).
  apply IH. intros x Hx. apply Hl. by right.
Qed.

Lemma filter_unique {A} `{EqDecision B} (f : A → B) (l : list A) (x : A) :
  NoDup (f <$> l) → x ∈ l → filter (λ y, f y = f x) l = [x].
Proof.
  induction l as [|a l IH]; intros Hnd Hin; [by apply not_elem_of_nil in Hin|].
  rewrite fmap_cons in Hnd. apply NoDup_cons in Hnd as [Ha Hnd].
  apply elem_of_cons in Hin as [->|Hin].
  - rewrite filter_cons_True by done. f_equal.
    apply filter_none. intros y Hy E.
    apply Ha. rewrite <- E. by apply list_elem_of_fmap_2.
  - rewrite filter_cons_False; [by apply IH|].
    intros E. apply Ha. rewrite E. by apply list_elem_of_fmap_2.
Qed.

Lemma same_id_same_row (rows : list conversation_row) (r c : conversation_row) :
  NoDup (r_id <$> rows) → r ∈ rows → c ∈ rows → r_id r = r_id c → r = c.
Proof.
  intros Hnd Hr Hc E.
  assert (Hin : r ∈ filter (λ y, r_id y = r_id c) rows) by (by apply list_elem_of_filter).
  rewrite (filter_unique r_id rows c Hnd Hc) in Hin.
  by apply list_elem_of_singleton in Hin.
Qed.

Lemma set_project_same (name : list N) (r : conversation_row) :
  r_project r = Some name → set_project name r = r.
Proof. destruct r; simpl. by intros ->. Qed.

Lemma set_project_twice (name : list N) (r : conversation_row) :
  set_project name (set_project name r) = set_project name r.
Proof. done. Qed.

Lemma elem_of_ids_snoc (x : list N) (ss : list (list N * conversation_row))
    (s : list N * conversation_row) :
  x ∈ (r_id ∘ snd) <$> (ss ++ [s]) ↔ x ∈ (r_id ∘ snd) <$> ss ∨ x = r_id s.2.
Proof. rewrite fmap_app, elem_of_app. simpl. by rewrite list_elem_of_singleton. Qed.

Lemma resolved_row_id (rows : list conversation_row) (r : conversation_row) :
  r_id (resolved_row rows r) = r_id r.
Proof. unfold resolved_row. by destruct (_ ≫= _). Qed.

Lemma resolved_fts_id (rows : list conversation_row) (f : fts_row) :
  f_conversation_id (resolved_fts rows f) = f_conversation_id f.
Proof. unfold resolved_fts. by repeat case_match. Qed.

(** The state after some of the updates: the rows met so far are
    resolved, the others are as they were. *)
Lemma steps_fold (db : DB) (ss : list (list N * conversation_row)) :
  NoDup (r_id <$> conversations db) →
  (∀ s, s ∈ ss → s.2 ∈ conversations db
                 ∧ folder_of s.2 ≫= (λ folder, canonical folder (conversations db)) = Some s.1) →
  conversations (foldl step_db db ss)
    = (λ r, if bool_decide (r_id r ∈ (r_id ∘ snd) <$> ss)
            then resolved_row (conversations db) r else r) <$> conversations db
  ∧ conversation_fts (foldl step_db db ss)
    = (λ f, if bool_decide (f_conversation_id f ∈ (r_id ∘ snd) <$> ss)
            then resolved_fts (conversations db) f else f) <$> conversation_fts db
  ∧ tool_usage (foldl step_db db ss) = tool_usage db
  ∧ file_index (foldl step_db db ss) = file_index db
  ∧ foreign_keys (foldl step_db db ss) = foreign_keys db.
Proof.
  intros Hnd. induction ss as [|[name c] ss IH] using rev_ind; intros Hss.
  - simpl. split; [|split; [|done]]; symmetry; apply list_fmap_id.
  - destruct IH as (IHc & IHf & IHt & IHi & IHk).
    { intros s Hs. apply Hss. apply elem_of_app. by left. }
    destruct (Hss (name, c)) as [Hc Hname]; [apply elem_of_app; right; left|].
    simpl in Hc, Hname.
    assert (HT : resolved_row (conversations db) c = set_project name c).
    { unfold resolved_row. by rewrite Hname. }
    assert (HF : ∀ f, f_conversation_id f = r_id c →
                   resolved_fts (conversations db) f
                   = if bool_decide (r_project c ≠ Some name)
                     then FtsRow (f_conversation_id f) (f_content f) name else f).
    { intros f E. unfold resolved_fts.
      rewrite E, (filter_unique r_id _ c Hnd Hc). simpl. by rewrite Hname. }
    rewrite foldl_app. cbn [foldl]. unfold step_db at 1 3 5 7 9. cbn [fst snd].
    case_bool_decide as Hp; cbn [update_fts_project update_project set_fts
      set_conversations conversations conversation_fts tool_usage file_index foreign_keys].
    + rewrite IHc, IHf, IHt, IHi, IHk, <- !list_fmap_compose.
      split; [|split; [|done]].
      * apply list_fmap_ext. intros i r Hr. apply list_elem_of_lookup_2 in Hr.
        unfold compose at 1.
        repeat case_bool_decide;
          repeat match goal with
            | H : _ ∈ _ <$> (_ ++ [_]) |- _ => apply elem_of_ids_snoc in H; simpl in H
            | H : ¬ (_ ∈ _ <$> (_ ++ [_])) |- _ => rewrite elem_of_ids_snoc in H; simpl in H
            end;
          rewrite ?resolved_row_id in *;
          try (assert (r = c) by (by eapply same_id_same_row); subst r);
          rewrite ?HT, ?set_project_twice; try done; try tauto.
      * apply list_fmap_ext. intros i f Hf. apply list_elem_of_lookup_2 in Hf.
        unfold compose at 1.
        repeat case_bool_decide;
          repeat match goal with
            | H : _ ∈ _ <$> (_ ++ [_]) |- _ => apply elem_of_ids_snoc in H; simpl in H
            | H : ¬ (_ ∈ _ <$> (_ ++ [_])) |- _ => rewrite elem_of_ids_snoc in H; simpl in H
            end;
          rewrite ?resolved_fts_id in *;
          rewrite ?HF by done; rewrite ?bool_decide_eq_true_2 by done;
          try done; try tauto.
    + rewrite IHc, IHf, IHt, IHi, IHk. split; [|split; [|done]].
      * apply list_fmap_ext. intros i r Hr. apply list_elem_of_lookup_2 in Hr.
        repeat case_bool_decide;
          repeat match goal with
            | H : _ ∈ _ <$> (_ ++ [_]) |- _ => apply elem_of_ids_snoc in H; simpl in H
            | H : ¬ (_ ∈ _ <$> (_ ++ [_])) |- _ => rewrite elem_of_ids_snoc in H; simpl in H
            end; try done; try tauto.
        match goal with H : _ ∨ _ |- _ => destruct H as [?|E]; [done|] end.
        assert (r = c) by (by eapply same_id_same_row). subst r.
        rewrite HT. symmetry. by apply set_project_same.
      * apply list_fmap_ext. intros i f Hf. apply list_elem_of_lookup_2 in Hf.
        repeat case_bool_decide;
          repeat match goal with
            | H : _ ∈ _ <$> (_ ++ [_]) |- _ => apply elem_of_ids_snoc in H; simpl in H
            | H : ¬ (_ ∈ _ <$> (_ ++ [_])) |- _ => rewrite elem_of_ids_snoc in H; simpl in H
            end; try done; try tauto.
        match goal with H : _ ∨ _ |- _ => destruct H as [?|E]; [done|] end.
        by rewrite HF.
Qed.

Lemma elem_of_folders (rows : list conversation_row) (folder : list N) :
  folder ∈ folders rows ↔ ∃ r, r ∈ rows ∧ folder_of r = Some folder.
Proof. unfold folders. by rewrite elem_of_dedupe, list_elem_of_omap. Qed.

Lemma elem_of_steps (rows : list conversation_row) (name : list N) (c : conversation_row) :
  (name, c) ∈ steps ((λ folder, (folder, group_data rows folder)) <$> folders rows)
  ↔ c ∈ rows ∧ folder_of c ≫= (λ folder, canonical folder rows) = Some name.
Proof.
  unfold steps. rewrite list_elem_of_bind. split.
  - intros (e & Hs & He). apply list_elem_of_fmap in He as (folder & -> & Hf).
    simpl in Hs. rewrite canonicalName_spec in Hs.
    destruct (canonical folder rows) as [n|] eqn:En; [|by apply not_elem_of_nil in Hs].
    apply list_elem_of_fmap in Hs as (c' & E & Hc'). simplify_eq.
    apply list_elem_of_filter in Hc' as [Hfo Hc']. split; [done|].
    rewrite Hfo. simpl. done.
  - intros [Hc Hn]. destruct (folder_of c) as [folder|] eqn:Hfo; [|done].
    simpl in Hn. exists (folder, group_data rows folder). split.
    + simpl. rewrite canonicalName_spec, Hn.
      apply list_elem_of_fmap. exists c. split; [done|].
      by apply list_elem_of_filter.
    + apply list_elem_of_fmap. exists folder. split; [done|].
      apply elem_of_folders. by exists c.
Qed.

(** What [resolveEncodedProjectNames] makes of the tables when the ids
    of the sessions are distinct. *)
Lemma resolveEncodedProjectNames_tables (db : DB) :
  NoDup (r_id <$> conversations db) →
  conversations (resolveEncodedProjectNames db).1.1
    = resolved_row (conversations db) <$> conversations db
  ∧ conversation_fts (resolveEncodedProjectNames db).1.1
    = resolved_fts (conversations db) <$> conversation_fts db
  ∧ tool_usage (resolveEncodedProjectNames db).1.1 = tool_usage db
  ∧ file_index (resolveEncodedProjectNames db).1.1 = file_index db.
Proof.
  intros Hnd. unfold resolveEncodedProjectNames, folderData.
  rewrite resolve_folder_fold, folderData_spec. simpl.
  set (ss := steps _).
  destruct (steps_fold db ss Hnd) as (Ec & Ef & Et & Ei & _).
  { intros [n c] Hs. by apply elem_of_steps in Hs. }
  rewrite Ec, Ef, Et, Ei. split; [|split; [|done]].
  - apply list_fmap_ext. intros i r Hr. apply list_elem_of_lookup_2 in Hr.
    case_bool_decide as Hin; [done|].
    unfold resolved_row.
    destruct (folder_of r ≫= _) as [n|] eqn:En; [|done].
    exfalso. apply Hin. apply list_elem_of_fmap. exists (n, r). split; [done|].
    by apply elem_of_steps.
  - apply list_fmap_ext. intros i f Hf.
    case_bool_decide as Hin; [done|].
    unfold resolved_fts.
    destruct (head _) as [r|] eqn:Eh; [|done].
    destruct (folder_of r ≫= _) as [n|] eqn:En; [|done].
    exfalso. apply Hin.
    assert (Hr : r ∈ filter (λ r, r_id r = f_conversation_id f) (conversations db)).
    { destruct (filter _ _) as [|r' l]; simplify_eq/=. left. }
    apply list_elem_of_filter in Hr as [Eid Hr].
    apply list_elem_of_fmap. exists (n, r). split; [done|].
    by apply elem_of_steps.
Qed.

(** *** Every database the store produces has distinct ids and FTS rows
    in step with their sessions *)

Lemma NoDup_ids_filter (P : conversation_row → Prop) `{∀ r, Decision (P r)}
    (rows : list conversation_row) :
  NoDup (r_id <$> rows) → NoDup (r_id <$> filter P rows).
Proof.
  intros Hnd. eapply sublist_NoDup; [exact Hnd|].
  apply fmap_sublist, sublist_filter.
Qed.

Lemma upsertConversation_ok (c : conversation) (text : list N) (now : Z) (db : DB) :
  NoDup (r_id <$> conversations db) → in_sync db →
  NoDup (r_id <$> conversations (upsertConversation c text now db))
  ∧ in_sync (upsertConversation c text now db).
Proof.
  intros Hnd Hsync.
  assert (Hold : ∀ r, r ∈ conversations (upsertConversation c text now db) →
                      r = row_of_conversation c now
                      ∨ (r ∈ conversations db ∧ r_id r ≠ o_id c)).
  { intros r. rewrite upsertConversation_conversations, elem_of_app.
    intros [Hr|Hr]; [right | left; by apply list_elem_of_singleton in Hr].
    apply list_elem_of_filter in Hr as [Hf Hr]. split; [done|].
    apply orb_false_iff in Hf as [Hf _]. by apply bool_decide_eq_false in Hf. }
  split.
  - rewrite upsertConversation_conversations, fmap_app. apply NoDup_app.
    split; [by apply NoDup_ids_filter|]. split; [|apply NoDup_singleton].
    intros x Hx Hx'. apply list_elem_of_singleton in Hx'. subst x.
    apply list_elem_of_fmap in Hx as (r & E & Hr).
    apply list_elem_of_filter in Hr as [Hf _].
    apply orb_false_iff in Hf as [Hf _]. apply bool_decide_eq_false in Hf.
    by destruct Hf.
  - intros f r Hf Hr Hid. rewrite upsertConversation_fts, elem_of_app in Hf.
    destruct Hf as [Hf|Hf].
    + apply list_elem_of_filter in Hf as [Hne Hf].
      destruct (Hold r Hr) as [->|[Hr0 _]]; [by destruct Hne|].
      by apply Hsync.
    + destruct (is_blank text); [by apply not_elem_of_nil in Hf|].
      apply list_elem_of_singleton in Hf. subst f. simpl in Hid.
      destruct (Hold r Hr) as [->|[_ Hne]]; [done | by destruct Hne].
Qed.

Lemma removeConversation_ok (cid : list N) (db : DB) :
  NoDup (r_id <$> conversations db) → in_sync db →
  NoDup (r_id <$> conversations (removeConversation cid db))
  ∧ in_sync (removeConversation cid db).
Proof.
  intros Hnd Hsync. unfold removeConversation, delete_conversation.
  split.
  - rewrite conversations_delete_conversations_where. by apply NoDup_ids_filter.
  - intros f r. rewrite fts_delete_conversations_where,
      conversations_delete_conversations_where. simpl.
    intros Hf Hr. apply list_elem_of_filter in Hf as [_ Hf].
    apply list_elem_of_filter in Hr as [_ Hr]. by apply Hsync.
Qed.

Lemma removeFile_ok (p : list N) (db : DB) :
  NoDup (r_id <$> conversations db) → in_sync db →
  NoDup (r_id <$> conversations (removeFile p db)) ∧ in_sync (removeFile p db).
Proof.
  intros Hnd Hsync. destruct (conversation_at p db) as [conv|] eqn:Hat.
  - destruct (removeFile_tables p db conv Hat) as (Ec & Ef & _).
    unfold in_sync. rewrite Ec, Ef. split.
    + apply NoDup_ids_filter. rewrite <- list_fmap_compose.
      erewrite list_fmap_ext; [exact Hnd|]. intros i r _. apply clear_parent_id.
    + intros f r Hf Hr. apply list_elem_of_filter in Hf as [_ Hf].
      apply list_elem_of_filter in Hr as [_ Hr].
      apply list_elem_of_fmap in Hr as (r0 & -> & Hr0).
      rewrite clear_parent_id. intros Hid. rewrite (Hsync f r0 Hf Hr0 Hid).
      unfold clear_parent. by case_bool_decide.
  - unfold removeFile. rewrite Hat. done.
Qed.

Lemma resolveEncodedProjectNames_ok (db : DB) :
  NoDup (r_id <$> conversations db) → in_sync db →
  NoDup (r_id <$> conversations (resolveEncodedProjectNames db).1.1)
  ∧ in_sync (resolveEncodedProjectNames db).1.1.
Proof.
  intros Hnd Hsync.
  destruct (resolveEncodedProjectNames_tables db Hnd) as (Ec & Ef & _).
  unfold in_sync. rewrite Ec, Ef. split.
  - rewrite <- list_fmap_compose.
    erewrite list_fmap_ext; [exact Hnd|]. intros i r _. apply resolved_row_id.
  - intros f r Hf Hr.
    apply list_elem_of_fmap in Hf as (f0 & -> & Hf0).
    apply list_elem_of_fmap in Hr as (r0 & -> & Hr0).
    rewrite resolved_fts_id, resolved_row_id. intros Hid.
    specialize (Hsync f0 r0 Hf0 Hr0 Hid).
    unfold resolved_fts, resolved_row.
    rewrite Hid, (filter_unique r_id _ r0 Hnd Hr0). simpl.
    destruct (folder_of r0 ≫= _) as [name|]; [|done].
    case_bool_decide as Hp; [done|]. simpl. by rewrite Hsync, Hp.
Qed.

Lemma reachable_ok (db : DB) :
  reachable db → NoDup (r_id <$> conversations db) ∧ in_sync db.
Proof.
  induction 1 as [fk|c text now db _ [IH1 IH2]|cid db _ [IH1 IH2]
                  |p db _ [IH1 IH2]|db _ [IH1 IH2]].
  - split; [constructor|]. intros f r Hf. by apply not_elem_of_nil in Hf.
  - by apply upsertConversation_ok.
  - by apply removeConversation_ok.
  - by apply removeFile_ok.
  - by apply resolveEncodedProjectNames_ok.
Qed.

Lemma resolved_row_folder (rows : list conversation_row) (r : conversation_row) :
  folder_of (resolved_row rows r) = folder_of r.
Proof. unfold resolved_row. by destruct (_ ≫= _). Qed.

Lemma group_resolved (rows l : list conversation_row) (folder : list N) :
  group folder (resolved_row rows <$> l)
  = (λ r, match canonical folder rows with Some n => set_project n r | None => r end)
      <$> group folder l.
Proof.
  unfold group. induction l as [|r l IH]; [done|].
  rewrite fmap_cons, !filter_cons, resolved_row_folder.
  case_decide as Hf; [|done]. rewrite fmap_cons, IH. f_equal.
  unfold resolved_row. by rewrite Hf.
Qed.

(** The resolution by the folders that the code computes.  Let the ids
    of the sessions be distinct and let the FTS rows carry the project
    of their session, as in every database the store produces
    ([reachable_ok]).  For a folder, here the path segment after the
    first segment named [projects], whose sessions have a non-empty
    cwd, let [c] be the first of the shortest of these cwds.  If
    [basename c] is not empty, then after [resolveEncodedProjectNames]
    every session of the folder has [basename c] as project, and so has
    every FTS row of such a session; the sessions are otherwise as they
    were.  If [basename c] is empty the sessions of the folder are left
    as they are.  The tool and file-tracking tables are not touched. *)
Lemma resolve_by_encoded_folder (db : DB) (folder c : list N) :
  NoDup (r_id <$> conversations db) →
  (∀ f r, f ∈ conversation_fts db → r ∈ conversations db →
          f_conversation_id f = r_id r → f_project f = default [] (r_project r)) →
  shortest (group_cwds folder (conversations db)) = Some c →
  (c ∈ group_cwds folder (conversations db)
   ∧ Forall (λ c', (length c ≤ length c')%nat) (group_cwds folder (conversations db)))
  ∧ (basename c ≠ [] →
     group folder (conversations (resolveEncodedProjectNames db).1.1)
       = set_project (basename c) <$> group folder (conversations db)
     ∧ (∀ r, r ∈ conversations (resolveEncodedProjectNames db).1.1 →
             folder_of r = Some folder → r_project r = Some (basename c))
     ∧ (∀ r f, r ∈ conversations (resolveEncodedProjectNames db).1.1 →
               f ∈ conversation_fts (resolveEncodedProjectNames db).1.1 →
               folder_of r = Some folder → f_conversation_id f = r_id r →
               f_project f = basename c))
  ∧ (basename c = [] →
     group folder (conversations (resolveEncodedProjectNames db).1.1)
       = group folder (conversations db))
  ∧ tool_usage (resolveEncodedProjectNames db).1.1 = tool_usage db
  ∧ file_index (resolveEncodedProjectNames db).1.1 = file_index db.
Proof.
  intros Hnd Hsync Hc.
  destruct (resolveEncodedProjectNames_tables db Hnd) as (Ec & Ef & Et & Ei).
  rewrite Ec, Ef, Et, Ei. set (rows := conversations db) in *.
  split; [by apply shortest_min|].
  rewrite group_resolved.
  split; [|split; [|done]].
  - intros Hb.
    assert (Hn : canonical folder rows = Some (basename c)).
    { unfold canonical. rewrite Hc. simpl. by destruct (basename c). }
    split; [by rewrite Hn|]. split.
    + intros r Hr Hf. apply list_elem_of_fmap in Hr as (r0 & -> & Hr0).
      rewrite resolved_row_folder in Hf. unfold resolved_row.
      rewrite Hf. simpl. by rewrite Hn.
    + intros r f Hr Hfts Hf Hid.
      apply list_elem_of_fmap in Hr as (r0 & -> & Hr0).
      apply list_elem_of_fmap in Hfts as (f0 & -> & Hf0).
      rewrite resolved_row_folder in Hf.
      rewrite resolved_row_id, resolved_fts_id in Hid.
      unfold resolved_fts. rewrite Hid, (filter_unique r_id _ r0 Hnd Hr0). simpl.
      rewrite Hf. simpl. rewrite Hn.
      case_bool_decide as Hp; [done|].
      rewrite (Hsync f0 r0 Hf0 Hr0 Hid).
      by rewrite Hp.
  - intros Hb.
    assert (Hn : canonical folder rows = None).
    { unfold canonical. rewrite Hc. simpl. by rewrite Hb. }
    rewrite Hn. apply list_fmap_id.
Qed.

(** ** The FTS query sanitizer *)


















Example project_db_rows :
  (λ r, (r_id r, r_project r)) <$> conversations project_db
  = [(str "conv-from-root", Some (str "my-project"));
     (str "conv-from-subdir", Some (str "components"))].
Proof. vm_compute. reflexivity. Qed.

Example project_db_resolved :
  let db' := (resolveEncodedProjectNames project_db).1.1 in
  r_project <$> conversations db' = [Some (str "my-project"); Some (str "my-project")]
  ∧ f_project <$> conversation_fts db' = [str "my-project"; str "my-project"]
  ∧ (resolveEncodedProjectNames project_db).1.2 = 1
  ∧ (resolveEncodedProjectNames project_db).2 = 1.
Proof. vm_compute. done. Qed.

Example pass_stats :
  (runFullIndex projects_dir [root_file; plain_file] empty_db).2
  = Stats 2 2 0 0 0 None.
Proof. vm_compute. reflexivity. Qed.

Example second_pass_stats :
  (runFullIndex projects_dir [root_file; plain_file]
     (runFullIndex projects_dir [root_file; plain_file] empty_db).1).2
  = Stats 2 0 2 0 0 None.
Proof. vm_compute. reflexivity. Qed.

Example grouping_ex :
  _groupSubagentsUnderParents false (λ _, None) results
  = [with_count 2 false result_parent; result_newer; result_older].
Proof. vm_compute. reflexivity. Qed.

(** C4.  The round trip fails for a file whose modification time is
    the epoch.  [upsertConversation] stores [lastModified || now], so
    the first pass tracks the file with the time of the upsert instead
    of its modification time zero; [needsIndexing] then finds the
    tracked tuple different from the unchanged file's, and the second
    pass indexes the file again: one file indexed, none skipped. *)
Lemma epoch_file_indexed_again :
  fo_stat epoch_file = Some (FileStats 0 80 0)
  ∧ (runFullIndex projects_dir [epoch_file] empty_db).2 = Stats 1 1 0 0 0 None
  ∧ file_index (runFullIndex projects_dir [epoch_file] empty_db).1 !! fo_path epoch_file
    = Some (FileRow 1700000003000 80 1700000003000)
  ∧ needsIndexing (fo_path epoch_file) 0 80
      (runFullIndex projects_dir [epoch_file] empty_db).1 = true
  ∧ (runFullIndex projects_dir [epoch_file]
       (runFullIndex projects_dir [epoch_file] empty_db).1).2 = Stats 1 1 0 0 0 None.
Proof. repeat split; by vm_compute. Qed.

(** ** The properties at the worked inputs *)

(** A parent is removed: its subagent stays, without parent. *)
Lemma removeFile_spec_witness :
  conversation_at (str "/test/parent-to-remove.jsonl") family_db
    = Some (row_of_conversation parent_conv 1000)
  ∧ r_id <$> conversations (removeFile (str "/test/parent-to-remove.jsonl") family_db)
    = [str "subagent-orphan"]
  ∧ ∀ r, r ∈ conversations (removeFile (str "/test/parent-to-remove.jsonl") family_db) →
         r_id r ≠ str "parent-to-remove"
         ∧ r_parent_id r ≠ Some (str "parent-to-remove").
Proof.
  split; [by vm_compute|]. split; [by vm_compute|].
  pose proof (removeFile_spec (str "/test/parent-to-remove.jsonl") family_db) as H.
  replace (conversation_at (str "/test/parent-to-remove.jsonl") family_db)
    with (Some (row_of_conversation parent_conv 1000)) in H by (by vm_compute).
  exact (proj1 (proj2 (proj2 (proj2 (proj2 (proj2 H)))))).
Defined.

(** A tracked file that never became a session. *)
Lemma removeFile_without_session_witness :
  (∀ r, r ∈ conversations tracked_only_db → r_file_path r ≠ str "/test/broken.jsonl")
  ∧ conversations (removeFile (str "/test/broken.jsonl") tracked_only_db)
    = conversations tracked_only_db
  ∧ file_index tracked_only_db !! str "/test/broken.jsonl" = Some (FileRow 1 2 3)
  ∧ file_index (removeFile (str "/test/broken.jsonl") tracked_only_db)
      !! str "/test/broken.jsonl" = None.
Proof.
  assert (H : ∀ r, r ∈ conversations tracked_only_db →
                   r_file_path r ≠ str "/test/broken.jsonl").
  { apply conversation_at_None. by vm_compute. }
  split; [exact H|].
  pose proof (removeFile_without_session _ _ H) as (Hc & _ & _ & _ & Hi).
  split; [exact Hc|]. split; [by vm_compute | exact Hi].
Defined.

(** A session is upserted again with blank text. *)
Lemma upsertConversation_fts_rows_witness :
  Forall (λ ch, is_space ch = true) (str "  ")
  ∧ filter (λ f, f_conversation_id f = o_id from_root)
      (conversation_fts (upsertConversation from_root (str "  ") 3000 project_db)) = [].
Proof.
  assert (H : Forall (λ ch, is_space ch = true) (str "  ")) by (by repeat constructor).
  split; [exact H|].
  exact (proj1 (proj1 (proj2 (upsertConversation_fts_rows from_root (str "  ") 3000 project_db)) H)).
Defined.

(** Two passes over one unchanged file. *)
Lemma unchanged_file_is_skipped_witness :
  fo_stat root_file = Some (FileStats 1700000000000 120 1690000000000)
  ∧ filesSkipped (runFullIndex projects_dir [root_file]
                    (runFullIndex projects_dir [root_file] empty_db).1).2 = 1
  ∧ filesIndexed (runFullIndex projects_dir [root_file]
                    (runFullIndex projects_dir [root_file] empty_db).1).2 = 0.
Proof.
  split; [reflexivity|].
  apply (proj2 (proj2 (unchanged_file_is_skipped projects_dir root_file _ empty_db eq_refl))).
  - by eexists.
  - by vm_compute.
Defined.


(** A log with an invalid line, a blank line and one assistant line. *)
Lemma parser_token_totals_witness :
  token_weight
    [Invalid; user_line None "question"; Blank; assistant_line "answer" (Some 7) None]
  ≤ max_exact
  ∧ tu_input (tokenUsage (_parseJsonlStreaming
      [Invalid; user_line None "question"; Blank; assistant_line "answer" (Some 7) None]))
    = Zsum (input_of <$>
        [Invalid; user_line None "question"; Blank; assistant_line "answer" (Some 7) None])
  ∧ Zsum (input_of <$>
      [Invalid; user_line None "question"; Blank; assistant_line "answer" (Some 7) None])
    = 7.
Proof.
  assert (H : token_weight
                [Invalid; user_line None "question"; Blank;
                 assistant_line "answer" (Some 7) None] ≤ max_exact) by (by vm_compute).
  split; [exact H|].
  split; [exact (proj1 (parser_token_totals _ H)) | reflexivity].
Defined.

(** C6 as stated fails.  One assistant line reports [2^53] input tokens
    and one output token: the parser's total is [2^53], not the sum of
    its input and output counts, and so it is in the stored row.  In a
    log of three assistant lines with the counts [(2^53, 1)],
    [(1, 2^53)] and [(1, 1)] the input and output counts are both
    [2^53], two less than the sums of what the lines report. *)
Lemma token_sums_round :
  (let lines := [assistant_line "a" (Some max_exact) (Some 1)] in
   let row := row_of_conversation
                (conversation_of projects_dir (str "/home/u/.claude/projects/-foo/s1.jsonl")
                   (FileStats 1 2 3) (_parseJsonlStreaming lines)) 4 in
   tokenUsage (_parseJsonlStreaming lines) = TokenUsage max_exact max_exact 1
   ∧ tu_total (tokenUsage (_parseJsonlStreaming lines))
     ≠ tu_input (tokenUsage (_parseJsonlStreaming lines))
       + tu_output (tokenUsage (_parseJsonlStreaming lines))
   ∧ r_tokens_total row ≠ r_tokens_input row + r_tokens_output row)
  ∧ (let lines := [assistant_line "a" (Some max_exact) (Some 1);
                   assistant_line "b" (Some 1) (Some max_exact);
                   assistant_line "c" (Some 1) (Some 1)] in
     tokenUsage (_parseJsonlStreaming lines)
     = TokenUsage (2 * max_exact) max_exact max_exact
     ∧ Zsum (input_of <$> lines) = max_exact + 2
     ∧ Zsum (output_of <$> lines) = max_exact + 2
     ∧ tu_input (tokenUsage (_parseJsonlStreaming lines)) ≠ Zsum (input_of <$> lines)
     ∧ tu_output (tokenUsage (_parseJsonlStreaming lines)) ≠ Zsum (output_of <$> lines)).
Proof. cbv zeta. repeat split; by vm_compute. Qed.

(** A query of three spaces. *)
Lemma searchConversationsWithSnippets_blank_witness :
  Forall (λ c, is_space c = true) (str "   ")
  ∧ searchConversationsWithSnippets ascii_upper failing_fts5 (str "   ") no_options family_db
    = [].
Proof.
  assert (H : Forall (λ c, is_space c = true) (str "   ")) by (by repeat constructor).
  split; [exact H|].
  exact (searchConversationsWithSnippets_blank ascii_upper failing_fts5 _ no_options
           family_db H).
Defined.

(** The same query to the plain search: the listing, without the
    subagent. *)
Lemma searchConversations_blank_witness :
  Forall (λ c, is_space c = true) (str "   ")
  ∧ v_id ∘ sr_conversation
      <$> searchConversations ascii_upper failing_fts5 (str "   ") no_options family_db
    = [str "parent-to-remove"]
  ∧ sr_conversation
      <$> searchConversations ascii_upper failing_fts5 (str "   ") no_options family_db
    = getConversations ascii_upper no_options family_db.
Proof.
  assert (H : Forall (λ c, is_space c = true) (str "   ")) by (by repeat constructor).
  split; [exact H|]. split; [by vm_compute|].
  exact (proj1 (proj2 (searchConversations_blank ascii_upper failing_fts5 _ no_options
                         family_db H))).
Defined.

Lemma project_db_ids : NoDup (r_id <$> conversations project_db).
Proof. apply (bool_decide_unpack _). by vm_compute. Qed.

Lemma project_db_in_sync (f : fts_row) (r : conversation_row) :
  f ∈ conversation_fts project_db → r ∈ conversations project_db →
  f_conversation_id f = r_id r → f_project f = default [] (r_project r).
Proof.
  assert (H : Forall (λ f, Forall (λ r, f_conversation_id f = r_id r →
                f_project f = default [] (r_project r)) (conversations project_db))
                (conversation_fts project_db)).
  { apply (bool_decide_unpack _). by vm_compute. }
  intros Hf Hr. rewrite Forall_forall in H. specialize (H f Hf).
  rewrite Forall_forall in H. exact (H r Hr).
Qed.

(** The results of a search, sorted as [/api/search] sorts them: the
    subagents of the parent come under it in the order they have
    there. *)
Lemma grouping_children_order_witness :
  search_results_sorted results = [result_parent; result_newer; result_older]
  ∧ StronglySorted (λ a b : conv unit, g_lastModified b ≤ g_lastModified a)
      (search_results_sorted results)
  ∧ childSubagents (search_results_sorted results) result_parent
    = filter (λ s, g_parentId s = Some (g_id result_parent))
        (subagents (search_results_sorted results))
  ∧ _groupSubagentsUnderParents false (λ _, None) (search_results_sorted results)
    = [with_count 2 false result_parent; result_newer; result_older].
Proof.
  pose proof (@grouping_children_order unit) as (Hgroup & _ & Hsearch).
  split; [by vm_compute|]. split; [apply Hsearch|]. split; [|by vm_compute].
  apply (Hgroup false (λ _, None) _ (Hsearch results)).
Defined.

(** The grouping itself sorts the subagents of a parent: on a result
    set that is not newest first, as the callers above do not hand it, the
    older subagent that came first is emitted after the newer one. *)
Example grouping_sorts_unsorted :
  subagents results = [result_older; result_newer]
  ∧ _groupSubagentsUnderParents false (λ _, None) results
    = [with_count 2 false result_parent; result_newer; result_older].
Proof. by vm_compute. Qed.

(** * Further properties of the store *)

(** ** Upsert, lookup and removal *)

Lemma filter_filter_and {A} (P Q : A → Prop) `{∀ x, Decision (P x)} `{∀ x, Decision (Q x)}
    (l : list A) :
  filter P (filter Q l) = filter (λ x, P x ∧ Q x) l.
Proof.
  induction l as [|x l IH]; [done|].
  rewrite (filter_cons Q), (filter_cons (λ x, P x ∧ Q x)).
  destruct (decide (Q x)) as [HQ|HQ].
  - rewrite filter_cons. destruct (decide (P x)) as [HP|HP].
    + rewrite decide_True by done. by rewrite IH.
    + rewrite decide_False by tauto. done.
  - rewrite decide_False by tauto. done.
Qed.

Lemma upsertConversation_rows_of_id (c : conversation) (text : list N) (now : Z) (db : DB)
    (cid : list N) :
  filter (λ r, r_id r = cid) (conversations (upsertConversation c text now db))
  = if decide (cid = o_id c) then [row_of_conversation c now]
    else filter (λ r, r_id r = cid ∧ r_file_path r ≠ o_filePath c) (conversations db).
Proof.
  rewrite upsertConversation_conversations, filter_app, filter_filter_and.
  rewrite (filter_cons _ (row_of_conversation c now)). simpl.
  destruct (decide (cid = o_id c)) as [->|Hne].
  - rewrite decide_True by done. rewrite filter_none; [done|].
    intros r _ [E H]. rewrite E in H. by rewrite bool_decide_eq_true_2 in H.
  - rewrite decide_False by congruence. rewrite app_nil_r.
    apply list_filter_iff. intros r. rewrite orb_false_iff, !bool_decide_eq_false.
    split; [intros (? & _ & ?); done | intros [E ?]; repeat split; congruence].
Qed.

(** X1.  After [upsertConversation c], [getConversation] of [c]'s id
    answers the record as it was written.  The lookup of any other id
    answers what it answered before, except that a session that held
    [c]'s file path is gone. *)
Theorem upsert_then_getConversation (c : conversation) (text : list N) (now : Z) (db : DB) :
  getConversation (o_id c) (upsertConversation c text now db)
    = Some (_rowToConversation (row_of_conversation c now))
  ∧ ∀ cid, cid ≠ o_id c →
      getConversation cid (upsertConversation c text now db)
      = _rowToConversation
          <$> head (filter (λ r, r_id r = cid ∧ r_file_path r ≠ o_filePath c)
                      (conversations db)).
Proof.
  unfold getConversation. split.
  - rewrite upsertConversation_rows_of_id. by rewrite decide_True.
  - intros cid Hne. rewrite upsertConversation_rows_of_id. by rewrite decide_False.
Qed.

(** X2.  After [upsertConversation c] the file of [c] needs no indexing
    exactly for the modification time and size that were written: the
    given time, or the clock when the given time is zero or absent, and
    the given size.  Other paths need indexing as before. *)
Theorem upsert_then_needsIndexing (c : conversation) (text : list N) (now : Z) (db : DB) :
  (∀ m s, needsIndexing (o_filePath c) m s (upsertConversation c text now db) = false
          ↔ m = num_or (default 0 (o_lastModified c)) now ∧ s = o_fileSize c)
  ∧ (∀ m, m ≠ 0 → o_lastModified c = Some m →
          needsIndexing (o_filePath c) m (o_fileSize c)
            (upsertConversation c text now db) = false)
  ∧ (now ≠ 0 → o_lastModified c = Some 0 →
          needsIndexing (o_filePath c) 0 (o_fileSize c)
            (upsertConversation c text now db) = true)
  ∧ (∀ p m s, p ≠ o_filePath c →
          needsIndexing p m s (upsertConversation c text now db)
          = needsIndexing p m s db).
Proof.
  assert (Hiff : ∀ m s,
            needsIndexing (o_filePath c) m s (upsertConversation c text now db) = false
            ↔ m = num_or (default 0 (o_lastModified c)) now ∧ s = o_fileSize c).
  { intros m s. rewrite needsIndexing_false_iff, upsertConversation_file_index.
    rewrite lookup_insert_eq. split.
    - intros (row & E & <- & <-). simplify_eq. simpl. by rewrite num_or_0.
    - intros [-> ->]. eexists. split; [done|]. simpl. by rewrite num_or_0. }
  split; [exact Hiff|]. split; [|split].
  - intros m Hm E. apply Hiff. rewrite E. simpl. unfold num_or.
    destruct (m =? 0) eqn:E0; [apply Z.eqb_eq in E0|]; done.
  - intros Hnow E. apply not_false_iff_true. rewrite Hiff, E. simpl.
    unfold num_or. simpl. intros [? _]. congruence.
  - intros p m s Hp. unfold needsIndexing.
    by rewrite upsertConversation_file_index, lookup_insert_ne.
Qed.

Lemma conversation_at_upsert (c : conversation) (text : list N) (now : Z) (db : DB) :
  conversation_at (o_filePath c) (upsertConversation c text now db)
  = Some (row_of_conversation c now).
Proof.
  unfold conversation_at.
  rewrite upsertConversation_conversations, filter_app, filter_none.
  - by rewrite filter_cons_True.
  - intros r Hr E. apply list_elem_of_filter in Hr as [Hf _].
    apply orb_false_iff in Hf as [_ Hf]. by apply bool_decide_eq_false in Hf.
Qed.

Lemma tools_fold_elem (cid : list N) (entries : list (list N * Z)) (db : DB) (t : tool_row) :
  t ∈ tool_usage (foldl (λ db e, insert_or_replace_tool (ToolRow cid e.1 e.2) db) db entries) →
  t ∈ tool_usage db ∨ (t_conversation_id t = cid ∧ (t_tool_name t, t_call_count t) ∈ entries).
Proof.
  revert db. induction entries as [|e es IH]; intros db; simpl; [auto|].
  intros Ht. apply IH in Ht as [Ht|[? ?]]; [|right; split; [done | by right]].
  unfold insert_or_replace_tool in Ht. simpl in Ht.
  apply elem_of_app in Ht as [Ht|Ht].
  - left. by apply list_elem_of_filter in Ht as [_ ?].
  - apply list_elem_of_singleton in Ht. subst t. right. split; [done|].
    destruct e. left.
Qed.

(** X3.  Indexing a file and then removing it leaves no trace of it:
    no session of its id or at its path, no FTS row and no tool row of
    its id that the database did not already hold for another reason,
    and the path needs indexing again whatever its time and size. *)
Theorem upsert_then_removeFile (c : conversation) (text : list N) (now : Z) (db : DB) :
  getConversation (o_id c) (removeFile (o_filePath c) (upsertConversation c text now db))
    = None
  ∧ conversation_at (o_filePath c)
      (removeFile (o_filePath c) (upsertConversation c text now db)) = None
  ∧ filter (λ f, f_conversation_id f = o_id c)
      (conversation_fts (removeFile (o_filePath c) (upsertConversation c text now db))) = []
  ∧ filter (λ t, t_conversation_id t = o_id c)
      (tool_usage (removeFile (o_filePath c) (upsertConversation c text now db))) = []
  ∧ ∀ m s, needsIndexing (o_filePath c) m s
             (removeFile (o_filePath c) (upsertConversation c text now db)) = true.
Proof.
  destruct (removeFile_tables _ _ _ (conversation_at_upsert c text now db))
    as (Ec & Ef & Et).
  change (r_id (row_of_conversation c now)) with (o_id c) in Ec, Ef, Et.
  split; [|split; [|split; [|split]]].
  - unfold getConversation. rewrite Ec. rewrite filter_none; [done|].
    intros r Hr E. by apply list_elem_of_filter in Hr as [? _].
  - apply conversation_at_None. intros r. rewrite Ec. intros Hr Hp.
    apply list_elem_of_filter in Hr as [Hid Hr].
    apply list_elem_of_fmap in Hr as (r0 & -> & Hr0). rewrite clear_parent_id in Hid.
    assert (r_file_path (clear_parent (o_id c) r0) = r_file_path r0) as E
      by (unfold clear_parent; by case_bool_decide).
    rewrite E in Hp. rewrite upsertConversation_conversations in Hr0.
    apply elem_of_app in Hr0 as [Hr0|Hr0].
    + apply list_elem_of_filter in Hr0 as [Hf _].
      apply orb_false_iff in Hf as [_ Hf]. by apply bool_decide_eq_false in Hf.
    + apply list_elem_of_singleton in Hr0. by subst r0.
  - rewrite Ef. apply (filter_eq_of_filter_ne f_conversation_id).
  - rewrite Et. apply (filter_eq_of_filter_ne t_conversation_id).
  - intros m s. unfold needsIndexing.
    by rewrite removeFile_file_index, lookup_delete_eq.
Qed.

(** X4.  When no two sessions share a file path, removing a file a
    second time changes nothing. *)
Theorem removeFile_twice (p : list N) (db : DB) :
  NoDup (r_file_path <$> conversations db) →
  removeFile p (removeFile p db) = removeFile p db.
Proof.
  intros Hnd.
  assert (Hat : conversation_at p (removeFile p db) = None).
  { apply conversation_at_None. intros r Hr Hp.
    destruct (conversation_at p db) as [conv|] eqn:Hc.
    - destruct (removeFile_tables p db conv Hc) as (Ec & _ & _). rewrite Ec in Hr.
      apply list_elem_of_filter in Hr as [Hid Hr].
      apply list_elem_of_fmap in Hr as (r0 & -> & Hr0). rewrite clear_parent_id in Hid.
      assert (r_file_path (clear_parent (r_id conv) r0) = r_file_path r0) as E
        by (unfold clear_parent; by case_bool_decide).
      rewrite E in Hp. unfold conversation_at in Hc.
      rewrite <- Hp, (filter_unique r_file_path _ r0 Hnd Hr0) in Hc. simpl in Hc.
      by simplify_eq.
    - assert (Hr' : r ∈ conversations db).
      { revert Hr. unfold removeFile. by rewrite Hc. }
      by apply (proj1 (conversation_at_None p db) Hc r). }
  unfold removeFile at 1. rewrite Hat. unfold delete_file, set_file_index.
  rewrite removeFile_file_index, delete_delete_eq.
  rewrite <- (removeFile_file_index p db). by destruct (removeFile p db).
Qed.

(** ** What holds in every database the store produces *)

Lemma NoDup_fmap_filter {A B} (f : A → B) (P : A → Prop) `{∀ x, Decision (P x)}
    (l : list A) :
  NoDup (f <$> l) → NoDup (f <$> filter P l).
Proof.
  intros Hnd. eapply sublist_NoDup; [exact Hnd|].
  apply fmap_sublist, sublist_filter.
Qed.

Lemma length_filter_filter_le {A} (P Q : A → Prop) `{∀ x, Decision (P x)}
    `{∀ x, Decision (Q x)} (l : list A) :
  (length (filter P (filter Q l)) ≤ length (filter P l))%nat.
Proof.
  rewrite filter_filter_and. induction l as [|x l IH]; [done|].
  rewrite !filter_cons. repeat case_decide; simpl; try lia; tauto.
Qed.

Lemma length_filter_fmap_same {A} `{EqDecision B} (key : A → B) (g : A → A) (b : B)
    (l : list A) :
  (∀ x, key (g x) = key x) →
  length (filter (λ x, key x = b) (g <$> l)) = length (filter (λ x, key x = b) l).
Proof.
  intros Hg. induction l as [|x l IH]; [done|].
  rewrite fmap_cons, !filter_cons, Hg. case_decide; simpl; by rewrite IH.
Qed.

Lemma clear_parent_fields (cid : list N) (r : conversation_row) :
  r_file_path (clear_parent cid r) = r_file_path r
  ∧ r_last_modified (clear_parent cid r) = r_last_modified r
  ∧ r_file_size (clear_parent cid r) = r_file_size r.
Proof. unfold clear_parent. by case_bool_decide. Qed.

Lemma resolved_row_fields (rows : list conversation_row) (r : conversation_row) :
  r_file_path (resolved_row rows r) = r_file_path r
  ∧ r_last_modified (resolved_row rows r) = r_last_modified r
  ∧ r_file_size (resolved_row rows r) = r_file_size r
  ∧ r_cwd (resolved_row rows r) = r_cwd r.
Proof. unfold resolved_row. by destruct (_ ≫= _). Qed.

Lemma reachable_more (db : DB) :
  reachable db →
  NoDup (r_file_path <$> conversations db)
  ∧ (∀ cid, (length (filter (λ f, f_conversation_id f = cid) (conversation_fts db)) ≤ 1)%nat)
  ∧ tracked db.
Proof.
  induction 1 as [fk|c text now db Hre (IHp & IHf & IHt)|cid db Hre (IHp & IHf & IHt)
                  |p db Hre (IHp & IHf & IHt)|db Hre (IHp & IHf & IHt)].
  - split; [constructor|]. split; [intros cid; simpl; lia|].
    intros r Hr. by apply not_elem_of_nil in Hr.
  - split; [|split].
    + rewrite upsertConversation_conversations, fmap_app. apply NoDup_app.
      split; [by apply NoDup_fmap_filter|]. split; [|apply NoDup_singleton].
      intros x Hx Hx'. apply list_elem_of_singleton in Hx'. subst x.
      apply list_elem_of_fmap in Hx as (r & E & Hr).
      apply list_elem_of_filter in Hr as [Hf _].
      apply orb_false_iff in Hf as [_ Hf]. apply bool_decide_eq_false in Hf.
      by destruct Hf.
    + intros cid. rewrite upsertConversation_fts, filter_app, length_app.
      destruct (decide (cid = o_id c)) as [->|Hne].
      * rewrite (filter_eq_of_filter_ne f_conversation_id). simpl.
        destruct (is_blank text); [simpl; lia|].
        rewrite filter_cons. case_decide; simpl; lia.
      * pose proof (length_filter_filter_le (λ f, f_conversation_id f = cid)
                      (λ f, f_conversation_id f ≠ o_id c) (conversation_fts db)).
        specialize (IHf cid).
        destruct (is_blank text); [simpl; lia|].
        rewrite filter_cons_False by (simpl; congruence). simpl. lia.
    + intros r. rewrite upsertConversation_conversations, upsertConversation_file_index.
      intros Hr. apply elem_of_app in Hr as [Hr|Hr].
      * apply list_elem_of_filter in Hr as [Hf Hr].
        apply orb_false_iff in Hf as [_ Hf]. apply bool_decide_eq_false in Hf.
        rewrite lookup_insert_ne by done. by apply IHt.
      * apply list_elem_of_singleton in Hr. subst r. simpl.
        rewrite lookup_insert_eq. by eexists.
  - unfold removeConversation, delete_conversation. split; [|split].
    + rewrite conversations_delete_conversations_where. by apply NoDup_fmap_filter.
    + intros cid'. rewrite fts_delete_conversations_where. simpl.
      pose proof (length_filter_filter_le (λ f, f_conversation_id f = cid')
                    (λ f, f_conversation_id f ≠ cid) (conversation_fts db)).
      specialize (IHf cid'). lia.
    + intros r. rewrite conversations_delete_conversations_where,
        file_index_delete_conversations_where. simpl.
      intros Hr. apply list_elem_of_filter in Hr as [_ Hr]. by apply IHt.
  - destruct (conversation_at p db) as [conv|] eqn:Hat.
    + destruct (removeFile_tables p db conv Hat) as (Ec & Ef & _).
      unfold tracked. rewrite Ec, Ef, removeFile_file_index.
      split; [|split].
      * apply NoDup_fmap_filter. rewrite <- list_fmap_compose.
        erewrite list_fmap_ext; [exact IHp|]. intros i r _. simpl.
        apply clear_parent_fields.
      * intros cid.
        pose proof (length_filter_filter_le (λ f, f_conversation_id f = cid)
                      (λ f, f_conversation_id f ≠ r_id conv) (conversation_fts db)).
        specialize (IHf cid). lia.
      * intros r Hr. apply list_elem_of_filter in Hr as [Hid Hr].
        apply list_elem_of_fmap in Hr as (r0 & -> & Hr0).
        rewrite clear_parent_id in Hid.
        destruct (clear_parent_fields (r_id conv) r0) as (-> & -> & ->).
        rewrite lookup_delete_ne; [by apply IHt|].
        intros Hp. unfold conversation_at in Hat.
        rewrite Hp, (filter_unique r_file_path _ r0 IHp Hr0) in Hat. simpl in Hat.
        by simplify_eq.
    + unfold tracked, removeFile. rewrite Hat. simpl.
      split; [done|]. split; [done|]. intros r Hr.
      rewrite lookup_delete_ne; [by apply IHt|].
      intros Hp. by apply (proj1 (conversation_at_None p db) Hat r).
  - destruct (reachable_ok db Hre) as [Hnd _].
    destruct (resolveEncodedProjectNames_tables db Hnd) as (Ec & Ef & _ & Ei).
    unfold tracked. rewrite Ec, Ef, Ei. split; [|split].
    + rewrite <- list_fmap_compose.
      erewrite list_fmap_ext; [exact IHp|]. intros i r _. simpl.
      apply resolved_row_fields.
    + intros cid. rewrite (length_filter_fmap_same f_conversation_id); [apply IHf|].
      intros f. apply resolved_fts_id.
    + intros r Hr. apply list_elem_of_fmap in Hr as (r0 & -> & Hr0).
      destruct (resolved_row_fields (conversations db) r0) as (-> & -> & -> & _).
      by apply IHt.
Qed.

(** X5.  In every database that upserts, removals and resolutions make
    of an empty one, session ids are distinct, file paths are distinct,
    a session id has at most one FTS row, and the FTS row of a session
    carries the session's project. *)
Theorem reachable_keys (db : DB) :
  reachable db →
  NoDup (r_id <$> conversations db)
  ∧ NoDup (r_file_path <$> conversations db)
  ∧ (∀ cid, (length (filter (λ f, f_conversation_id f = cid) (conversation_fts db)) ≤ 1)%nat)
  ∧ in_sync db.
Proof.
  intros H. destruct (reachable_ok db H) as [? ?].
  destruct (reachable_more db H) as (? & ? & _). done.
Qed.

(** X6.  In every such database each session's file has a tracking
    row, and that row holds the session's [last_modified] and
    [file_size]; so a session is never left without the tuple that
    decides on its re-indexing. *)
Theorem reachable_tracked (db : DB) :
  reachable db →
  ∀ r, r ∈ conversations db →
    ∃ row, file_index db !! r_file_path r = Some row
           ∧ fi_mtime row = r_last_modified r ∧ fi_size row = r_file_size r.
Proof. intros H. by destruct (reachable_more db H) as (_ & _ & ?). Qed.

Lemma project_db_reachable : reachable project_db.
Proof. repeat constructor. Qed.

(** The two sessions of the folder are tracked. *)
Lemma reachable_keys_witness :
  reachable project_db
  ∧ NoDup (r_file_path <$> conversations project_db).
Proof.
  split; [exact project_db_reachable|].
  exact (proj1 (proj2 (reachable_keys project_db project_db_reachable))).
Defined.

Lemma reachable_tracked_witness :
  reachable project_db
  ∧ needsIndexing (o_filePath from_root) 1700000000000 2048 project_db = false.
Proof.
  split; [exact project_db_reachable|].
  apply needsIndexing_false_iff.
  assert (Hin : row_of_conversation from_root 1000 ∈ conversations project_db).
  { apply list_elem_of_In. vm_compute. by left. }
  exact (reachable_tracked project_db project_db_reachable _ Hin).
Defined.

(** ** The listing *)

Lemma object_key_row (sortBy : list N) (r : conversation_row) :
  object_key sortBy (_rowToConversation r) = safeSort sortBy r.
Proof.
  unfold object_key, safeSort, object_sorts, allowedSorts.
  rewrite !filter_cons. simpl. repeat case_decide; done.
Qed.

Lemma sort_by_key_sorted {A} (key : A → Z) (asc : bool) (l : list A) :
  StronglySorted (λ a b, if asc then key a ≤ key b else key b ≤ key a)
    (sort (λ a b, if asc then key a - key b else key b - key a) l).
Proof.
  destruct asc.
  - apply sort_sorted.
  - rewrite (sort_ext _ (λ a b, - key a - - key b)) by (intros; lia).
    eapply StronglySorted_impl; [|apply (sort_sorted (λ x, - key x))].
    simpl. intros; lia.
Qed.

Lemma Forall_limit_offset {A} (P : A → Prop) (lim off : Z) (l : list A) :
  Forall P l → Forall P (limit_offset lim off l).
Proof.
  intros H. unfold limit_offset.
  destruct (lim <? 0); [|apply Forall_take]; by apply Forall_drop.
Qed.

Lemma Forall_sort {A} (P : A → Prop) (cmp : A → A → Z) (l : list A) :
  Forall P l → Forall P (sort cmp l).
Proof. intros H. by rewrite sort_Permutation. Qed.

(** X7.  Every conversation that [getConversations] answers is a
    session of the store; unless subagents are asked for it is no
    subagent; under a project filter it has that project; and for a
    limit that is not negative there are at most that many. *)
Theorem getConversations_rows (toUpperCase : list N → list N) (o : options) (db : DB) :
  Forall (λ v, ∃ r, r ∈ conversations db ∧ v = _rowToConversation r
                    ∧ (default false (includeSubagents o) = false →
                         not_subagent r = true ∧ v_isSubagent v = false)
                    ∧ (∀ p, or_null (opt_project o) = Some p → v_project v = Some p))
    (getConversations toUpperCase o db)
  ∧ (0 ≤ default 100 (limit o) →
       (length (getConversations toUpperCase o db) ≤ Z.to_nat (default 100%Z (limit o)))%nat).
Proof.
  split.
  - unfold getConversations. apply Forall_fmap, Forall_limit_offset, Forall_sort.
    apply Forall_forall. intros r Hr. simpl. exists r.
    assert (Hsub : default false (includeSubagents o) = false → not_subagent r = true).
    { intros E. rewrite E in Hr.
      destruct (or_null (opt_project o)); [apply list_elem_of_filter in Hr as [_ Hr]|];
        by apply list_elem_of_filter in Hr as [? _]. }
    assert (Hin : r ∈ conversations db).
    { destruct (or_null (opt_project o)); [apply list_elem_of_filter in Hr as [_ Hr]|];
        (destruct (default false (includeSubagents o));
           [done | by apply list_elem_of_filter in Hr as [_ ?]]). }
    split; [done|]. split; [done|]. split.
    + intros E. split; [auto|]. specialize (Hsub E). unfold not_subagent in Hsub.
      apply bool_decide_eq_false. intros E1. rewrite E1 in Hsub. done.
    + intros p Ep. rewrite Ep in Hr. by apply list_elem_of_filter in Hr as [? _].
  - intros Hl. unfold getConversations. rewrite length_fmap.
    by apply limit_offset_length.
Qed.

(** X8.  The listing is in the order of the chosen column, ascending
    when the order option is ASC in any case and descending otherwise;
    a column name outside the five allowed ones sorts by
    [last_modified]. *)
Theorem getConversations_order (toUpperCase : list N → list N) (o : options) (db : DB) :
  StronglySorted
    (λ a b, if bool_decide (toUpperCase (default (str "DESC") (sortOrder o)) = str "ASC")
            then object_key (default (str "last_modified") (sortBy o)) a
                 ≤ object_key (default (str "last_modified") (sortBy o)) b
            else object_key (default (str "last_modified") (sortBy o)) b
                 ≤ object_key (default (str "last_modified") (sortBy o)) a)
    (getConversations toUpperCase o db)
  ∧ ∀ name, name ∉ allowedSorts.*1 → object_key name = v_lastModified.
Proof.
  split.
  - unfold getConversations. cbv zeta.
    set (asc := bool_decide _). set (name := default _ (sortBy o)).
    match goal with |- context [sort _ ?l] => generalize l end. intros rows.
    eapply StronglySorted_fmap; [|apply limit_offset_sorted, (sort_by_key_sorted _ asc)].
    intros x y. simpl. rewrite !object_key_row. done.
  - intros name Hn. unfold object_key. rewrite filter_none; [done|].
    intros e He E. apply Hn. rewrite <- E.
    apply list_elem_of_fmap. exists (e.1, safeSort e.1). split; [done|].
    unfold object_sorts in He. unfold allowedSorts.
    repeat (apply elem_of_cons in He as [->|He]; [set_solver|]).
    by apply not_elem_of_nil in He.
Qed.

Lemma take_app_drop {A} (n m : nat) (l : list A) :
  take n l ++ take m (drop n l) = take (n + m) l.
Proof.
  revert l. induction n as [|n IH]; intros l; [done|].
  destruct l as [|x l]; simpl; [by rewrite take_nil|]. by rewrite IH.
Qed.

Lemma limit_offset_pages {A} (n m off : Z) (l : list A) :
  0 ≤ n → 0 ≤ m → 0 ≤ off →
  limit_offset n off l ++ limit_offset m (off + n) l = limit_offset (n + m) off l.
Proof.
  intros Hn Hm Ho. unfold limit_offset.
  destruct (Z.ltb_spec n 0), (Z.ltb_spec m 0), (Z.ltb_spec (n + m) 0); try lia.
  rewrite Z2Nat.inj_add, <- drop_drop by lia.
  rewrite Z2Nat.inj_add by lia. apply take_app_drop.
Qed.

(** X9.  Pages join: with limits and offset that are not negative, the
    page of [n] sessions at offset [off] followed by the page of [m]
    sessions at offset [off + n] is the page of [n + m] sessions at
    offset [off], the other options being the same. *)
Theorem getConversations_pages (toUpperCase : list N → list N) (n m off : Z)
    (by_ order project : option (list N)) (subagents : option bool) (db : DB) :
  0 ≤ n → 0 ≤ m → 0 ≤ off →
  getConversations toUpperCase (Options (Some n) (Some off) by_ order project subagents) db
  ++ getConversations toUpperCase
       (Options (Some m) (Some (off + n)) by_ order project subagents) db
  = getConversations toUpperCase
      (Options (Some (n + m)) (Some off) by_ order project subagents) db.
Proof.
  intros Hn Hm Ho. unfold getConversations. simpl.
  rewrite <- fmap_app. f_equal. by apply limit_offset_pages.
Qed.

(** Two pages of one session each over three sessions. *)
Lemma getConversations_pages_witness :
  0 ≤ 1 ∧ 0 ≤ 0
  ∧ v_id <$> getConversations ascii_upper
               (Options (Some 2) (Some 0) None None None (Some true)) family_db
    = [str "parent-to-remove"; str "subagent-orphan"]
  ∧ getConversations ascii_upper (Options (Some 1) (Some 0) None None None (Some true)) family_db
    ++ getConversations ascii_upper
         (Options (Some 1) (Some (0 + 1)) None None None (Some true)) family_db
    = getConversations ascii_upper
        (Options (Some (1 + 1)) (Some 0) None None None (Some true)) family_db.
Proof.
  split; [lia|]. split; [lia|]. split; [by vm_compute|].
  apply (getConversations_pages ascii_upper 1 1 0); lia.
Defined.

(** ** The ranked search *)

Lemma is_blank_false (s : list N) :
  ¬ Forall (λ c, is_space c = true) s → is_blank s = false.
Proof.
  intros H. destruct (is_blank s) eqn:E; [|done]. by apply is_blank_spec in E.
Qed.

(** X10.  For a query that is not blank the search with snippets never
    fails.  When the FTS engine fails on the sanitized query, the answer
    is the plain listing, without score, snippet or search term.  When
    the engine answers, every result has a score and a snippet, carries
    the query as it was typed as search term, shows a session of the
    store whose id is that of an engine hit, and is no subagent unless
    subagents are asked for; for a limit that is not negative there are
    at most that many results, fifty when no limit is given. *)
Theorem searchConversationsWithSnippets_ranked {score : Type}
    (toUpperCase : list N → list N)
    (fts5 : list fts_row → list N → option (list (fts_row * score * list N)))
    (query : list N) (o : options) (db : DB) :
  ¬ Forall (λ c, is_space c = true) query →
  match fts5 (conversation_fts db) (_escapeFtsQuery query) with
  | None =>
      searchConversationsWithSnippets toUpperCase fts5 query o db
      = (λ c, SearchResult c None None None) <$> getConversations toUpperCase o db
  | Some hits =>
      Forall (λ s, sr_searchTerm s = Some query
                   ∧ is_Some (sr_relevance s) ∧ is_Some (sr_snippet s)
                   ∧ ∃ h r, h ∈ hits ∧ r ∈ conversations db
                            ∧ r_id r = f_conversation_id h.1.1
                            ∧ sr_conversation s = _rowToConversation r
                            ∧ sr_relevance s = Some h.1.2
                            ∧ sr_snippet s = Some h.2
                            ∧ (default false (includeSubagents o) = false →
                                 not_subagent r = true))
        (searchConversationsWithSnippets toUpperCase fts5 query o db)
      ∧ (0 ≤ default 50 (limit o) →
           (length (searchConversationsWithSnippets toUpperCase fts5 query o db)
            ≤ Z.to_nat (default 50%Z (limit o)))%nat)
  end.
Proof.
  intros Hq. apply is_blank_false in Hq.
  unfold searchConversationsWithSnippets, searchConversations, ranked, listing.
  rewrite Hq. destruct (fts5 _ _) as [hits|]; simpl; [|done].
  split.
  - apply Forall_fmap, Forall_limit_offset.
    assert (Hj : Forall (λ j : conversation_row * score * list N,
                   ∃ h, h ∈ hits ∧ j.1.1 ∈ conversations db
                        ∧ r_id j.1.1 = f_conversation_id h.1.1
                        ∧ j.1.2 = h.1.2 ∧ j.2 = h.2)
                 (hits ≫= λ h, (λ c, (c, h.1.2, h.2))
                    <$> filter (λ c, r_id c = f_conversation_id h.1.1) (conversations db))).
    { apply Forall_forall. intros j Hj. apply list_elem_of_bind in Hj as (h & Hj & Hh).
      apply list_elem_of_fmap in Hj as (c & -> & Hc).
      apply list_elem_of_filter in Hc as [Hid Hc]. by exists h. }
    destruct (default false (includeSubagents o)) eqn:Ei.
    + eapply Forall_impl; [exact Hj|]. intros j (h & ? & ? & ? & ? & ?). simpl.
      split; [done|]. split; [done|]. split; [done|].
      exists h, j.1.1. repeat split; try done; congruence.
    + apply Forall_forall. intros j Hin. apply list_elem_of_filter in Hin as [Hs Hin].
      rewrite Forall_forall in Hj. destruct (Hj j Hin) as (h & ? & ? & ? & ? & ?). simpl.
      split; [done|]. split; [done|]. split; [done|].
      exists h, j.1.1. repeat split; try done; congruence.
  - intros Hl. rewrite length_fmap. by apply limit_offset_length.
Qed.

(** A query for one word, with an engine that answers every row. *)
Lemma searchConversationsWithSnippets_ranked_witness :
  ¬ Forall (λ c, is_space c = true) (str "child")
  ∧ v_id ∘ sr_conversation
      <$> searchConversationsWithSnippets ascii_upper every_row_fts5 (str "child")
            no_options family_db
    = [str "parent-to-remove"]
  ∧ Forall (λ s, sr_searchTerm s = Some (str "child"))
      (searchConversationsWithSnippets ascii_upper every_row_fts5 (str "child")
         no_options family_db).
Proof.
  assert (H : ¬ Forall (λ c, is_space c = true) (str "child")).
  { intros H. apply is_blank_spec in H. by vm_compute in H. }
  split; [exact H|]. split; [by vm_compute|].
  pose proof (searchConversationsWithSnippets_ranked ascii_upper every_row_fts5
                (str "child") no_options family_db H) as Hr.
  simpl in Hr. destruct Hr as [Hr _].
  eapply Forall_impl; [exact Hr|]. by intros s [? _].
Defined.

(** Removing the file of the parent session twice. *)
Lemma removeFile_twice_witness :
  NoDup (r_file_path <$> conversations family_db)
  ∧ removeFile (str "/test/parent-to-remove.jsonl") (removeFile (str "/test/parent-to-remove.jsonl") family_db)
    = removeFile (str "/test/parent-to-remove.jsonl") family_db.
Proof.
  assert (H : NoDup (r_file_path <$> conversations family_db)).
  { apply (bool_decide_unpack _). by vm_compute. }
  split; [exact H|]. by apply removeFile_twice.
Defined.

(** * Further properties of the parser *)

Lemma on_line_fields (st : parse_state) (l : line) :
  ps_messageCount (on_line st l)
  = ps_messageCount st + Z.of_nat (length (option_list (counted l)))
  ∧ ps_toolTotal (on_line st l)
    = ps_toolTotal st + Z.of_nat (length (option_list (counted l) ≫= tool_calls))
  ∧ ps_tools (on_line st l)
    = foldl (λ t n, bump n t) (ps_tools st) (option_list (counted l) ≫= tool_calls)
  ∧ ps_modelCounts (on_line st l)
    = foldl (λ t n, bump n t) (ps_modelCounts st)
        (omap model_of (option_list (counted l)))
  ∧ ps_contentParts (on_line st l)
    = ps_contentParts st ++ omap text_part (option_list (counted l)).
Proof.
  destruct l as [| |it]; simpl; rewrite ?app_nil_r, ?Z.add_0_r; [done..|].
  destruct it as [ty cw [msg|]]; unfold is_message_line; simpl;
    rewrite ?app_nil_r, ?Z.add_0_r; [|done].
  destruct (bool_decide (ty = Some (str "assistant")) || bool_decide (ty = Some (str "user")))
    eqn:E; simpl; rewrite ?app_nil_r, ?Z.add_0_r; [|done].
  unfold tool_calls, model_of, text_part. simpl.
  repeat split.
  - by destruct (or_null (m_model msg)).
  - destruct (truthy _); [done|]. by rewrite app_nil_r.
Qed.

Lemma omap_cons_option_list {A B} (f : A → option B) (x : A) (l : list A) :
  omap f (x :: l) = option_list (f x) ++ omap f l.
Proof. simpl. by destruct (f x). Qed.

Lemma parse_fold_fields (st : parse_state) (lines : list line) :
  let st' := foldl on_line st lines in
  ps_messageCount st' = ps_messageCount st + Z.of_nat (length (counted_messages lines))
  ∧ ps_toolTotal st' = ps_toolTotal st + Z.of_nat (length (called_tools lines))
  ∧ ps_tools st' = foldl (λ t n, bump n t) (ps_tools st) (called_tools lines)
  ∧ ps_modelCounts st'
    = foldl (λ t n, bump n t) (ps_modelCounts st) (named_models lines)
  ∧ ps_contentParts st'
    = ps_contentParts st ++ omap text_part (counted_messages lines).
Proof.
  unfold called_tools, named_models, counted_messages.
  revert st. induction lines as [|l lines IH]; intros st.
  { simpl. rewrite app_nil_r. repeat split; try done; lia. }
  cbn zeta in *. change (foldl on_line st (l :: lines))
    with (foldl on_line (on_line st l) lines).
  destruct (IH (on_line st l)) as (-> & -> & -> & -> & ->).
  destruct (on_line_fields st l) as (-> & -> & -> & -> & ->).
  rewrite omap_cons_option_list, bind_app, !omap_app, !length_app, !foldl_app, <-!app_assoc.
  repeat split; try done; lia.
Qed.

(** ** What the parser counts *)

(** X11.  The parser's message count is the number of lines that are
    objects with a message and type [user] or [assistant]; blank lines,
    lines that are not JSON and objects of another kind add nothing.  Its
    tool total is the number of tool-use blocks with a name in the
    content of the counted messages of type [assistant]. *)
Theorem parser_message_count (lines : list line) :
  messageCount (_parseJsonlStreaming lines)
  = Z.of_nat (length (counted_messages lines))
  ∧ toolTotal (_parseJsonlStreaming lines) = Z.of_nat (length (called_tools lines))
  ∧ (length (counted_messages lines) ≤ length lines)%nat
  ∧ ∀ more,
      Forall (λ l, counted l = None) more →
      messageCount (_parseJsonlStreaming (lines ++ more))
      = messageCount (_parseJsonlStreaming lines)
      ∧ toolTotal (_parseJsonlStreaming (lines ++ more))
        = toolTotal (_parseJsonlStreaming lines).
Proof.
  unfold _parseJsonlStreaming.
  assert (Hc : ∀ ls, messageCount (on_close (foldl on_line initial_state ls))
                     = Z.of_nat (length (counted_messages ls))
                     ∧ toolTotal (on_close (foldl on_line initial_state ls))
                       = Z.of_nat (length (called_tools ls))).
  { intros ls. destruct (parse_fold_fields initial_state ls) as (E1 & E2 & _).
    simpl in *. by rewrite E1, E2. }
  destruct (Hc lines) as [-> ->]. split; [done|]. split; [done|]. split.
  - unfold counted_messages. clear Hc.
    induction lines as [|l lines IH]; [done|].
    rewrite omap_cons_option_list, length_app, length_cons.
    destruct (counted l); simpl; lia.
  - intros more Hm. destruct (Hc (lines ++ more)) as [-> ->].
    assert (E : counted_messages (lines ++ more) = counted_messages lines).
    { unfold counted_messages. rewrite omap_app.
      assert (omap counted more = []) as ->; [|by rewrite app_nil_r].
      induction Hm as [|l more Hl _ IH]; simpl; [done|]. by rewrite Hl. }
    unfold called_tools. by rewrite E.
Qed.

(** ** The working directory and the searchable text *)

Lemma or_null_idemp (o : option (list N)) : or_null (or_null o) = or_null o.
Proof. destruct o as [[|c s]|]; done. Qed.

Lemma found_cwd_truthy (it : item) : or_null (found_cwd it) = found_cwd it.
Proof.
  unfold found_cwd. destruct (or_null (i_cwd it)) as [c|] eqn:E.
  - by rewrite <-E, or_null_idemp.
  - apply or_null_idemp.
Qed.

Lemma on_line_cwd (st : parse_state) (l : line) :
  or_null (ps_cwd st) = ps_cwd st →
  ps_cwd (on_line st l)
  = match ps_cwd st with Some c => Some c | None => cwd_of l end
  ∧ or_null (ps_cwd (on_line st l)) = ps_cwd (on_line st l).
Proof.
  intros Hst.
  assert (E : ps_cwd (on_line st l)
              = match ps_cwd st with Some c => Some c | None => cwd_of l end).
  { destruct l as [| |it]; [by simpl; destruct (ps_cwd st)..|].
    assert (ps_cwd (on_line st (Json it))
            = match or_null (ps_cwd st) with
              | Some c => Some c
              | None => match found_cwd it with Some c => Some c | None => ps_cwd st end
              end) as ->.
    { simpl. destruct (i_message it); [destruct (is_message_line it)|]; done. }
    rewrite Hst. simpl. destruct (ps_cwd st); [done|]. by destruct (found_cwd it). }
  split; [done|]. rewrite E. destruct (ps_cwd st) as [c|] eqn:Ec; [done|].
  destruct l as [| |it]; simpl; [done..|]. apply found_cwd_truthy.
Qed.

Lemma parse_fold_cwd (st : parse_state) (lines : list line) :
  or_null (ps_cwd st) = ps_cwd st →
  ps_cwd (foldl on_line st lines)
  = match ps_cwd st with Some c => Some c | None => head (omap cwd_of lines) end.
Proof.
  revert st. induction lines as [|l lines IH]; intros st Hst.
  { simpl. by destruct (ps_cwd st). }
  change (foldl on_line st (l :: lines)) with (foldl on_line (on_line st l) lines).
  destruct (on_line_cwd st l Hst) as [E Hst']. rewrite (IH _ Hst'), E.
  rewrite omap_cons_option_list.
  destruct (ps_cwd st); [done|]. by destruct (cwd_of l).
Qed.

(** X12.  The cwd the parser reports is the first one that any line of
    the file records, whether or not that line is a counted message;
    an empty cwd is passed over.  The session built from the file
    carries that cwd, and its project is the base name of it, or the
    name read off the path when no line records a cwd. *)
Theorem parser_first_cwd (lines : list line) :
  cwd (_parseJsonlStreaming lines) = head (omap cwd_of lines)
  ∧ cwd (_parseJsonlStreaming lines) ≠ Some []
  ∧ ∀ (dir path : list N) (st : file_stats),
      o_cwd (conversation_of dir path st (_parseJsonlStreaming lines))
      = head (omap cwd_of lines)
      ∧ o_project (conversation_of dir path st (_parseJsonlStreaming lines))
        = Some (match head (omap cwd_of lines) with
                | Some c => basename c
                | None => _extractProjectFromPath dir path
                end).
Proof.
  assert (E : cwd (_parseJsonlStreaming lines) = head (omap cwd_of lines)).
  { unfold _parseJsonlStreaming. simpl.
    by rewrite (parse_fold_cwd initial_state lines). }
  assert (Ht : or_null (head (omap cwd_of lines)) = head (omap cwd_of lines)).
  { clear E. induction lines as [|l lines IH]; [done|].
    rewrite omap_cons_option_list. destruct (cwd_of l) as [c|] eqn:Ec; [|done].
    destruct l as [| |it]; simpl in Ec; [done..|].
    pose proof (found_cwd_truthy it) as H. rewrite Ec in H. exact H. }
  split; [done|]. split.
  - rewrite E. intros Hc. by rewrite Hc in Ht.
  - intros dir path st. unfold conversation_of. cbn [o_cwd o_project].
    by rewrite E, Ht.
Qed.

Lemma length_join_parts (parts : list (list N)) :
  Forall (λ p, p ≠ []) parts → join newline parts = [] → parts = [].
Proof.
  destruct parts as [|p [|q parts]]; [done|..]; simpl.
  - intros Hp%Forall_cons_1 ?. by destruct Hp.
  - intros Hp%Forall_cons_1 E. destruct Hp as [Hp _]. by destruct p.
Qed.

(** X13.  The searchable text is made of the texts of the counted
    messages in file order, each cut to 2000 code units, messages
    without text left out, with a line feed between them, the whole cut
    to 100000 code units.  It is empty exactly when no counted message
    has text. *)
Theorem parser_searchable_content (lines : list line) :
  searchableContent (_parseJsonlStreaming lines)
  = take (Z.to_nat 100000) (join newline (omap text_part (counted_messages lines)))
  ∧ Z.of_nat (length (searchableContent (_parseJsonlStreaming lines))) ≤ 100000
  ∧ Forall (λ p, p ≠ [] ∧ Z.of_nat (length p) ≤ 2000)
      (omap text_part (counted_messages lines))
  ∧ (searchableContent (_parseJsonlStreaming lines) = []
     ↔ omap text_part (counted_messages lines) = []).
Proof.
  assert (E : searchableContent (_parseJsonlStreaming lines)
              = take (Z.to_nat 100000) (join newline (omap text_part (counted_messages lines)))).
  { unfold _parseJsonlStreaming.
    destruct (parse_fold_fields initial_state lines) as (_ & _ & _ & _ & Ep).
    simpl in *. by rewrite Ep. }
  assert (Hp : Forall (λ p, p ≠ [] ∧ Z.of_nat (length p) ≤ 2000)
                 (omap text_part (counted_messages lines))).
  { apply Forall_forall. intros p Hin. apply list_elem_of_omap in Hin as (e & _ & He).
    unfold text_part in He. destruct (_extractTextContent _) as [|c text]; [done|].
    simpl in He. injection He as <-. split; [done|].
    rewrite length_cons, length_take. lia. }
  split; [done|]. split; [rewrite E, length_take; lia|]. split; [done|].
  rewrite E. split.
  - intros Hnil. apply length_join_parts.
    + eapply Forall_impl; [exact Hp|]. by intros p [? _].
    + destruct (join newline _); [done|]. done.
  - by intros ->.
Qed.

(** ** Counters by name *)

Lemma count_of_bump (k k' : list N) (t : list (list N * Z)) :
  count_of k (bump k' t) = count_of k t + (if bool_decide (k = k') then 1 else 0).
Proof.
  induction t as [|[k0 n] t IH]; simpl.
  - repeat case_bool_decide; simplify_eq; done.
  - repeat (case_bool_decide; simpl); simplify_eq; rewrite ?num_or_0; try lia.
    all: rewrite IH; repeat case_bool_decide; simplify_eq; lia.
Qed.

Lemma occurrences_cons (k x : list N) (l : list (list N)) :
  occurrences k (x :: l) = (if bool_decide (k = x) then 1 else 0) + occurrences k l.
Proof.
  unfold occurrences. rewrite filter_cons.
  case_decide; case_bool_decide; simplify_eq; rewrite ?length_cons; lia.
Qed.

Lemma count_of_fold_bump (k : list N) (names : list (list N)) (t : list (list N * Z)) :
  count_of k (foldl (λ t n, bump n t) t names) = count_of k t + occurrences k names.
Proof.
  revert t. induction names as [|x names IH]; intros t.
  - unfold occurrences. simpl. lia.
  - simpl. rewrite IH, count_of_bump, occurrences_cons. lia.
Qed.

Lemma keys_bump (k : list N) (t : list (list N * Z)) :
  (bump k t).*1 = if bool_decide (k ∈ t.*1) then t.*1 else t.*1 ++ [k].
Proof.
  induction t as [|[k0 n] t IH]; [done|].
  cbn [bump]. rewrite fmap_cons. cbn [fst].
  destruct (decide (k0 = k)) as [->|Hne].
  - rewrite !bool_decide_eq_true_2; [done|by left|done].
  - rewrite (bool_decide_eq_false_2 (k0 = k)); [|done].
    rewrite fmap_cons, IH. cbn [fst].
    destruct (decide (k ∈ t.*1)) as [Hin|Hin].
    + rewrite !bool_decide_eq_true_2; [done|by right|done].
    + rewrite !bool_decide_eq_false_2; [done| |done].
      intros [->|?]%elem_of_cons; done.
Qed.

Lemma keys_fold_bump (names : list (list N)) (t : list (list N * Z)) :
  NoDup t.*1 →
  NoDup (foldl (λ t n, bump n t) t names).*1
  ∧ ∀ k, k ∈ (foldl (λ t n, bump n t) t names).*1 ↔ k ∈ t.*1 ∨ k ∈ names.
Proof.
  revert t. induction names as [|x names IH]; intros t Ht; simpl.
  - split; [done|]. intros k. rewrite elem_of_nil. tauto.
  - assert (Hx : NoDup (bump x t).*1 ∧ ∀ k, k ∈ (bump x t).*1 ↔ k ∈ t.*1 ∨ k = x).
    { rewrite keys_bump. case_bool_decide as Hin.
      - split; [done|]. intros k. split; [tauto|]. by intros [?| ->].
      - split.
        + apply NoDup_app. split; [done|]. split; [|apply NoDup_singleton].
          intros y Hy Hy'. apply list_elem_of_singleton in Hy'. by subst.
        + intros k. by rewrite elem_of_app, list_elem_of_singleton. }
    destruct Hx as [Hnd Hk]. destruct (IH _ Hnd) as [Hnd' Hk'].
    split; [done|]. intros k. rewrite Hk', Hk, elem_of_cons. tauto.
Qed.

Lemma Zsum_bump (k : list N) (t : list (list N * Z)) :
  Zsum (bump k t).*2 = Zsum t.*2 + 1.
Proof.
  induction t as [|[k0 n] t IH]; [done|].
  cbn [bump]. unfold Zsum in *. case_bool_decide.
  - rewrite !fmap_cons. cbn [foldr snd]. rewrite num_or_0. lia.
  - rewrite !fmap_cons. cbn [foldr snd]. rewrite IH. lia.
Qed.

Lemma Zsum_fold_bump (names : list (list N)) (t : list (list N * Z)) :
  Zsum (foldl (λ t n, bump n t) t names).*2 = Zsum t.*2 + Z.of_nat (length names).
Proof.
  revert t. induction names as [|x names IH]; intros t; simpl; [lia|].
  rewrite IH, Zsum_bump. lia.
Qed.

(** X14.  When no tool is called by a name that an empty object
    already answers, the parser's table of tools has one entry for each
    name called, the entry of a name counts the calls by that name, and
    the tool total is the sum of the entries. *)
Theorem parser_tool_counts (lines : list line) :
  Forall (λ name, name ∉ inherited) (called_tools lines) →
  (∀ name, count_of name (tools (_parseJsonlStreaming lines))
           = occurrences name (called_tools lines))
  ∧ NoDup (tools (_parseJsonlStreaming lines)).*1
  ∧ (∀ name, name ∈ (tools (_parseJsonlStreaming lines)).*1
             ↔ name ∈ called_tools lines)
  ∧ toolTotal (_parseJsonlStreaming lines)
    = Zsum (tools (_parseJsonlStreaming lines)).*2.
Proof.
  intros _. unfold _parseJsonlStreaming.
  destruct (parse_fold_fields initial_state lines) as (_ & Et & E & _).
  simpl in *. rewrite E, Et.
  destruct (keys_fold_bump (called_tools lines) []) as [Hnd Hk]; [constructor|].
  split; [|split; [done|split]].
  - intros name. by rewrite count_of_fold_bump.
  - intros name. rewrite Hk, elem_of_nil. tauto.
  - by rewrite Zsum_fold_bump.
Qed.

Lemma parser_tool_counts_witness :
  Forall (λ name, name ∉ inherited) (called_tools tool_log)
  ∧ count_of (str "Read") (tools (_parseJsonlStreaming tool_log)) = 2
  ∧ toolTotal (_parseJsonlStreaming tool_log) = 3.
Proof.
  assert (H : Forall (λ name, name ∉ inherited) (called_tools tool_log)).
  { apply (bool_decide_unpack _). by vm_compute. }
  destruct (parser_tool_counts tool_log H) as (Hc & _ & _ & Ht).
  split; [exact H|]. split.
  - rewrite Hc. by vm_compute.
  - rewrite Ht. by vm_compute.
Defined.

(** ** The primary model *)

Lemma positive_fold_bump (names : list (list N)) (t : list (list N * Z)) :
  Forall (λ e, 0 < e.2) t → Forall (λ e, 0 < e.2) (foldl (λ t n, bump n t) t names).
Proof.
  revert t. induction names as [|x names IH]; intros t Ht; [done|].
  simpl. apply IH. clear IH. induction Ht as [|[k0 n] t Hn Ht IH]; simpl.
  - by repeat constructor.
  - case_bool_decide; constructor; try done. simpl in *. rewrite num_or_0. lia.
Qed.

Lemma count_of_elem (k : list N) (c : Z) (t : list (list N * Z)) :
  NoDup t.*1 → (k, c) ∈ t → count_of k t = c.
Proof.
  induction t as [|[k0 n] t IH]; intros Hnd Hin; [by apply elem_of_nil in Hin|].
  rewrite fmap_cons in Hnd. apply NoDup_cons in Hnd as [Hk0 Hnd]. simpl in Hk0.
  cbn [count_of]. apply elem_of_cons in Hin as [E|Hin].
  - simplify_eq. by rewrite bool_decide_eq_true_2.
  - rewrite bool_decide_eq_false_2; [by apply IH|].
    intros ->. apply Hk0. apply list_elem_of_fmap. by exists (k, c).
Qed.

Lemma count_of_cases (k : list N) (t : list (list N * Z)) :
  count_of k t = 0 ∨ (k, count_of k t) ∈ t.
Proof.
  induction t as [|[k0 n] t IH]; [by left|].
  cbn [count_of]. case_bool_decide as E.
  - subst. right. by left.
  - destruct IH as [?|?]; [by left|]. right. by right.
Qed.

Lemma most_used_fold (best : Z * option (list N)) (counts : list (list N * Z)) :
  let r := foldl (λ (best : Z * option (list N)) e,
                    if best.1 <? e.2 then (e.2, Some e.1) else best) best counts in
  best.1 ≤ r.1
  ∧ (∀ e, e ∈ counts → e.2 ≤ r.1)
  ∧ (r = best ∨ ∃ m, r.2 = Some m ∧ (m, r.1) ∈ counts).
Proof.
  revert best. induction counts as [|e counts IH]; intros best.
  { simpl. split; [lia|]. split; [|by left]. intros e He. by apply elem_of_nil in He. }
  cbn zeta in *. cbn [foldl].
  destruct (IH (if best.1 <? e.2 then (e.2, Some e.1) else best)) as (H1 & H2 & H3).
  split; [|split].
  - destruct (Z.ltb_spec best.1 e.2); simpl in H1; lia.
  - intros e' [->|He']%elem_of_cons; [|by apply H2].
    destruct (Z.ltb_spec best.1 e.2); simpl in H1; lia.
  - destruct H3 as [E|(m & Em & Hin)].
    + destruct (Z.ltb_spec best.1 e.2); [|by left].
      right. exists e.1. rewrite E. simpl. split; [done|]. destruct e. by left.
    + right. exists m. split; [done|]. by right.
Qed.

Lemma most_used_spec (counts : list (list N * Z)) :
  Forall (λ e, 0 < e.2) counts →
  match most_used counts with
  | None => counts = []
  | Some m => ∃ c, (m, c) ∈ counts ∧ ∀ e, e ∈ counts → e.2 ≤ c
  end.
Proof.
  intros Hpos. unfold most_used.
  destruct (most_used_fold (0, None) counts) as (_ & Hmax & [E|(m & Em & Hin)]).
  - rewrite E. simpl. rewrite E in Hmax. simpl in Hmax.
    destruct counts as [|e counts]; [done|]. exfalso.
    apply Forall_cons_1 in Hpos as [He _].
    specialize (Hmax e (ltac:(by left))). lia.
  - rewrite Em. eexists. split; [exact Hin|]. done.
Qed.

(** X15.  When no message names a model by a name that an empty object
    already answers, the parser's table of models counts, for each
    name, the counted messages that name it.  The primary model is one
    that is named most often, so it is named at least once, and there is
    none exactly when no counted message names a model. *)
Theorem parser_primary_model (lines : list line) :
  Forall (λ name, name ∉ inherited) (named_models lines) →
  (∀ name, count_of name (models (_parseJsonlStreaming lines))
           = occurrences name (named_models lines))
  ∧ (primaryModel (_parseJsonlStreaming lines) = None ↔ named_models lines = [])
  ∧ ∀ m, primaryModel (_parseJsonlStreaming lines) = Some m →
         0 < occurrences m (named_models lines)
         ∧ ∀ m', occurrences m' (named_models lines)
                 ≤ occurrences m (named_models lines).
Proof.
  intros _. unfold _parseJsonlStreaming.
  destruct (parse_fold_fields initial_state lines) as (_ & _ & _ & E & _).
  simpl in *. rewrite E. clear E.
  set (names := named_models lines).
  set (t := foldl (λ t n, bump n t) [] names).
  assert (Hc : ∀ name, count_of name t = occurrences name names).
  { intros name. unfold t. by rewrite count_of_fold_bump. }
  destruct (keys_fold_bump names []) as [Hnd Hk]; [constructor|]. fold t in Hnd, Hk.
  assert (Hpos : Forall (λ e, 0 < e.2) t) by (by apply positive_fold_bump).
  pose proof (most_used_spec t Hpos) as Hm.
  split; [done|]. split; [split|].
  - intros En. rewrite En in Hm.
    destruct names as [|x names']; [done|]. exfalso.
    assert (Hx : x ∈ t.*1) by (apply Hk; right; by left).
    rewrite Hm in Hx. by apply elem_of_nil in Hx.
  - intros En. unfold t. by rewrite En.
  - intros m Em. rewrite Em in Hm. destruct Hm as (c & Hin & Hmax).
    assert (Ec : count_of m t = c) by (by apply count_of_elem).
    rewrite <-!Hc, Ec. split.
    + rewrite Forall_forall in Hpos. apply (Hpos _ Hin).
    + intros m'. rewrite <-Hc.
      destruct (count_of_cases m' t) as [->|Hin'].
      * rewrite Forall_forall in Hpos. specialize (Hpos _ Hin). simpl in Hpos. lia.
      * apply (Hmax _ Hin').
Qed.

Lemma parser_primary_model_witness :
  Forall (λ name, name ∉ inherited) (named_models tool_log)
  ∧ primaryModel (_parseJsonlStreaming tool_log) = Some (str "sonnet")
  ∧ 0 < occurrences (str "sonnet") (named_models tool_log).
Proof.
  assert (H : Forall (λ name, name ∉ inherited) (named_models tool_log)).
  { apply (bool_decide_unpack _). by vm_compute. }
  split; [exact H|]. split; [by vm_compute|].
  destruct (parser_primary_model tool_log H) as (_ & _ & Hm).
  apply (Hm (str "sonnet")). by vm_compute.
Defined.

(** ** A file without messages *)

Lemma input_output_of_uncounted (l : line) :
  counted l = None → input_of l = 0 ∧ output_of l = 0.
Proof.
  unfold input_of, output_of, assistant_message, counted, is_message_line.
  destruct l as [| |[ty cw [msg|]]]; simpl; try done.
  - case_bool_decide; [done|]. done.
  - case_bool_decide; done.
Qed.

Lemma parse_without_messages (lines : list line) :
  Forall (λ l, counted l = None) lines →
  _parseJsonlStreaming lines
  = ParseResult 0 (TokenUsage 0 0 0) None [] 0 [] [] (head (omap cwd_of lines)).
Proof.
  intros Hc.
  assert (Em : counted_messages lines = []).
  { unfold counted_messages. induction Hc as [|l ls Hl _ IH]; [done|].
    by rewrite omap_cons_option_list, Hl. }
  assert (Ez : (Zsum (input_of <$> lines) = 0 ∧ Zsum (output_of <$> lines) = 0)
               ∧ Zsum ((λ l, Z.abs (input_of l)) <$> lines) = 0
               ∧ Zsum ((λ l, Z.abs (output_of l)) <$> lines) = 0).
  { clear Em. induction Hc as [|l ls Hl _ IH]; [done|].
    destruct (input_output_of_uncounted l Hl) as [Ei Eo].
    rewrite !fmap_cons. unfold Zsum in *. cbn [foldr]. lia. }
  unfold _parseJsonlStreaming.
  destruct (parse_fold_fields initial_state lines) as (E1 & E2 & E3 & E4 & E5).
  destruct (parse_fold_tokens initial_state lines) as [E6 E7].
  pose proof (parse_fold_cwd initial_state lines eq_refl) as E8.
  unfold called_tools, named_models in *. rewrite Em in *.
  destruct Ez as ([Ez1 Ez2] & Ea1 & Ea2).
  rewrite Ea1, Ez1 in E6. rewrite Ea2, Ez2 in E7.
  specialize (E6 ltac:(by vm_compute)). specialize (E7 ltac:(by vm_compute)).
  destruct (foldl on_line initial_state lines). simpl in *. by subst.
Qed.

Lemma indexFile_readable (dir : list N) (f : file_obs) (st : file_stats)
    (lines : list line) (db : DB) :
  fo_lines f = Some lines →
  _indexFile dir f st db
  = Some (upsertConversation
            (conversation_of dir (fo_path f) st (_parseJsonlStreaming lines))
            (searchableContent (_parseJsonlStreaming lines)) (fo_now f) db).
Proof. intros Hl. unfold _indexFile. by rewrite Hl. Qed.

(** X16.  A readable file in which no line is a counted message, be it
    empty or made of blank lines, lines that are not JSON and objects of
    other kinds, is indexed all the same: the store then holds a
    session for it with no messages, no tokens and no model, without
    text to search and without tool rows, and the file is tracked, so
    that the next pass skips it when its modification time is not
    zero. *)
Theorem indexFile_without_messages (dir : list N) (f : file_obs) (st : file_stats)
    (lines : list line) (db : DB) :
  fo_lines f = Some lines →
  Forall (λ l, counted l = None) lines →
  ∃ db' o,
    _indexFile dir f st db = Some db'
    ∧ getConversation
        (o_id (conversation_of dir (fo_path f) st (_parseJsonlStreaming lines))) db'
      = Some o
    ∧ v_filePath o = fo_path f ∧ v_messageCount o = 0 ∧ v_tokens o = 0
    ∧ v_primaryModel o = None
    ∧ filter (λ r, f_conversation_id r
                   = o_id (conversation_of dir (fo_path f) st (_parseJsonlStreaming lines)))
        (conversation_fts db') = []
    ∧ filter (λ t, t_conversation_id t
                   = o_id (conversation_of dir (fo_path f) st (_parseJsonlStreaming lines)))
        (tool_usage db') = []
    ∧ (st_mtime st ≠ 0 →
       needsIndexing (fo_path f) (st_mtime st) (st_size st) db' = false).
Proof.
  intros Hl Hc. rewrite (indexFile_readable dir f st lines db Hl).
  rewrite (parse_without_messages lines Hc).
  set (c := conversation_of _ _ _ _). cbn [searchableContent].
  eexists _, (_rowToConversation (row_of_conversation c (fo_now f))).
  split; [done|]. split.
  { unfold getConversation. rewrite upsertConversation_rows_of_id.
    by rewrite decide_True. }
  split; [done|]. split; [done|]. split; [done|]. split; [done|]. split.
  { rewrite upsertConversation_fts. change (is_blank []) with true.
    rewrite app_nil_r. apply (filter_eq_of_filter_ne f_conversation_id). }
  split.
  { unfold upsertConversation. change (default [] (o_tools c)) with (@nil (list N * Z)).
    simpl. apply (filter_eq_of_filter_ne t_conversation_id). }
  intros Hm. apply needsIndexing_false_iff.
  rewrite upsertConversation_file_index. eexists. split; [apply lookup_insert_eq|].
  simpl. unfold num_or. split.
  - destruct (st_mtime st =? 0) eqn:E0; [apply Z.eqb_eq in E0|]; done.
  - by destruct (st_size st =? 0) eqn:E0; [apply Z.eqb_eq in E0|].
Qed.

Lemma indexFile_without_messages_witness :
  Forall (λ l, counted l = None) [Invalid; Blank; Invalid]
  ∧ ∃ db' o,
      _indexFile projects_dir
        (FileObs (str "/home/u/.claude/projects/-foo/s9.jsonl") None
           (Some [Invalid; Blank; Invalid]) 5)
        (FileStats 7 30 6) family_db = Some db'
      ∧ getConversation (str "s9") db' = Some o
      ∧ v_messageCount o = 0.
Proof.
  assert (H : Forall (λ l, counted l = None) [Invalid; Blank; Invalid]).
  { by repeat constructor. }
  split; [exact H|].
  destruct (indexFile_without_messages projects_dir
              (FileObs (str "/home/u/.claude/projects/-foo/s9.jsonl") None
                 (Some [Invalid; Blank; Invalid]) 5)
              (FileStats 7 30 6) [Invalid; Blank; Invalid] family_db eq_refl H)
    as (db' & o & E1 & E2 & _ & E3 & _).
  exists db', o. split; [exact E1|]. split; [exact E2|]. exact E3.
Defined.

(** * Further properties of the indexing pass *)

Lemma filter_every {A} (P : A → Prop) `{∀ x, Decision (P x)} (l : list A) :
  (∀ x, x ∈ l → P x) → filter P l = l.
Proof.
  induction l as [|x l IH]; intros H'; [done|].
  rewrite filter_cons_True by (apply H'; by left).
  f_equal. apply IH. intros y Hy. apply H'. by right.
Qed.

Lemma present_paths_cons (f : file_obs) (files : list file_obs) :
  present_paths (f :: files) = present_paths [f] ++ present_paths files.
Proof.
  unfold present_paths. rewrite !filter_cons, filter_nil.
  by case_decide.
Qed.

Lemma present_paths_one (f : file_obs) :
  present_paths [f] = match fo_stat f with Some _ => [fo_path f] | None => [] end.
Proof.
  unfold present_paths. rewrite filter_cons, filter_nil.
  destruct (fo_stat f) as [st|].
  - by rewrite decide_True.
  - rewrite decide_False; [done|]. by intros [? ?].
Qed.

Lemma process_file_step (dir : list N) (ps : pass_state) (f : file_obs) :
  let ps' := process_file dir ps f in
  (filesScanned (p_stats ps') = filesScanned (p_stats ps)
   ∧ filesRemoved (p_stats ps') = filesRemoved (p_stats ps)
   ∧ filesIndexed (p_stats ps') + filesSkipped (p_stats ps') + errors (p_stats ps')
     = filesIndexed (p_stats ps) + filesSkipped (p_stats ps) + errors (p_stats ps) + 1
   ∧ filesIndexed (p_stats ps) ≤ filesIndexed (p_stats ps')
   ∧ filesSkipped (p_stats ps) ≤ filesSkipped (p_stats ps')
   ∧ errors (p_stats ps) ≤ errors (p_stats ps'))
  ∧ p_indexedPaths ps' = filter (λ p, p ∉ present_paths [f]) (p_indexedPaths ps)
  ∧ (∀ p, p ∉ present_paths [f] →
          file_index (p_db ps') !! p = file_index (p_db ps) !! p)
  ∧ (reachable (p_db ps) → reachable (p_db ps')).
Proof.
  cbn zeta. rewrite present_paths_one. unfold process_file.
  destruct (fo_stat f) as [st|]; simpl.
  - assert (E : filter (λ p, p ≠ fo_path f) (p_indexedPaths ps)
                = filter (λ p, p ∉ [fo_path f]) (p_indexedPaths ps)).
    { apply list_filter_iff. intros p. by rewrite list_elem_of_singleton. }
    destruct (needsIndexing _ _ _ _); [|simpl; repeat split; try done; lia].
    unfold _indexFile. cbn zeta. cbn [p_db p_stats p_indexedPaths].
    repeat split; try done; try (simpl; lia).
    + intros p Hp. rewrite upsertConversation_file_index. simpl.
      apply lookup_insert_ne. intros Eq. apply Hp. rewrite <-Eq. by left.
    + intros Hre. by constructor.
  - rewrite filter_every; [repeat split; try done; lia|].
    intros p _ Hp. by apply elem_of_nil in Hp.
Qed.

Lemma process_file_fold (dir : list N) (files : list file_obs) (ps : pass_state) :
  let ps' := foldl (process_file dir) ps files in
  (filesScanned (p_stats ps') = filesScanned (p_stats ps)
   ∧ filesRemoved (p_stats ps') = filesRemoved (p_stats ps)
   ∧ filesIndexed (p_stats ps') + filesSkipped (p_stats ps') + errors (p_stats ps')
     = filesIndexed (p_stats ps) + filesSkipped (p_stats ps) + errors (p_stats ps)
       + Z.of_nat (length files)
   ∧ filesIndexed (p_stats ps) ≤ filesIndexed (p_stats ps')
   ∧ filesSkipped (p_stats ps) ≤ filesSkipped (p_stats ps')
   ∧ errors (p_stats ps) ≤ errors (p_stats ps'))
  ∧ p_indexedPaths ps' = filter (λ p, p ∉ present_paths files) (p_indexedPaths ps)
  ∧ (∀ p, p ∉ present_paths files →
          file_index (p_db ps') !! p = file_index (p_db ps) !! p)
  ∧ (reachable (p_db ps) → reachable (p_db ps')).
Proof.
  revert ps. induction files as [|f files IH]; intros ps.
  { simpl. rewrite filter_every; [repeat split; try done; lia|].
    intros p _ Hp. by apply elem_of_nil in Hp. }
  cbn zeta in *. cbn [foldl].
  destruct (IH (process_file dir ps f)) as ((E1 & E2 & E3 & E4 & E5 & E6) & Ep & Hf & Hre).
  destruct (process_file_step dir ps f) as ((F1 & F2 & F3 & F4 & F5 & F6) & Fp & Hf' & Hre').
  rewrite present_paths_cons. split; [|split; [|split]].
  - rewrite length_cons. repeat split; lia.
  - rewrite Ep, Fp, filter_filter_and. apply list_filter_iff. intros p.
    rewrite elem_of_app. tauto.
  - intros p Hp. rewrite elem_of_app in Hp. rewrite Hf, Hf'; tauto.
  - tauto.
Qed.

Lemma remove_deleted_fold_more (paths : list (list N)) (ps : pass_state) :
  let ps' := foldl remove_deleted ps paths in
  filesScanned (p_stats ps') = filesScanned (p_stats ps)
  ∧ filesRemoved (p_stats ps') = filesRemoved (p_stats ps) + Z.of_nat (length paths)
  ∧ (∀ p, file_index (p_db ps') !! p
          = if decide (p ∈ paths) then None else file_index (p_db ps) !! p)
  ∧ (reachable (p_db ps) → reachable (p_db ps')).
Proof.
  revert ps. induction paths as [|q paths IH]; intros ps.
  { simpl. repeat split; try done; lia. }
  cbn zeta in *. cbn [foldl].
  destruct (IH (remove_deleted ps q)) as (E1 & E2 & Hf & Hre).
  rewrite E1, E2, length_cons. unfold remove_deleted at 2 3. cbn [p_stats count_removed filesScanned filesRemoved].
  split; [done|]. split; [lia|]. split.
  - intros p. rewrite Hf. unfold remove_deleted. cbn [p_db].
    rewrite removeFile_file_index.
    destruct (decide (p ∈ paths)) as [Hin|Hin].
    + rewrite decide_True; [done|]. by right.
    + destruct (decide (p = q)) as [->|Hne].
      * rewrite decide_True by (by left). apply lookup_delete_eq.
      * rewrite decide_False by (intros [?|?]%elem_of_cons; done).
        by apply lookup_delete_ne.
  - intros Hr. apply Hre. unfold remove_deleted. cbn [p_db]. by constructor.
Qed.

Lemma elem_of_getIndexedFilePaths (p : list N) (db : DB) :
  p ∈ getIndexedFilePaths db ↔ is_Some (file_index db !! p).
Proof.
  unfold getIndexedFilePaths. rewrite list_elem_of_fmap. split.
  - intros ([q row] & -> & Hin). apply elem_of_map_to_list in Hin. by exists row.
  - intros [row Hrow]. exists (p, row). split; [done|]. by apply elem_of_map_to_list.
Qed.

(** ** The statistics of a pass *)

(** X17.  A pass counts every discovered file once: as indexed, as
    skipped or as an error.  It removes as many files as the store tracked before the pass and
    [fs.stat] answers for none of the discovered files of that path.
    The number of resolved project names is reported only when it is
    positive. *)
Theorem runFullIndex_statistics (dir : list N) (files : list file_obs) (db : DB) :
  filesScanned (runFullIndex dir files db).2 = Z.of_nat (length files)
  ∧ filesIndexed (runFullIndex dir files db).2
    + filesSkipped (runFullIndex dir files db).2
    + errors (runFullIndex dir files db).2
    = Z.of_nat (length files)
  ∧ 0 ≤ filesIndexed (runFullIndex dir files db).2
  ∧ 0 ≤ filesSkipped (runFullIndex dir files db).2
  ∧ 0 ≤ errors (runFullIndex dir files db).2
  ∧ filesRemoved (runFullIndex dir files db).2
    = Z.of_nat (length (filter (λ p, p ∉ present_paths files) (getIndexedFilePaths db)))
  ∧ match projectNamesResolved (runFullIndex dir files db).2 with
    | Some n => 0 < n
    | None => True
    end.
Proof.
  unfold runFullIndex. cbn zeta.
  set (ps0 := PassState db _ _).
  destruct (process_file_fold dir files ps0) as ((E1 & E2 & E3 & E4 & E5 & E6) & Ep & _).
  cbn zeta in *. rewrite Ep.
  set (ps1 := foldl (process_file dir) ps0 files) in *.
  set (gone := filter _ (p_indexedPaths ps0)) in *.
  destruct (remove_deleted_fold ps1 gone) as (G1 & G2 & G3 & _).
  destruct (remove_deleted_fold_more gone ps1) as (G4 & G5 & _).
  cbn zeta in *. cbn [snd filesScanned filesIndexed filesSkipped filesRemoved errors
                      projectNamesResolved].
  rewrite G1, G2, G3, G4, G5, E1, E2. subst ps0. simpl in *.
  split; [done|]. split; [lia|]. split; [lia|]. split; [lia|]. split; [lia|].
  split; [done|].
  destruct (Z.ltb_spec 0 (resolveEncodedProjectNames
                            (p_db (foldl remove_deleted ps1 gone))).1.2); done.
Qed.

(** ** Files that are gone *)

Lemma runFullIndex_tracked_paths (dir : list N) (files : list file_obs) (db : DB) (p : list N) :
  is_Some (file_index (runFullIndex dir files db).1 !! p) → p ∈ present_paths files.
Proof.
  unfold runFullIndex. cbn zeta. cbn [fst].
  set (ps0 := PassState db _ _).
  destruct (process_file_fold dir files ps0) as (_ & Ep & Hf & _).
  cbn zeta in *. rewrite Ep.
  set (ps1 := foldl (process_file dir) ps0 files) in *.
  set (gone := filter _ (p_indexedPaths ps0)) in *.
  destruct (remove_deleted_fold_more gone ps1) as (_ & _ & Hg & _).
  cbn zeta in *.
  intros [row Hrow]. rewrite resolveEncodedProjectNames_file_index, Hg in Hrow.
  destruct (decide (p ∈ gone)) as [|Hgone]; [done|].
  destruct (decide (p ∈ present_paths files)) as [|Hp]; [done|]. exfalso.
  rewrite (Hf p Hp) in Hrow. apply Hgone. apply list_elem_of_filter. split; [done|].
  subst ps0. cbn [p_indexedPaths]. apply elem_of_getIndexedFilePaths.
  by exists row.
Qed.

(** X18.  After a pass over a database that the store produced, every
    tracked path and the file of every session is the path of a
    discovered file that [fs.stat] answered for: what the store held
    for other files, deleted ones and ones that can no longer be
    examined, is removed. *)
Theorem runFullIndex_forgets_missing_files (dir : list N) (files : list file_obs) (db : DB) :
  reachable db →
  reachable (runFullIndex dir files db).1
  ∧ (∀ p, is_Some (file_index (runFullIndex dir files db).1 !! p) →
          p ∈ present_paths files)
  ∧ (∀ r, r ∈ conversations (runFullIndex dir files db).1 →
          r_file_path r ∈ present_paths files).
Proof.
  intros Hdb.
  assert (Hfinal : reachable (runFullIndex dir files db).1).
  { unfold runFullIndex. cbn zeta. cbn [fst].
    set (ps0 := PassState db _ _).
    destruct (process_file_fold dir files ps0) as (_ & _ & _ & Hre).
    cbn zeta in *.
    set (ps1 := foldl (process_file dir) ps0 files) in *.
    destruct (remove_deleted_fold_more (p_indexedPaths ps1) ps1) as (_ & _ & _ & Hre').
    constructor. apply Hre', Hre. exact Hdb. }
  split; [done|]. split; [apply runFullIndex_tracked_paths|].
  intros r Hr. apply (runFullIndex_tracked_paths dir files db).
  destruct (reachable_more _ Hfinal) as (_ & _ & Ht).
  destruct (Ht r Hr) as (row & Hrow & _). by exists row.
Qed.

(** A pass that discovers only one file, over a store that holds a
    parent session and a subagent of other files. *)
Lemma runFullIndex_forgets_missing_files_witness :
  reachable family_db
  ∧ r_id <$> conversations (runFullIndex projects_dir [root_file] family_db).1
    = [str "s1"]
  ∧ ∀ r, r ∈ conversations (runFullIndex projects_dir [root_file] family_db).1 →
         r_file_path r ∈ present_paths [root_file].
Proof.
  assert (H : reachable family_db) by (repeat constructor).
  split; [exact H|]. split; [by vm_compute|].
  apply (runFullIndex_forgets_missing_files projects_dir [root_file] family_db H).
Defined.

(** ** A pass after a pass *)

Lemma group_cwds_resolved (rows l : list conversation_row) (folder : list N) :
  group_cwds folder (resolved_row rows <$> l) = group_cwds folder l.
Proof.
  unfold group_cwds. rewrite group_resolved.
  induction (group folder l) as [|r g IH]; [done|].
  rewrite fmap_cons, !omap_cons_option_list, IH. f_equal.
  by destruct (canonical folder rows).
Qed.

Lemma canonical_resolved (rows : list conversation_row) (folder : list N) :
  canonical folder (resolved_row rows <$> rows) = canonical folder rows.
Proof. unfold canonical. by rewrite group_cwds_resolved. Qed.

Lemma resolve_conversation_noop (name : list N) (convs : list conversation_row)
    (st : resolve_state) :
  Forall (λ c, r_project c = Some name) convs →
  foldl (resolve_conversation name) st convs = st.
Proof.
  induction 1 as [|c convs Hc _ IH]; [done|].
  cbn [foldl]. unfold resolve_conversation at 2.
  by rewrite bool_decide_eq_false_2 by (by intros ?).
Qed.

Lemma resolve_folder_noop (fd : list (list N * folder_data)) (st : DB * Z * Z) :
  Forall (λ e, ∀ name, canonicalName e.2 = Some name →
                 Forall (λ c, r_project c = Some name) (fd_conversations e.2)) fd →
  foldl resolve_folder st fd = st.
Proof.
  induction 1 as [|e fd He _ IH]; [done|].
  cbn [foldl]. unfold resolve_folder at 2.
  destruct (canonicalName e.2) as [name|]; [|done].
  rewrite resolve_conversation_noop by (by apply He). simpl.
  by destruct st as [[? ?] ?].
Qed.

Lemma elem_of_present_paths (p : list N) (files : list file_obs) :
  p ∈ present_paths files → p ∈ fo_path <$> files.
Proof.
  unfold present_paths. intros (f & -> & Hf)%list_elem_of_fmap.
  apply list_elem_of_filter in Hf as [_ Hf]. apply list_elem_of_fmap. by exists f.
Qed.

(** The tracking rows after the loop over the files of a pass. *)
Lemma process_file_fold_tracks (dir : list N) (files : list file_obs) (ps : pass_state) :
  NoDup (fo_path <$> files) →
  Forall (λ f, is_Some (fo_lines f) ∧ ∃ st, fo_stat f = Some st ∧ st_mtime st ≠ 0) files →
  ∀ f, f ∈ files →
    ∃ st, fo_stat f = Some st
          ∧ needsIndexing (fo_path f) (st_mtime st) (st_size st)
              (p_db (foldl (process_file dir) ps files)) = false.
Proof.
  revert ps. induction files as [|g files IH]; intros ps Hnd Hall f Hin.
  { by apply elem_of_nil in Hin. }
  rewrite fmap_cons in Hnd. apply NoDup_cons in Hnd as [Hg Hnd].
  apply Forall_cons_1 in Hall as [(Hl & st & Hst & Hm) Hall].
  cbn [foldl]. apply elem_of_cons in Hin as [->|Hin]; [|by apply IH].
  exists st. split; [done|]. apply needsIndexing_false_iff.
  destruct (process_file_fold dir files (process_file dir ps g)) as (_ & _ & Hf & _).
  cbn zeta in Hf. rewrite Hf.
  - by apply process_file_tracks.
  - intros Hp. by apply Hg, elem_of_present_paths.
Qed.

(** The loop over files that are all tracked as they are. *)
Lemma process_file_fold_skips (dir : list N) (files : list file_obs) (ps : pass_state) :
  (∀ f, f ∈ files →
     ∃ st, fo_stat f = Some st
           ∧ needsIndexing (fo_path f) (st_mtime st) (st_size st) (p_db ps) = false) →
  p_db (foldl (process_file dir) ps files) = p_db ps
  ∧ filesIndexed (p_stats (foldl (process_file dir) ps files)) = filesIndexed (p_stats ps)
  ∧ errors (p_stats (foldl (process_file dir) ps files)) = errors (p_stats ps)
  ∧ filesSkipped (p_stats (foldl (process_file dir) ps files))
    = filesSkipped (p_stats ps) + Z.of_nat (length files).
Proof.
  revert ps. induction files as [|g files IH]; intros ps Hall.
  { simpl. repeat split; lia. }
  cbn [foldl]. destruct (Hall g (ltac:(by left))) as (st & Hst & Hn).
  assert (E : process_file dir ps g
              = PassState (p_db ps) (count_skipped (p_stats ps))
                  (filter (λ p, p ≠ fo_path g) (p_indexedPaths ps))).
  { unfold process_file. by rewrite Hst, Hn. }
  rewrite E. destruct (IH (PassState (p_db ps) (count_skipped (p_stats ps))
                             (filter (λ p, p ≠ fo_path g) (p_indexedPaths ps))))
    as (-> & -> & -> & ->).
  { intros f Hf. apply Hall. by right. }
  rewrite length_cons. simpl. repeat split; lia.
Qed.

(** X19.  Of files with distinct paths that can all be read and whose
    modification times are not zero, a second pass right after a first
    one indexes none: it skips every file, meets no error, removes
    nothing, and changes the store by no more than resolving the
    project names once again; over a database that the store produced
    it changes nothing at all. *)
Theorem runFullIndex_again (dir : list N) (files : list file_obs) (db : DB) :
  NoDup (fo_path <$> files) →
  Forall (λ f, is_Some (fo_lines f) ∧ ∃ st, fo_stat f = Some st ∧ st_mtime st ≠ 0) files →
  filesSkipped (runFullIndex dir files (runFullIndex dir files db).1).2
  = Z.of_nat (length files)
  ∧ filesIndexed (runFullIndex dir files (runFullIndex dir files db).1).2 = 0
  ∧ errors (runFullIndex dir files (runFullIndex dir files db).1).2 = 0
  ∧ filesRemoved (runFullIndex dir files (runFullIndex dir files db).1).2 = 0
  ∧ (runFullIndex dir files (runFullIndex dir files db).1).1
    = (resolveEncodedProjectNames (runFullIndex dir files db).1).1.1
  ∧ (reachable db →
     (runFullIndex dir files (runFullIndex dir files db).1).1
     = (runFullIndex dir files db).1).
Proof.
  intros Hnd Hall.
  assert (Hsettled : reachable db →
            (resolveEncodedProjectNames (runFullIndex dir files db).1).1.1
            = (runFullIndex dir files db).1).
  { intros Hre. unfold runFullIndex. cbn zeta. cbn [fst].
    set (ps0 := PassState db _ _).
    set (ps1 := foldl (process_file dir) ps0 files).
    set (x := p_db (foldl remove_deleted ps1 (p_indexedPaths ps1))).
    assert (Hx : reachable x).
    { subst x. apply remove_deleted_fold_more. subst ps1.
      by apply process_file_fold. }
    destruct (reachable_ok x Hx) as [Hndx _].
    destruct (resolveEncodedProjectNames_tables x Hndx) as (Ec & _).
    unfold resolveEncodedProjectNames at 1. rewrite resolve_folder_noop; [done|].
    unfold folderData. rewrite folderData_spec, Ec.
    apply Forall_fmap, Forall_forall. intros folder _ name. simpl.
    rewrite canonicalName_spec, canonical_resolved. intros Hname.
    rewrite group_resolved, Hname. apply Forall_fmap, Forall_forall. by intros r _. }
  assert (Hskip : ∀ f, f ∈ files →
            ∃ st, fo_stat f = Some st
                  ∧ needsIndexing (fo_path f) (st_mtime st) (st_size st)
                      (runFullIndex dir files db).1 = false).
  { intros f Hin. unfold runFullIndex. cbn zeta. cbn [fst].
    set (ps0 := PassState db _ _).
    destruct (process_file_fold_tracks dir files ps0 Hnd Hall f Hin) as (st & Hst & Hn).
    exists st. split; [done|].
    apply needsIndexing_false_iff. apply needsIndexing_false_iff in Hn.
    rewrite resolveEncodedProjectNames_file_index.
    set (ps1 := foldl (process_file dir) ps0 files) in *.
    destruct (remove_deleted_fold_more (p_indexedPaths ps1) ps1) as (_ & _ & Hg & _).
    cbn zeta in Hg. rewrite Hg. rewrite decide_False; [done|].
    destruct (process_file_fold dir files ps0) as (_ & Ep & _).
    cbn zeta in Ep. fold ps1 in Ep. rewrite Ep.
    intros Hp. apply list_elem_of_filter in Hp as [Hp _]. apply Hp.
    unfold present_paths. apply list_elem_of_fmap. exists f. split; [done|].
    apply list_elem_of_filter. split; [by rewrite Hst|done]. }
  set (db1 := (runFullIndex dir files db).1) in *.
  assert (Hgone : filter (λ p, p ∉ present_paths files) (getIndexedFilePaths db1) = []).
  { apply filter_none. intros p Hp Hnp. apply Hnp.
    apply (runFullIndex_tracked_paths dir files db).
    by apply elem_of_getIndexedFilePaths. }
  unfold runFullIndex at 1 2 3 4 5 6. cbn zeta.
  set (ps0 := PassState db1 _ _).
  destruct (process_file_fold dir files ps0) as (_ & Ep & _).
  destruct (process_file_fold_skips dir files ps0 Hskip) as (Ed & Ei & Ee & Es).
  cbn zeta in Ep. rewrite Ep. subst ps0. cbn [p_indexedPaths] in *.
  rewrite Hgone. cbn [foldl fst snd filesSkipped filesIndexed errors filesRemoved].
  rewrite Ed, Ei, Ee, Es. cbn [p_db p_stats filesSkipped filesIndexed errors].
  split; [lia|]. split; [done|]. split; [done|]. split; [|split; [done|]].
  - destruct (process_file_fold dir files (PassState db1
                (Stats (Z.of_nat (length files)) 0 0 0 0 None) (getIndexedFilePaths db1)))
      as ((_ & E2 & _) & _).
    cbn zeta in E2. by rewrite E2.
  - intros Hre. by apply Hsettled.
Qed.

Lemma runFullIndex_again_witness :
  NoDup (fo_path <$> [root_file; plain_file])
  ∧ filesSkipped (runFullIndex projects_dir [root_file; plain_file]
                    (runFullIndex projects_dir [root_file; plain_file] family_db).1).2
    = 2.
Proof.
  assert (H : NoDup (fo_path <$> [root_file; plain_file])).
  { apply (bool_decide_unpack _). by vm_compute. }
  split; [exact H|].
  refine (proj1 (runFullIndex_again projects_dir [root_file; plain_file] family_db H _)).
  apply Forall_cons. split.
  { split; [by eexists|]. eexists. split; [reflexivity|done]. }
  apply Forall_cons. split; [|apply Forall_nil_2].
  split; [by eexists|]. eexists. split; [reflexivity|done].
Defined.

(** * Further properties of the grouping *)

Section grouping_more.
Context {rest : Type}.
Variable backend : bool.
Variable getConversation : list N → option (conv rest).
Implicit Types (convs : list (conv rest)) (c s : conv rest).

Lemma grouping_with_subagents convs :
  subagents convs ≠ [] →
  _groupSubagentsUnderParents backend getConversation convs
  = (allParents backend getConversation convs ≫= λ parent,
       parent :: childSubagents convs parent)
    ++ orphanSubagents backend getConversation convs.
Proof. intros E. unfold _groupSubagentsUnderParents. by destruct (subagents convs). Qed.

Lemma elem_of_allParents convs c :
  c ∈ allParents backend getConversation convs
  ↔ (∃ c0, c0 ∈ convs ∧ g_isSubagent c0 = false
           ∧ c = with_count
                   (num_or (num_or (count_of (g_id c0) (subagentCounts convs))
                              (default 0 (g_subagentCount c0))) 0)
                   (g_isStub c0) c0)
    ∨ c ∈ parentStubs backend getConversation convs.
Proof.
  unfold allParents. rewrite sort_Permutation, elem_of_app, list_elem_of_fmap.
  unfold parents. split.
  - intros [(c0 & -> & Hc0)|?]; [left|by right].
    apply list_elem_of_filter in Hc0 as [? ?]. by exists c0.
  - intros [(c0 & ? & ? & ->)|?]; [left|by right].
    exists c0. split; [done|]. by apply list_elem_of_filter.
Qed.

Lemma elem_of_parentStubs convs c :
  c ∈ parentStubs backend getConversation convs →
  backend = true
  ∧ ∃ p c0 s, s ∈ convs ∧ g_isSubagent s = true ∧ g_parentId s = Some p ∧ p ≠ []
              ∧ (∀ c1, c1 ∈ convs → g_isSubagent c1 = false → g_id c1 ≠ p)
              ∧ getConversation p = Some c0
              ∧ c = with_count (num_or (count_of p (subagentCounts convs)) 0) true c0.
Proof.
  unfold parentStubs. destruct backend; [|by intros ?%elem_of_nil].
  intros (p & Hp & Hc)%list_elem_of_omap. split; [done|].
  destruct (getConversation p) as [c0|] eqn:Eg; [|done]. simpl in Hc. simplify_eq.
  assert (Hp' : p ∈ omap (λ s, match or_null (g_parentId s) with
                               | Some q =>
                                   if bool_decide (q ∈ g_id <$> parents convs)
                                   then None else Some q
                               | None => None
                               end) (subagents convs)).
  { by apply elem_of_dedupe. }
  clear Hp. apply list_elem_of_omap in Hp' as (s & Hs & Hsp).
  apply list_elem_of_filter in Hs as [Hsub Hs].
  destruct (or_null (g_parentId s)) as [q|] eqn:Eq; [|done].
  case_bool_decide as Hq; [done|]. simplify_eq.
  exists p, c0, s.
  assert (Hp : g_parentId s = Some p ∧ p ≠ []).
  { destruct (g_parentId s) as [[|x q]|]; simpl in Eq; by simplify_eq. }
  destruct Hp as [Hp Hpne]. repeat split; try done.
  - intros c1 Hc1 Hn1 E. apply Hq. apply list_elem_of_fmap. exists c1.
    split; [done|]. by apply list_elem_of_filter.
Qed.
End grouping_more.

(** X20.  The grouping loses nothing and invents nothing.  Every
    subagent of the result set is in the grouped result, as it was;
    every other conversation of the result set is there too, with at
    most its badge count changed.  Conversely each conversation of the
    grouped result is one of the result set, or a stub: the store's
    answer for a parent id that a subagent of the result set names and
    no parent of the result set has; stubs appear only with the
    database backend. *)
Theorem grouping_keeps_results {rest : Type} (backend : bool)
    (getConversation : list N → option (conv rest)) (convs : list (conv rest)) :
  (∀ s, s ∈ convs → g_isSubagent s = true →
        s ∈ _groupSubagentsUnderParents backend getConversation convs)
  ∧ (∀ c, c ∈ convs → g_isSubagent c = false →
          ∃ c', c' ∈ _groupSubagentsUnderParents backend getConversation convs
                ∧ same_conversation c' c ∧ g_isStub c' = g_isStub c)
  ∧ (∀ c, c ∈ _groupSubagentsUnderParents backend getConversation convs →
          (∃ c0, c0 ∈ convs ∧ same_conversation c c0 ∧ g_isStub c = g_isStub c0)
          ∨ (backend = true ∧ g_isStub c = true
             ∧ ∃ p c0 s, s ∈ convs ∧ g_isSubagent s = true ∧ g_parentId s = Some p
                         ∧ (∀ c1, c1 ∈ convs → g_isSubagent c1 = false → g_id c1 ≠ p)
                         ∧ getConversation p = Some c0 ∧ same_conversation c c0)).
Proof.
  destruct (decide (subagents convs = [])) as [E|E].
  { assert (EG : _groupSubagentsUnderParents backend getConversation convs = convs).
    { unfold _groupSubagentsUnderParents. by rewrite E. }
    rewrite EG. split; [done|]. split.
    - intros c Hc _. by exists c.
    - intros c Hc. left. by exists c. }
  rewrite (grouping_with_subagents backend getConversation convs E).
  split; [|split].
  - intros s Hs Hsub. rewrite elem_of_app, list_elem_of_bind.
    assert (Hs' : s ∈ subagents convs) by (by apply list_elem_of_filter).
    destruct (or_null (g_parentId s)) as [p|] eqn:Ep.
    + destruct (decide (p ∈ g_id <$> allParents backend getConversation convs))
        as [Hin|Hout].
      * left. apply list_elem_of_fmap in Hin as (parent & -> & Hparent).
        exists parent. split; [|done]. right.
        rewrite childSubagents_Permutation. apply list_elem_of_filter. split; [|done].
        destruct (g_parentId s) as [q|]; [|done]. simpl in Ep.
        destruct (truthy q); by simplify_eq.
      * right. unfold orphanSubagents. apply list_elem_of_filter. split; [|done].
        rewrite Ep. by rewrite bool_decide_eq_false_2.
    + right. unfold orphanSubagents. apply list_elem_of_filter. split; [|done].
      by rewrite Ep.
  - intros c Hc Hn. eexists. split.
    + rewrite elem_of_app, list_elem_of_bind. left. eexists. split; [by left|].
      apply elem_of_allParents. left. by exists c.
    + done.
  - intros c Hc. rewrite elem_of_app, list_elem_of_bind in Hc.
    assert (Hsubs : ∀ s, s ∈ subagents convs →
              ∃ c0, c0 ∈ convs ∧ same_conversation s c0 ∧ g_isStub s = g_isStub c0).
    { intros s Hs. apply list_elem_of_filter in Hs as [_ Hs]. by exists s. }
    destruct Hc as [(parent & Hc & Hparent)|Hc].
    + apply elem_of_cons in Hc as [->|Hc].
      * apply elem_of_allParents in Hparent as [(c0 & Hc0 & Hn & ->)|Hstub].
        -- left. by exists c0.
        -- right. apply elem_of_parentStubs in Hstub
             as (Hb & p & c0 & s & Hs & Hsub & Hp & _ & Hnone & Hg & ->).
           split; [done|]. split; [done|]. by exists p, c0, s.
      * left. apply Hsubs. rewrite childSubagents_Permutation in Hc.
        by apply list_elem_of_filter in Hc as [_ ?].
    + left. apply Hsubs. unfold orphanSubagents in Hc.
      by apply list_elem_of_filter in Hc as [_ ?].
Qed.

Lemma occurrences_omap {A} (f : A → option (list N)) (k : list N) (l : list A) :
  occurrences k (omap f l) = Z.of_nat (length (filter (λ x, f x = Some k) l)).
Proof.
  unfold occurrences. induction l as [|x l IH]; [done|].
  rewrite omap_cons_option_list. destruct (f x) as [y|] eqn:E.
  - change (option_list (Some y) ++ omap f l) with (y :: omap f l).
    destruct (decide (y = k)) as [->|Hne].
    + rewrite (filter_cons_True (λ x, f x = Some k)) by done.
      rewrite filter_cons_True by done. rewrite !length_cons. lia.
    + rewrite (filter_cons_False (λ x, f x = Some k)) by congruence.
      by rewrite filter_cons_False by done.
  - rewrite (filter_cons_False (λ x, f x = Some k)) by congruence. exact IH.
Qed.

Lemma subagentCounts_count {rest : Type} (convs : list (conv rest)) (k : list N) :
  count_of k (subagentCounts convs)
  = Z.of_nat (length (filter (λ s, or_null (g_parentId s) = Some k) (subagents convs))).
Proof.
  unfold subagentCounts. rewrite <-occurrences_omap.
  assert (E : ∀ l t,
            foldl (λ counts (s : conv rest),
                     match or_null (g_parentId s) with
                     | Some p => bump p counts
                     | None => counts
                     end) t l
            = foldl (λ t n, bump n t) t (omap (λ s, or_null (g_parentId s)) l)).
  { induction l as [|s l IH]; intros t; [done|].
    rewrite omap_cons_option_list, foldl_app. cbn [foldl]. rewrite IH.
    by destruct (or_null (g_parentId s)). }
  rewrite E, count_of_fold_bump. simpl. lia.
Qed.

Lemma or_null_Some_iff (o : option (list N)) (k : list N) :
  k ≠ [] → or_null o = Some k ↔ o = Some k.
Proof.
  intros Hk. destruct o as [[|c q]|]; simpl; split; intros E; by simplify_eq.
Qed.

Lemma length_childSubagents {rest : Type} (convs : list (conv rest)) (parent : conv rest) :
  g_id parent ≠ [] →
  Z.of_nat (length (childSubagents convs parent))
  = count_of (g_id parent) (subagentCounts convs).
Proof.
  intros Hid. rewrite subagentCounts_count, childSubagents_Permutation.
  do 2 f_equal. apply list_filter_iff. intros s. by rewrite or_null_Some_iff.
Qed.

(** X21.  The badge count agrees with what is listed.  When no parent
    id is a name that an empty object already answers and the store
    answers a lookup with the conversation of that id, every parent of
    the grouped result that has an id and subagents listed under it
    carries their number as its count; and every stub has at least one
    subagent listed under it. *)
Theorem grouping_badge_count {rest : Type} (backend : bool)
    (getConversation : list N → option (conv rest)) (convs : list (conv rest)) :
  Forall (λ s, default [] (g_parentId s) ∉ inherited) convs →
  (∀ p c0, getConversation p = Some c0 → g_id c0 = p) →
  (∀ parent, parent ∈ allParents backend getConversation convs →
     g_id parent ≠ [] →
     childSubagents convs parent ≠ [] →
     g_subagentCount parent = Some (Z.of_nat (length (childSubagents convs parent))))
  ∧ (∀ stub, stub ∈ parentStubs backend getConversation convs →
       childSubagents convs stub ≠ []
       ∧ g_subagentCount stub = Some (Z.of_nat (length (childSubagents convs stub)))).
Proof.
  intros _ Hstore.
  assert (Hpos : ∀ parent, g_id parent ≠ [] → childSubagents convs parent ≠ [] →
            0 < count_of (g_id parent) (subagentCounts convs)).
  { intros parent Hid Hne. rewrite <-length_childSubagents by done.
    destruct (childSubagents convs parent); [done|]. rewrite length_cons. lia. }
  assert (Hstub : ∀ stub, stub ∈ parentStubs backend getConversation convs →
            g_id stub ≠ [] ∧ childSubagents convs stub ≠ []
            ∧ g_subagentCount stub
              = Some (Z.of_nat (length (childSubagents convs stub)))).
  { intros stub Hin.
    apply (elem_of_parentStubs backend getConversation) in Hin
      as (_ & p & c0 & s & Hs & Hsub & Hp & Hpne' & _ & Hg & ->).
    set (stub := with_count _ true c0).
    assert (Hid : g_id stub = p) by (subst stub; simpl; by apply Hstore).
    assert (Hchild : s ∈ childSubagents convs stub).
    { rewrite childSubagents_Permutation. apply list_elem_of_filter.
      split; [by rewrite Hid|]. by apply list_elem_of_filter. }
    assert (Hne : childSubagents convs stub ≠ []).
    { intros E. rewrite E in Hchild. by apply elem_of_nil in Hchild. }
    assert (Hpne : g_id stub ≠ []).
    { by rewrite Hid. }
    split; [done|]. split; [done|].
    specialize (Hpos _ Hpne Hne). rewrite length_childSubagents by done.
    rewrite Hid in *. subst stub. simpl. unfold num_or.
    destruct (count_of p (subagentCounts convs) =? 0) eqn:E0;
      [apply Z.eqb_eq in E0; lia|]. done. }
  split.
  - intros parent Hin Hid Hne.
    apply elem_of_allParents in Hin as [(c0 & Hc0 & Hn & ->)|Hin].
    + specialize (Hpos _ Hid Hne). rewrite length_childSubagents by done.
      simpl in *. unfold num_or.
      destruct (count_of (g_id c0) (subagentCounts convs) =? 0) eqn:E0;
        [apply Z.eqb_eq in E0; lia|].
      by rewrite E0.
    + by destruct (Hstub _ Hin) as (_ & _ & ?).
  - intros stub Hin. by destruct (Hstub _ Hin) as (_ & ? & ?).
Qed.

(** Two subagents match, their parent does not: it comes as a stub. *)
Lemma grouping_badge_count_witness :
  Forall (λ s : conv unit, default [] (g_parentId s) ∉ inherited)
    [result_older; result_newer]
  ∧ (∀ p c0, result_store p = Some c0 → g_id c0 = p)
  ∧ parentStubs true result_store [result_older; result_newer]
    = [with_count 2 true result_parent]
  ∧ g_subagentCount (with_count 2 true result_parent)
    = Some (Z.of_nat (length (childSubagents [result_older; result_newer]
                                (with_count 2 true result_parent)))).
Proof.
  assert (H1 : Forall (λ s : conv unit, default [] (g_parentId s) ∉ inherited)
                 [result_older; result_newer]).
  { apply (bool_decide_unpack _). by vm_compute. }
  assert (H2 : ∀ p c0, result_store p = Some c0 → g_id c0 = p).
  { intros p c0. unfold result_store. case_bool_decide; intros E; by simplify_eq. }
  assert (E : parentStubs true result_store [result_older; result_newer]
              = [with_count 2 true result_parent]) by (by vm_compute).
  split; [exact H1|]. split; [exact H2|]. split; [exact E|].
  apply (proj2 (grouping_badge_count true result_store
                  [result_older; result_newer] H1 H2)).
  rewrite E. by left.
Defined.

(** * Further properties of the search and of the removal *)

(** X22.  For a query that is not blank, the search without snippets
    answers what the search with snippets answers, less the snippet and
    the search term: the same conversations with the same scores in the
    same order, whether the FTS engine answers or fails. *)
Theorem searchConversations_of_snippets {score : Type}
    (toUpperCase : list N → list N)
    (fts5 : list fts_row → list N → option (list (fts_row * score * list N)))
    (query : list N) (o : options) (db : DB) :
  ¬ Forall (λ c, is_space c = true) query →
  searchConversations toUpperCase fts5 query o db
  = (λ s, SearchResult (sr_conversation s) (sr_relevance s) None None)
      <$> searchConversationsWithSnippets toUpperCase fts5 query o db.
Proof.
  intros Hq. apply is_blank_false in Hq.
  unfold searchConversationsWithSnippets, searchConversations. rewrite Hq.
  destruct (ranked fts5 query o db) as [rows|].
  - by rewrite <-list_fmap_compose.
  - unfold listing. by rewrite <-list_fmap_compose.
Qed.

Lemma searchConversations_of_snippets_witness :
  ¬ Forall (λ c, is_space c = true) (str "child")
  ∧ searchConversations ascii_upper every_row_fts5 (str "child") no_options family_db
    = (λ s, SearchResult (sr_conversation s) (sr_relevance s) None None)
        <$> searchConversationsWithSnippets ascii_upper every_row_fts5 (str "child")
              no_options family_db.
Proof.
  assert (H : ¬ Forall (λ c, is_space c = true) (str "child")).
  { intros H. apply is_blank_spec in H. by vm_compute in H. }
  split; [exact H|]. by apply searchConversations_of_snippets.
Defined.

Lemma process_file_keeps_db (dir : list N) (files : list file_obs) (ps : pass_state) :
  Forall (λ f, ∃ st, fo_stat f = Some st
                     ∧ needsIndexing (fo_path f) (st_mtime st) (st_size st) (p_db ps)
                       = false) files →
  p_db (foldl (process_file dir) ps files) = p_db ps.
Proof.
  intros Hall. apply process_file_fold_skips. by apply Forall_forall.
Qed.

Lemma removeFile_no_new_id (cid p : list N) (db : DB) :
  filter (λ r, r_id r = cid) (conversations db) = [] →
  filter (λ r, r_id r = cid) (conversations (removeFile p db)) = [].
Proof.
  intros Hnone. apply filter_none. intros r Hr Hid.
  assert (Hin : ∃ r0, r0 ∈ conversations db ∧ r_id r0 = r_id r).
  { unfold removeFile, delete_file, set_file_index in Hr. cbn [conversations] in Hr.
    destruct (conversation_at p db) as [conv|]; [|by exists r].
    unfold delete_conversation in Hr.
    rewrite conversations_delete_conversations_where in Hr.
    apply list_elem_of_filter in Hr as [_ Hr]. simpl in Hr.
    apply list_elem_of_fmap in Hr as (r0 & -> & Hr0).
    exists r0. split; [done|]. by rewrite clear_parent_id. }
  destruct Hin as (r0 & Hr0 & Hid0).
  assert (r0 ∈ filter (λ r, r_id r = cid) (conversations db)) as Hf.
  { apply list_elem_of_filter. split; [congruence|done]. }
  rewrite Hnone in Hf. by apply elem_of_nil in Hf.
Qed.

Lemma filter_id_nil (cid : list N) (rows : list conversation_row) :
  filter (λ r, r_id r = cid) rows = [] ↔ cid ∉ r_id <$> rows.
Proof.
  split.
  - intros Hnone (r & E & Hr)%list_elem_of_fmap.
    assert (r ∈ filter (λ r, r_id r = cid) rows) as Hf
      by (by apply list_elem_of_filter).
    rewrite Hnone in Hf. by apply elem_of_nil in Hf.
  - intros Hout. apply filter_none. intros r Hr E. apply Hout.
    apply list_elem_of_fmap. by exists r.
Qed.

Lemma step_db_fold_ids (ss : list (list N * conversation_row)) (db : DB) :
  r_id <$> conversations (foldl step_db db ss) = r_id <$> conversations db.
Proof.
  revert db. induction ss as [|s ss IH]; intros db; [done|].
  cbn [foldl]. rewrite IH. unfold step_db. case_bool_decide; [|done].
  simpl. rewrite <-list_fmap_compose. apply list_fmap_ext. intros i r _. simpl.
  by case_bool_decide.
Qed.

Lemma resolveEncodedProjectNames_ids (db : DB) :
  r_id <$> conversations (resolveEncodedProjectNames db).1.1 = r_id <$> conversations db.
Proof.
  unfold resolveEncodedProjectNames. rewrite resolve_folder_fold. apply step_db_fold_ids.
Qed.

Lemma remove_deleted_fold_no_new_id (cid : list N) (paths : list (list N)) (ps : pass_state) :
  filter (λ r, r_id r = cid) (conversations (p_db ps)) = [] →
  filter (λ r, r_id r = cid) (conversations (p_db (foldl remove_deleted ps paths))) = [].
Proof.
  revert ps. induction paths as [|q paths IH]; intros ps Hnone; [done|].
  cbn [foldl]. apply IH. unfold remove_deleted. cbn [p_db].
  by apply removeFile_no_new_id.
Qed.

(** X23.  [removeConversation] deletes the session and leaves the rest
    as it is: the other sessions keep their rows, a [parent_id] that
    names the deleted session included, and the tracking rows stay.  So
    a pass that finds every discovered file tracked with its present
    modification time and size indexes nothing, and the session stays
    deleted although its file is still there. *)
Theorem removeConversation_stays (cid : list N) (db : DB) (dir : list N)
    (files : list file_obs) :
  Forall (λ f, ∃ st, fo_stat f = Some st
                     ∧ needsIndexing (fo_path f) (st_mtime st) (st_size st) db = false)
    files →
  conversations (removeConversation cid db)
  = filter (λ r, r_id r ≠ cid) (conversations db)
  ∧ file_index (removeConversation cid db) = file_index db
  ∧ getConversation cid (removeConversation cid db) = None
  ∧ filesIndexed (runFullIndex dir files (removeConversation cid db)).2 = 0
  ∧ getConversation cid (runFullIndex dir files (removeConversation cid db)).1 = None.
Proof.
  intros Hall.
  assert (Ec : conversations (removeConversation cid db)
               = filter (λ r, r_id r ≠ cid) (conversations db)).
  { unfold removeConversation, delete_conversation.
    rewrite conversations_delete_conversations_where. simpl.
    apply list_filter_iff. intros r. by rewrite bool_decide_eq_false. }
  assert (Ei : file_index (removeConversation cid db) = file_index db).
  { unfold removeConversation, delete_conversation.
    by rewrite file_index_delete_conversations_where. }
  assert (Hnone : filter (λ r, r_id r = cid) (conversations (removeConversation cid db))
                  = []).
  { rewrite Ec. apply (filter_eq_of_filter_ne r_id). }
  split; [done|]. split; [done|]. split.
  { unfold getConversation. by rewrite Hnone. }
  assert (Hskip : ∀ f, f ∈ files →
            ∃ st, fo_stat f = Some st
                  ∧ needsIndexing (fo_path f) (st_mtime st) (st_size st)
                      (removeConversation cid db) = false).
  { intros f Hf. rewrite Forall_forall in Hall.
    destruct (Hall f Hf) as (st & Hst & Hn). exists st. split; [done|].
    unfold needsIndexing in *. by rewrite Ei. }
  unfold runFullIndex. cbn zeta. cbn [fst snd filesIndexed].
  set (ps0 := PassState (removeConversation cid db) _ _).
  destruct (process_file_fold_skips dir files ps0 Hskip) as (Ed & Ex & _).
  set (ps1 := foldl (process_file dir) ps0 files) in *.
  destruct (remove_deleted_fold ps1 (p_indexedPaths ps1)) as (G1 & _).
  cbn zeta in G1. rewrite G1, Ex. split; [done|].
  unfold getConversation.
  assert (filter (λ r, r_id r = cid)
            (conversations (resolveEncodedProjectNames
               (p_db (foldl remove_deleted ps1 (p_indexedPaths ps1)))).1.1) = []) as ->;
    [|done].
  apply filter_id_nil. rewrite resolveEncodedProjectNames_ids. apply filter_id_nil.
  apply remove_deleted_fold_no_new_id. by rewrite Ed.
Qed.

(** The first session of the two-session store is deleted; the pass
    finds its file unchanged. *)
Lemma removeConversation_stays_witness :
  Forall (λ f, ∃ st, fo_stat f = Some st
                     ∧ needsIndexing (fo_path f) (st_mtime st) (st_size st)
                         (runFullIndex projects_dir [root_file] empty_db).1 = false)
    [root_file]
  ∧ is_Some (getConversation (str "s1")
               (runFullIndex projects_dir [root_file] empty_db).1)
  ∧ getConversation (str "s1")
      (runFullIndex projects_dir [root_file]
         (removeConversation (str "s1")
            (runFullIndex projects_dir [root_file] empty_db).1)).1 = None.
Proof.
  assert (H : Forall (λ f, ∃ st, fo_stat f = Some st
                ∧ needsIndexing (fo_path f) (st_mtime st) (st_size st)
                    (runFullIndex projects_dir [root_file] empty_db).1 = false)
                [root_file]).
  { apply Forall_cons. split; [|apply Forall_nil_2].
    eexists. split; [reflexivity|]. by vm_compute. }
  split; [exact H|]. split; [vm_compute; by eexists|].
  apply (removeConversation_stays (str "s1") _ projects_dir [root_file] H).
Defined.

(** ** Files of the same name *)

Lemma conversation_of_id (dir path : list N) (st : file_stats) (parsed : parse_result) :
  _detectSubagent path = (false, None) →
  o_id (conversation_of dir path st parsed)
  = replace_first (str ".jsonl") [] (basename path)
  ∧ o_filePath (conversation_of dir path st parsed) = path.
Proof. intros E. unfold conversation_of. by rewrite E. Qed.

(** X24.  The id of a regular session is the base name of its file
    without [.jsonl], whatever the folder.  So two regular log files of
    the same name in different folders share one session: after both
    are indexed the store holds the session of the second, none for the
    first, and still tracks the first, which a later pass therefore
    skips as long as it does not change, when its modification time is
    not zero. *)
Theorem same_name_one_session (dir : list N) (f1 f2 : file_obs) (st1 st2 : file_stats)
    (lines1 lines2 : list line) (db : DB) :
  fo_lines f1 = Some lines1 → fo_lines f2 = Some lines2 →
  _detectSubagent (fo_path f1) = (false, None) →
  _detectSubagent (fo_path f2) = (false, None) →
  basename (fo_path f1) = basename (fo_path f2) →
  fo_path f1 ≠ fo_path f2 →
  ∃ db1 db2 o,
    _indexFile dir f1 st1 db = Some db1
    ∧ _indexFile dir f2 st2 db1 = Some db2
    ∧ getConversation (replace_first (str ".jsonl") [] (basename (fo_path f1))) db2
      = Some o
    ∧ v_filePath o = fo_path f2
    ∧ conversation_at (fo_path f1) db2 = None
    ∧ (st_mtime st1 ≠ 0 →
       needsIndexing (fo_path f1) (st_mtime st1) (st_size st1) db2 = false).
Proof.
  intros Hl1 Hl2 Hs1 Hs2 Hname Hpath.
  set (c1 := conversation_of dir (fo_path f1) st1 (_parseJsonlStreaming lines1)).
  set (db1 := upsertConversation c1 (searchableContent (_parseJsonlStreaming lines1))
                (fo_now f1) db).
  set (c2 := conversation_of dir (fo_path f2) st2 (_parseJsonlStreaming lines2)).
  destruct (conversation_of_id dir (fo_path f1) st1 (_parseJsonlStreaming lines1) Hs1)
    as [Eid1 Ep1].
  destruct (conversation_of_id dir (fo_path f2) st2 (_parseJsonlStreaming lines2) Hs2)
    as [Eid2 Ep2].
  fold c1 in Eid1, Ep1. fold c2 in Eid2, Ep2.
  assert (Eid : o_id c2 = o_id c1) by (by rewrite Eid1, Eid2, Hname).
  exists db1, (upsertConversation c2 (searchableContent (_parseJsonlStreaming lines2))
                 (fo_now f2) db1),
    (_rowToConversation (row_of_conversation c2 (fo_now f2))).
  split; [by apply indexFile_readable|]. split; [by apply indexFile_readable|]. split.
  { unfold getConversation. rewrite upsertConversation_rows_of_id.
    rewrite decide_True; [done|]. by rewrite Eid, Eid1. }
  split; [done|]. split.
  - apply conversation_at_None. intros r Hr Hp.
    rewrite upsertConversation_conversations in Hr.
    apply elem_of_app in Hr as [Hr|Hr].
    + apply list_elem_of_filter in Hr as [Hf Hr].
      apply orb_false_iff in Hf as [Hid _]. apply bool_decide_eq_false in Hid.
      subst db1. rewrite upsertConversation_conversations in Hr.
      apply elem_of_app in Hr as [Hr|Hr].
      * apply list_elem_of_filter in Hr as [Hf _].
        apply orb_false_iff in Hf as [_ Hf]. apply bool_decide_eq_false in Hf.
        apply Hf. by rewrite Ep1.
      * apply list_elem_of_singleton in Hr. subst r. apply Hid. by rewrite Eid.
    + apply list_elem_of_singleton in Hr. subst r. simpl in Hp. congruence.
  - intros Hm. apply needsIndexing_false_iff.
    rewrite upsertConversation_file_index, lookup_insert_ne by congruence.
    subst db1. rewrite upsertConversation_file_index, Ep1.
    eexists. split; [apply lookup_insert_eq|].
    simpl. unfold num_or. split.
    + destruct (st_mtime st1 =? 0) eqn:E0; [apply Z.eqb_eq in E0|]; done.
    + by destruct (st_size st1 =? 0) eqn:E0; [apply Z.eqb_eq in E0|].
Qed.

Lemma same_name_one_session_witness :
  basename (fo_path root_file) = basename (fo_path namesake_file)
  ∧ fo_path root_file ≠ fo_path namesake_file
  ∧ ∃ db1 db2 o,
      _indexFile projects_dir root_file (FileStats 1700000000000 120 1690000000000)
        empty_db = Some db1
      ∧ _indexFile projects_dir namesake_file (FileStats 1700000000900 64 1690000000900)
          db1 = Some db2
      ∧ getConversation (str "s1") db2 = Some o
      ∧ v_filePath o = fo_path namesake_file
      ∧ conversation_at (fo_path root_file) db2 = None
      ∧ needsIndexing (fo_path root_file) 1700000000000 120 db2 = false.
Proof.
  assert (Hn : basename (fo_path root_file) = basename (fo_path namesake_file))
    by (by vm_compute).
  assert (Hp : fo_path root_file ≠ fo_path namesake_file).
  { apply (bool_decide_unpack _). by vm_compute. }
  split; [exact Hn|]. split; [exact Hp|].
  destruct (same_name_one_session projects_dir root_file namesake_file
              (FileStats 1700000000000 120 1690000000000)
              (FileStats 1700000000900 64 1690000000900) _ _ empty_db
              eq_refl eq_refl eq_refl eq_refl Hn Hp)
    as (db1 & db2 & o & E1 & E2 & E3 & E4 & E5 & E6).
  exists db1, db2, o. repeat split; try done. by apply E6.
Defined.

(** * Further properties of the project names *)

(** X25.  Resolving the project names a second time changes nothing
    and reports nothing resolved, when session ids are distinct. *)
Theorem resolveEncodedProjectNames_twice (db : DB) :
  NoDup (r_id <$> conversations db) →
  resolveEncodedProjectNames (resolveEncodedProjectNames db).1.1
  = ((resolveEncodedProjectNames db).1.1, 0, 0).
Proof.
  intros Hnd. destruct (resolveEncodedProjectNames_tables db Hnd) as (Ec & _).
  unfold resolveEncodedProjectNames at 1. apply resolve_folder_noop.
  unfold folderData. rewrite folderData_spec, Ec.
  apply Forall_fmap, Forall_forall. intros folder _ name. simpl.
  rewrite canonicalName_spec, canonical_resolved. intros Hname.
  rewrite group_resolved, Hname. apply Forall_fmap, Forall_forall. by intros r _.
Qed.

Lemma resolveEncodedProjectNames_twice_witness :
  NoDup (r_id <$> conversations project_db)
  ∧ (resolveEncodedProjectNames project_db).1.2 = 1
  ∧ resolveEncodedProjectNames (resolveEncodedProjectNames project_db).1.1
    = ((resolveEncodedProjectNames project_db).1.1, 0, 0).
Proof.
  assert (H : NoDup (r_id <$> conversations project_db)).
  { apply (bool_decide_unpack _). by vm_compute. }
  split; [exact H|]. split; [by vm_compute|].
  by apply resolveEncodedProjectNames_twice.
Defined.

(** * Further properties of the paths *)

Lemma split_app_sep (sep : N) (a b : list N) :
  sep ∉ a → split sep (a ++ sep :: b) = a :: split sep b.
Proof.
  induction a as [|c a IH]; intros Ha.
  - simpl. by rewrite N.eqb_refl.
  - apply not_elem_of_cons in Ha as [Hc Ha]. simpl.
    destruct (N.eqb_spec c sep) as [->|_]; [done|]. by rewrite IH.
Qed.

Lemma split_no_sep (sep : N) (a : list N) : sep ∉ a → split sep a = [a].
Proof.
  induction a as [|c a IH]; intros Ha; [done|].
  apply not_elem_of_cons in Ha as [Hc Ha]. simpl.
  destruct (N.eqb_spec c sep) as [->|_]; [done|]. by rewrite IH.
Qed.

Lemma split_join (sep : N) (parts : list (list N)) :
  parts ≠ [] → Forall (λ p, sep ∉ p) parts → split sep (join [sep] parts) = parts.
Proof.
  intros Hne Hall. induction Hall as [|p parts Hp Hall IH]; [done|].
  destruct parts as [|q parts].
  - simpl. by apply split_no_sep.
  - change (join [sep] (p :: q :: parts)) with (p ++ sep :: join [sep] (q :: parts)).
    rewrite split_app_sep by done. by rewrite IH.
Qed.

Lemma join_snoc (sep : list N) (parts : list (list N)) (x : list N) :
  parts ≠ [] → join sep (parts ++ [x]) = join sep parts ++ sep ++ x.
Proof.
  induction parts as [|p parts IH]; intros Hne; [done|].
  destruct parts as [|q parts]; [done|].
  change (join sep ((p :: q :: parts) ++ [x]))
    with (p ++ sep ++ join sep ((q :: parts) ++ [x])).
  rewrite IH by done.
  change (join sep (p :: q :: parts)) with (p ++ sep ++ join sep (q :: parts)).
  by rewrite <-!app_assoc.
Qed.

Lemma indexOf_app (x : list N) (pre rest : list (list N)) :
  x ∉ pre → indexOf x (pre ++ x :: rest) = Some (length pre).
Proof.
  induction pre as [|y pre IH]; intros Hx.
  - simpl. by rewrite bool_decide_eq_true_2.
  - apply not_elem_of_cons in Hx as [Hy Hx]. simpl.
    rewrite bool_decide_eq_false_2 by congruence. by rewrite IH.
Qed.

Lemma indexOf_None (x : list N) (l : list (list N)) : x ∉ l → indexOf x l = None.
Proof.
  induction l as [|y l IH]; intros Hx; [done|].
  apply not_elem_of_cons in Hx as [Hy Hx]. simpl.
  rewrite bool_decide_eq_false_2 by congruence. by rewrite IH.
Qed.

Lemma take_while_app {A} (p : A → bool) (l : list A) (x : A) (l' : list A) :
  Forall (λ y, p y = true) l → p x = false → take_while p (l ++ x :: l') = l.
Proof.
  intros Hl Hx. induction Hl as [|y l Hy _ IH]; simpl.
  - by rewrite Hx.
  - by rewrite Hy, IH.
Qed.

Lemma basename_app (a file : list N) :
  slash ∉ file → file ≠ [] → basename (a ++ slash :: file) = file.
Proof.
  intros Hs Hne. unfold basename.
  rewrite reverse_app, reverse_cons, <-app_assoc.
  assert (Hr : Forall (λ c, negb (c =? slash)%N = true) (reverse file)).
  { apply Forall_forall. intros c Hc. rewrite elem_of_reverse in Hc.
    destruct (N.eqb_spec c slash) as [->|_]; done. }
  assert (Ed : ∀ l, drop_while (λ c, (c =? slash)%N) (reverse file ++ l)
                    = reverse file ++ l).
  { intros l. destruct (reverse file) as [|c r] eqn:Er.
    - apply (f_equal reverse) in Er. rewrite reverse_involutive in Er. done.
    - apply Forall_cons_1 in Hr as [Hc _]. simpl.
      by destruct (c =? slash)%N. }
  rewrite Ed. simpl. rewrite take_while_app; [apply reverse_involutive|done|].
  by rewrite N.eqb_refl.
Qed.

Lemma subagent_path_facts (pre : list (list N)) (parent file : list N) :
  Forall (λ p, (slash ∉ p) ∧ p ≠ str "subagents") (pre ++ [parent]) →
  slash ∉ file → file ≠ [] →
  _detectSubagent (subagent_path pre parent file) = (true, Some parent)
  ∧ basename (subagent_path pre parent file) = file.
Proof.
  intros Hpre Hfile Hne. split.
  - unfold _detectSubagent, subagent_path, path_of. rewrite split_join.
    + replace (pre ++ [parent; str "subagents"; file])
        with ((pre ++ [parent]) ++ str "subagents" :: [file])
        by (by rewrite <-app_assoc).
      rewrite indexOf_app.
      * rewrite length_app, Nat.add_comm. simpl.
        rewrite <-app_assoc. f_equal. by apply list_lookup_middle.
      * intros Hin. rewrite Forall_forall in Hpre. by destruct (Hpre _ Hin).
    + by destruct pre.
    + replace (pre ++ [parent; str "subagents"; file])
        with ((pre ++ [parent]) ++ [str "subagents"; file])
        by (by rewrite <-app_assoc).
      apply Forall_app. split.
      * eapply Forall_impl; [exact Hpre|]. by intros p [? _].
      * repeat constructor; [|done]. apply (bool_decide_unpack _). by vm_compute.
  - unfold subagent_path, path_of.
    replace (pre ++ [parent; str "subagents"; file])
      with ((pre ++ [parent; str "subagents"]) ++ [file])
      by (by rewrite <-app_assoc).
    rewrite join_snoc by (by destruct pre). by apply basename_app.
Qed.

Lemma app_sep_inj (c : N) (a a' b b' : list N) :
  c ∉ a → c ∉ a' → a ++ c :: b = a' ++ c :: b' → a = a' ∧ b = b'.
Proof.
  revert a'. induction a as [|x a IH]; intros [|x' a'] Ha Ha' E; simpl in E.
  - by simplify_eq.
  - simplify_eq. exfalso. apply Ha'. by left.
  - simplify_eq. exfalso. apply Ha. by left.
  - apply not_elem_of_cons in Ha as [_ Ha]. apply not_elem_of_cons in Ha' as [_ Ha'].
    simplify_eq. destruct (IH a' Ha Ha' H0) as [-> ->]. done.
Qed.

(** X26.  A log at the documented place of a subagent,
    [.../{parent}/subagents/{file}], where no earlier segment is named
    [subagents], is detected as the subagent of [parent]; the session
    built from it is marked as such, names [parent] as its parent and
    has the id [{parent}_{file without .jsonl}]. *)
Theorem subagent_layout (dir : list N) (pre : list (list N)) (parent file : list N)
    (st : file_stats) (parsed : parse_result) :
  Forall (λ p, (slash ∉ p) ∧ p ≠ str "subagents") (pre ++ [parent]) →
  slash ∉ file → file ≠ [] → parent ≠ [] →
  _detectSubagent (subagent_path pre parent file) = (true, Some parent)
  ∧ o_isSubagent (conversation_of dir (subagent_path pre parent file) st parsed) = true
  ∧ o_parentId (conversation_of dir (subagent_path pre parent file) st parsed)
    = Some parent
  ∧ o_id (conversation_of dir (subagent_path pre parent file) st parsed)
    = parent ++ str "_" ++ replace_first (str ".jsonl") [] file.
Proof.
  intros Hpre Hfile Hne Hparent.
  destruct (subagent_path_facts pre parent file Hpre Hfile Hne) as [Hdetect Hbase].
  split; [done|]. unfold conversation_of. rewrite Hdetect, Hbase. simpl.
  split; [done|]. split; [done|]. by destruct parent.
Qed.

Lemma subagent_layout_witness :
  Forall (λ p, (slash ∉ p) ∧ p ≠ str "subagents") ([str ""; str "test"] ++ [str "parent-to-remove"])
  ∧ subagent_path [str ""; str "test"] (str "parent-to-remove") (str "agent-1.jsonl")
    = str "/test/parent-to-remove/subagents/agent-1.jsonl"
  ∧ o_id (conversation_of projects_dir
            (subagent_path [str ""; str "test"] (str "parent-to-remove")
               (str "agent-1.jsonl"))
            (FileStats 1 2 3) (_parseJsonlStreaming []))
    = str "parent-to-remove_agent-1".
Proof.
  assert (H : Forall (λ p, (slash ∉ p) ∧ p ≠ str "subagents")
                ([str ""; str "test"] ++ [str "parent-to-remove"])).
  { apply (bool_decide_unpack _). by vm_compute. }
  split; [exact H|]. split; [by vm_compute|].
  refine (eq_trans (proj2 (proj2 (proj2 (subagent_layout projects_dir [str ""; str "test"]
            (str "parent-to-remove") (str "agent-1.jsonl") (FileStats 1 2 3)
            (_parseJsonlStreaming []) H _ _ _)))) _).
  - apply (bool_decide_unpack _). by vm_compute.
  - done.
  - done.
  - by vm_compute.
Defined.

(** X27.  Subagent ids do not collide across parents: of two logs at
    the documented place of a subagent whose parent ids hold no
    underscore, the sessions have the same id only when the parent is
    the same and the file names agree up to [.jsonl]. *)
Theorem subagent_ids_distinct (dir : list N) (pre1 pre2 : list (list N))
    (parent1 parent2 file1 file2 : list N) (st1 st2 : file_stats)
    (parsed1 parsed2 : parse_result) :
  Forall (λ p, (slash ∉ p) ∧ p ≠ str "subagents") (pre1 ++ [parent1]) →
  Forall (λ p, (slash ∉ p) ∧ p ≠ str "subagents") (pre2 ++ [parent2]) →
  slash ∉ file1 → file1 ≠ [] → parent1 ≠ [] → underscore ∉ parent1 →
  slash ∉ file2 → file2 ≠ [] → parent2 ≠ [] → underscore ∉ parent2 →
  o_id (conversation_of dir (subagent_path pre1 parent1 file1) st1 parsed1)
  = o_id (conversation_of dir (subagent_path pre2 parent2 file2) st2 parsed2) →
  parent1 = parent2
  ∧ replace_first (str ".jsonl") [] file1 = replace_first (str ".jsonl") [] file2.
Proof.
  intros Hpre1 Hpre2 Hf1 Hn1 Hp1 Hu1 Hf2 Hn2 Hp2 Hu2.
  destruct (subagent_path_facts pre1 parent1 file1 Hpre1 Hf1 Hn1) as [Hd1 Hb1].
  destruct (subagent_path_facts pre2 parent2 file2 Hpre2 Hf2 Hn2) as [Hd2 Hb2].
  unfold conversation_of. rewrite Hd1, Hb1, Hd2, Hb2. cbn [o_id fst snd].
  assert (E1 : or_null (Some parent1) = Some parent1) by (by destruct parent1).
  assert (E2 : or_null (Some parent2) = Some parent2) by (by destruct parent2).
  rewrite E1, E2. intros E.
  by apply (app_sep_inj underscore) in E.
Qed.

Lemma subagent_ids_distinct_witness :
  (underscore ∉ str "parent-a") ∧ (underscore ∉ str "parent-b")
  ∧ o_id (conversation_of projects_dir
            (subagent_path [str ""; str "test"] (str "parent-a") (str "agent-1.jsonl"))
            (FileStats 1 2 3) (_parseJsonlStreaming []))
    ≠ o_id (conversation_of projects_dir
              (subagent_path [str ""; str "test"] (str "parent-b") (str "agent-1.jsonl"))
              (FileStats 1 2 3) (_parseJsonlStreaming [])).
Proof.
  assert (Ha : underscore ∉ str "parent-a") by (apply (bool_decide_unpack _); by vm_compute).
  assert (Hb : underscore ∉ str "parent-b") by (apply (bool_decide_unpack _); by vm_compute).
  split; [exact Ha|]. split; [exact Hb|]. intros E.
  apply (subagent_ids_distinct projects_dir [str ""; str "test"] [str ""; str "test"]
           (str "parent-a") (str "parent-b") (str "agent-1.jsonl") (str "agent-1.jsonl")
           (FileStats 1 2 3) (FileStats 1 2 3) (_parseJsonlStreaming [])
           (_parseJsonlStreaming [])) in E.
  - destruct E as [E _]. by vm_compute in E.
  - apply (bool_decide_unpack _). by vm_compute.
  - apply (bool_decide_unpack _). by vm_compute.
  - apply (bool_decide_unpack _). by vm_compute.
  - done.
  - done.
  - exact Ha.
  - apply (bool_decide_unpack _). by vm_compute.
  - done.
  - done.
  - exact Hb.
Defined.

Lemma join_app (sep : list N) (parts1 parts2 : list (list N)) :
  parts1 ≠ [] → parts2 ≠ [] →
  join sep (parts1 ++ parts2) = join sep parts1 ++ sep ++ join sep parts2.
Proof.
  intros H1 H2. induction parts1 as [|p parts1 IH]; [done|].
  destruct parts1 as [|q parts1].
  - destruct parts2 as [|r parts2]; done.
  - change (join sep ((p :: q :: parts1) ++ parts2))
      with (p ++ sep ++ join sep ((q :: parts1) ++ parts2)).
    rewrite IH by done.
    change (join sep (p :: q :: parts1)) with (p ++ sep ++ join sep (q :: parts1)).
    by rewrite <-!app_assoc.
Qed.

Lemma starts_with_app (pat s : list N) : starts_with pat (pat ++ s) = true.
Proof.
  induction pat as [|c pat IH]; [done|]. simpl. by rewrite N.eqb_refl, IH.
Qed.

Lemma replace_first_prefix (pat rep s : list N) :
  replace_first pat rep (pat ++ s) = rep ++ s.
Proof.
  assert (E : replace_first pat rep (pat ++ s)
              = if starts_with pat (pat ++ s) then rep ++ drop (length pat) (pat ++ s)
                else match pat ++ s with
                     | [] => []
                     | c :: s' => c :: replace_first pat rep s'
                     end).
  { by destruct (pat ++ s). }
  by rewrite E, starts_with_app, drop_app_length.
Qed.

(** X28.  For the projects directory [.../projects], with no earlier
    segment of that name, and a log somewhere under its folder
    [folder]: the folder that the resolution of project names groups
    the session by is [folder], and the project name read off the path
    is [folder] without its first character when that is a dash (one
    dash only: the rest is not decoded). *)
Theorem project_folder_of_path (pre : list (list N)) (folder : list N)
    (rest : list (list N)) :
  Forall (λ p, (slash ∉ p) ∧ p ≠ str "projects") pre →
  Forall (λ p, slash ∉ p) (folder :: rest) → folder ≠ [] →
  encodedFolder (path_of (pre ++ [str "projects"] ++ folder :: rest)) = Some folder
  ∧ _extractProjectFromPath (path_of (pre ++ [str "projects"]))
      (path_of (pre ++ [str "projects"] ++ folder :: rest))
    = (if starts_with (str "-") folder then drop 1 folder else folder).
Proof.
  intros Hpre Hrest Hne.
  assert (Hslash : Forall (λ p, slash ∉ p) pre).
  { eapply Forall_impl; [exact Hpre|]. by intros p [? _]. }
  assert (Hprojects : slash ∉ str "projects").
  { apply (bool_decide_unpack _). by vm_compute. }
  assert (Eapp : pre ++ [str "projects"] ++ folder :: rest
                 = (pre ++ [str "projects"]) ++ folder :: rest)
    by (by rewrite <-app_assoc).
  split.
  - unfold encodedFolder, path_of. rewrite split_join.
    + change ([str "projects"] ++ folder :: rest)
        with (str "projects" :: folder :: rest).
      rewrite indexOf_app.
      * simpl. replace (S (length pre)) with (length (pre ++ [str "projects"]))
          by (rewrite length_app; simpl; lia).
        change (str "projects" :: folder :: rest)
          with ([str "projects"] ++ folder :: rest).
        rewrite Eapp. by apply list_lookup_middle.
      * intros Hin. rewrite Forall_forall in Hpre. by destruct (Hpre _ Hin).
    + by destruct pre.
    + apply Forall_app. split; [done|]. by apply Forall_cons.
  - unfold _extractProjectFromPath, path_of.
    assert (Hdir : pre ++ [str "projects"] ≠ []) by (destruct pre; simpl; done).
    rewrite Eapp, (join_app [slash] (pre ++ [str "projects"]) (folder :: rest)) by done.
    rewrite replace_first_prefix.
    change ([] ++ [slash] ++ join [slash] (folder :: rest))
      with (join [slash] ([] :: folder :: rest)).
    rewrite split_join; [|done|].
    + rewrite filter_cons_False by (by intros ?).
      rewrite filter_cons_True; [done|]. by destruct folder.
    + apply Forall_cons. split; [|done]. by intros ?%elem_of_nil.
Qed.

Lemma project_folder_of_path_witness :
  Forall (λ p, (slash ∉ p) ∧ p ≠ str "projects") [str ""; str "home"; str "u"; str ".claude"]
  ∧ path_of ([str ""; str "home"; str "u"; str ".claude"] ++ [str "projects"])
    = projects_dir
  ∧ _extractProjectFromPath projects_dir (fo_path root_file) = str "foo".
Proof.
  assert (H : Forall (λ p, (slash ∉ p) ∧ p ≠ str "projects")
                [str ""; str "home"; str "u"; str ".claude"]).
  { apply (bool_decide_unpack _). by vm_compute. }
  split; [exact H|]. split; [by vm_compute|].
  refine (eq_trans (proj2 (project_folder_of_path
            [str ""; str "home"; str "u"; str ".claude"] (str "-foo") [str "s1.jsonl"]
            H _ _)) _).
  - apply (bool_decide_unpack _). by vm_compute.
  - done.
  - by vm_compute.
Defined.

(** * Further properties of the tool rows and of the lookup *)

Lemma tools_fold_rows (cid : list N) (entries : list (list N * Z)) (db : DB) :
  NoDup entries.*1 →
  (∀ t, t ∈ tool_usage db → t_conversation_id t = cid → t_tool_name t ∉ entries.*1) →
  tool_usage (foldl (λ db e, insert_or_replace_tool (ToolRow cid e.1 e.2) db) db entries)
  = tool_usage db ++ ((λ e, ToolRow cid e.1 e.2) <$> entries).
Proof.
  revert db. induction entries as [|e entries IH]; intros db Hnd Hfresh.
  { simpl. by rewrite app_nil_r. }
  rewrite fmap_cons in Hnd. apply NoDup_cons in Hnd as [He Hnd].
  cbn [foldl]. rewrite IH; [|done|].
  - unfold insert_or_replace_tool. simpl. rewrite filter_every.
    + by rewrite <-app_assoc.
    + intros t Ht [Hid Hname]. apply (Hfresh t Ht Hid). rewrite Hname. by left.
  - intros t Ht Hid. unfold insert_or_replace_tool in Ht. simpl in Ht.
    apply elem_of_app in Ht as [Ht|Ht].
    + apply list_elem_of_filter in Ht as [_ Ht]. intros Hin.
      apply (Hfresh t Ht Hid). by right.
    + apply list_elem_of_singleton in Ht. by subst t.
Qed.

(** X29.  When the tool names of the conversation object are distinct,
    the tool rows that [upsertConversation] leaves for its id are its
    entries, one row each with the count, in their order, whatever rows
    the id had before; and no tool row is added for another id. *)
Theorem upsertConversation_tool_rows (c : conversation) (text : list N) (now : Z) (db : DB) :
  NoDup (default [] (o_tools c)).*1 →
  filter (λ t, t_conversation_id t = o_id c)
    (tool_usage (upsertConversation c text now db))
  = (λ e, ToolRow (o_id c) e.1 e.2) <$> default [] (o_tools c)
  ∧ ∀ t, t ∈ tool_usage (upsertConversation c text now db) →
         t_conversation_id t ≠ o_id c → t ∈ tool_usage db.
Proof.
  intros Hnd. unfold upsertConversation.
  set (db4 := delete_tools (o_id c) _).
  assert (Hclean : ∀ t, t ∈ tool_usage db4 → t_conversation_id t ≠ o_id c).
  { intros t Ht. subst db4. unfold delete_tools in Ht. simpl in Ht.
    by apply list_elem_of_filter in Ht as [? _]. }
  assert (Hold : ∀ t, t ∈ tool_usage db4 → t ∈ tool_usage db).
  { intros t Ht. subst db4. unfold delete_tools in Ht. simpl in Ht.
    apply list_elem_of_filter in Ht as [_ Ht].
    assert (Ht' : t ∈ tool_usage (insert_or_replace_conversation
                                    (row_of_conversation c now) db))
      by (by destruct (is_blank text)).
    clear Ht. unfold insert_or_replace_conversation in Ht'. simpl in Ht'.
    unfold delete_conversations_where in Ht'.
    destruct (foreign_keys db); simpl in Ht'; [|done].
    by apply list_elem_of_filter in Ht' as [_ ?]. }
  rewrite tools_fold_rows; [|done|].
  - split.
    + rewrite filter_app, filter_none by (intros t Ht; by apply Hclean).
      apply filter_every. intros t Ht.
      by apply list_elem_of_fmap in Ht as (e & -> & _).
    + intros t Ht Hid. apply elem_of_app in Ht as [Ht|Ht]; [by apply Hold|].
      by apply list_elem_of_fmap in Ht as (e & -> & _).
  - intros t Ht Hid. by destruct (Hclean t Ht).
Qed.

Lemma upsertConversation_tool_rows_witness :
  NoDup (default [] (o_tools parent_conv)).*1
  ∧ t_tool_name <$> filter (λ t, t_conversation_id t = o_id parent_conv)
                      (tool_usage (upsertConversation parent_conv (str "again") 3000
                                     family_db))
    = [str "Read"; str "Write"].
Proof.
  assert (H : NoDup (default [] (o_tools parent_conv)).*1).
  { apply (bool_decide_unpack _). by vm_compute. }
  split; [exact H|].
  by rewrite (proj1 (upsertConversation_tool_rows parent_conv (str "again") 3000
                       family_db H)).
Defined.

Lemma NoDup_ids_limit_offset (lim off : Z) (rows : list conversation_row) :
  NoDup (r_id <$> rows) → NoDup (r_id <$> limit_offset lim off rows).
Proof.
  intros Hnd. eapply sublist_NoDup; [exact Hnd|]. apply fmap_sublist.
  unfold limit_offset. destruct (lim <? 0).
  - apply sublist_drop.
  - etrans; [apply sublist_take|apply sublist_drop].
Qed.

(** X30.  When session ids are distinct, the listing and the lookup
    agree: no session is listed twice, and looking up the id of a
    listed conversation gives that very conversation. *)
Theorem getConversations_lookup (toUpperCase : list N → list N) (o : options) (db : DB) :
  NoDup (r_id <$> conversations db) →
  NoDup (v_id <$> getConversations toUpperCase o db)
  ∧ ∀ v, v ∈ getConversations toUpperCase o db → getConversation (v_id v) db = Some v.
Proof.
  intros Hnd. unfold getConversations. cbn zeta.
  set (rows := match or_null (opt_project o) with
               | Some p => filter (λ r, r_project r = Some p) _
               | None => _
               end).
  assert (Hsub : NoDup (r_id <$> rows) ∧ ∀ r, r ∈ rows → r ∈ conversations db).
  { subst rows. destruct (or_null (opt_project o));
      destruct (default false (includeSubagents o)); split;
      repeat apply NoDup_ids_filter; try done;
      intros r Hr; repeat (apply list_elem_of_filter in Hr as [_ Hr]); done. }
  destruct Hsub as [Hnd' Hin]. split.
  - rewrite <-list_fmap_compose.
    change (v_id ∘ _rowToConversation) with r_id.
    apply NoDup_ids_limit_offset. by rewrite sort_Permutation.
  - intros v Hv. apply list_elem_of_fmap in Hv as (r & -> & Hr).
    assert (Hr' : r ∈ conversations db).
    { apply Hin. eapply (Forall_forall (λ r, r ∈ rows)); [|exact Hr].
      apply Forall_limit_offset, Forall_sort. by apply Forall_forall. }
    unfold getConversation.
    change (v_id (_rowToConversation r)) with (r_id r).
    by rewrite (filter_unique r_id (conversations db) r Hnd Hr').
Qed.

Lemma getConversations_lookup_witness :
  NoDup (r_id <$> conversations family_db)
  ∧ NoDup (v_id <$> getConversations ascii_upper no_options family_db)
  ∧ ∀ v, v ∈ getConversations ascii_upper no_options family_db →
         getConversation (v_id v) family_db = Some v.
Proof.
  assert (H : NoDup (r_id <$> conversations family_db)).
  { apply (bool_decide_unpack _). by vm_compute. }
  split; [exact H|]. by apply getConversations_lookup.
Defined.

(** * Project names by the folders under the projects root *)

Lemma filter_ext_elem {A} (P Q : A → Prop) `{∀ x, Decision (P x)} `{∀ x, Decision (Q x)}
    (l : list A) :
  (∀ x, x ∈ l → P x ↔ Q x) → filter P l = filter Q l.
Proof.
  induction l as [|x l IH]; intros HPQ; [done|].
  rewrite !filter_cons, IH by (intros y Hy; apply HPQ; by right).
  destruct (HPQ x (ltac:(by left))). repeat case_decide; tauto.
Qed.

(** Where no segment above the root is named [projects], the folder
    that the code computes for a log under the root is the segment
    immediately under the root. *)
Lemma encodedFolder_under_root (pre : list (list N)) (path : list N) :
  str "projects" ∉ pre →
  under_root (pre ++ [str "projects"]) path →
  encodedFolder path = folder_under (pre ++ [str "projects"]) path.
Proof.
  intros Hpre Hunder. unfold folder_under. rewrite bool_decide_eq_true_2 by done.
  unfold under_root in Hunder. unfold encodedFolder. cbn zeta.
  pose proof (take_drop (length (pre ++ [str "projects"])) (split slash path)) as E.
  rewrite Hunder in E.
  remember (drop (length (pre ++ [str "projects"])) (split slash path)) as rest eqn:Hr.
  clear Hr Hunder. rewrite <-E, <-app_assoc.
  change ([str "projects"] ++ rest) with (str "projects" :: rest).
  rewrite indexOf_app by done. simpl.
  by rewrite length_app, Nat.add_comm.
Qed.

Lemma group_under_root (pre : list (list N)) (folder : list N) (rows : list conversation_row) :
  str "projects" ∉ pre →
  Forall (λ r, under_root (pre ++ [str "projects"]) (r_file_path r)) rows →
  group folder rows = root_group (pre ++ [str "projects"]) folder rows.
Proof.
  intros Hpre Hrows. unfold group, root_group, folder_of.
  apply filter_ext_elem. intros r Hr. rewrite Forall_forall in Hrows.
  by rewrite (encodedFolder_under_root pre _ Hpre (Hrows r Hr)).
Qed.

(** In a database that the store produced a cwd is absent or not
    empty. *)
Lemma reachable_cwd (db : DB) :
  reachable db → Forall (λ r, or_null (r_cwd r) = r_cwd r) (conversations db).
Proof.
  induction 1 as [fk|c text now db Hre IH|cid db Hre IH|p db Hre IH|db Hre IH].
  - constructor.
  - rewrite upsertConversation_conversations. apply Forall_app. split.
    + apply Forall_forall. intros r Hr. apply list_elem_of_filter in Hr as [_ Hr].
      rewrite Forall_forall in IH. by apply IH.
    + constructor; [|constructor]. simpl. apply or_null_idemp.
  - unfold removeConversation, delete_conversation.
    rewrite conversations_delete_conversations_where. simpl.
    apply Forall_forall. intros r Hr. apply list_elem_of_filter in Hr as [_ Hr].
    rewrite Forall_forall in IH. by apply IH.
  - destruct (conversation_at p db) as [conv|] eqn:Eat.
    + destruct (removeFile_tables p db conv Eat) as (-> & _).
      apply Forall_forall. intros r Hr. apply list_elem_of_filter in Hr as [_ Hr].
      apply list_elem_of_fmap in Hr as (r0 & -> & Hr0).
      rewrite Forall_forall in IH. specialize (IH r0 Hr0).
      unfold clear_parent. by case_bool_decide.
    + unfold removeFile. by rewrite Eat.
  - destruct (reachable_ok db Hre) as [Hnd _].
    destruct (resolveEncodedProjectNames_tables db Hnd) as (-> & _).
    apply Forall_fmap. eapply Forall_impl; [exact IH|]. intros r Hr. simpl.
    by destruct (resolved_row_fields (conversations db) r) as (_ & _ & _ & ->).
Qed.

Lemma group_cwds_under_root (pre : list (list N)) (folder : list N)
    (rows : list conversation_row) :
  str "projects" ∉ pre →
  Forall (λ r, under_root (pre ++ [str "projects"]) (r_file_path r)) rows →
  Forall (λ r, or_null (r_cwd r) = r_cwd r) rows →
  group_cwds folder rows = root_group_cwds (pre ++ [str "projects"]) folder rows.
Proof.
  intros Hpre Hrows Hcwd. unfold group_cwds, root_group_cwds.
  rewrite (group_under_root pre folder rows Hpre Hrows).
  assert (Hg : Forall (λ r, or_null (r_cwd r) = r_cwd r)
                 (root_group (pre ++ [str "projects"]) folder rows)).
  { apply Forall_forall. intros r Hr. apply list_elem_of_filter in Hr as [_ Hr].
    rewrite Forall_forall in Hcwd. by apply Hcwd. }
  induction Hg as [|r g Hr _ IH]; [done|].
  by rewrite !omap_cons_option_list, Hr, IH.
Qed.

(** C2, for the folders immediately under the projects root.  Let the
    database be one that the store produced, let the projects root be
    a directory named [projects] with no directory of that name above
    it, and let every session's file lie under it.  For a folder
    immediately under the root whose sessions have a cwd, let [c] be
    the first of the shortest of these cwds.  If [basename c] is not
    empty, then after [resolveEncodedProjectNames] every session of the
    folder has [basename c] as project, and so has every FTS row of
    such a session; the sessions are otherwise as they were.  If
    [basename c] is empty the sessions of the folder are left as they
    are.  The tool and file-tracking tables are not touched; the
    resolution is one transformer of the database, as the transaction
    makes it. *)
Theorem resolve_project_names (pre : list (list N)) (db : DB) (folder c : list N) :
  reachable db →
  str "projects" ∉ pre →
  Forall (λ r, under_root (pre ++ [str "projects"]) (r_file_path r)) (conversations db) →
  shortest (root_group_cwds (pre ++ [str "projects"]) folder (conversations db)) = Some c →
  (c ∈ root_group_cwds (pre ++ [str "projects"]) folder (conversations db)
   ∧ Forall (λ c', (length c ≤ length c')%nat)
       (root_group_cwds (pre ++ [str "projects"]) folder (conversations db)))
  ∧ (basename c ≠ [] →
     root_group (pre ++ [str "projects"]) folder
       (conversations (resolveEncodedProjectNames db).1.1)
     = set_project (basename c)
         <$> root_group (pre ++ [str "projects"]) folder (conversations db)
     ∧ (∀ r, r ∈ conversations (resolveEncodedProjectNames db).1.1 →
             folder_under (pre ++ [str "projects"]) (r_file_path r) = Some folder →
             r_project r = Some (basename c))
     ∧ (∀ r f, r ∈ conversations (resolveEncodedProjectNames db).1.1 →
               f ∈ conversation_fts (resolveEncodedProjectNames db).1.1 →
               folder_under (pre ++ [str "projects"]) (r_file_path r) = Some folder →
               f_conversation_id f = r_id r →
               f_project f = basename c))
  ∧ (basename c = [] →
     root_group (pre ++ [str "projects"]) folder
       (conversations (resolveEncodedProjectNames db).1.1)
     = root_group (pre ++ [str "projects"]) folder (conversations db))
  ∧ tool_usage (resolveEncodedProjectNames db).1.1 = tool_usage db
  ∧ file_index (resolveEncodedProjectNames db).1.1 = file_index db.
Proof.
  intros Hre Hpre Hrows Hc.
  destruct (reachable_ok db Hre) as [Hnd Hsync].
  pose proof (reachable_cwd db Hre) as Hcwd.
  assert (Hrows' : Forall (λ r, under_root (pre ++ [str "projects"]) (r_file_path r))
                     (conversations (resolveEncodedProjectNames db).1.1)).
  { destruct (resolveEncodedProjectNames_tables db Hnd) as (-> & _).
    apply Forall_fmap. eapply Forall_impl; [exact Hrows|]. intros r Hr. simpl.
    by destruct (resolved_row_fields (conversations db) r) as (-> & _). }
  assert (Hfolder : ∀ r, r ∈ conversations (resolveEncodedProjectNames db).1.1 →
            folder_of r = folder_under (pre ++ [str "projects"]) (r_file_path r)).
  { intros r Hr. rewrite Forall_forall in Hrows'.
    by apply encodedFolder_under_root, Hrows'. }
  rewrite <-(group_cwds_under_root pre folder _ Hpre Hrows Hcwd) in *.
  rewrite <-!(group_under_root pre folder _ Hpre Hrows).
  rewrite <-!(group_under_root pre folder _ Hpre Hrows').
  destruct (resolve_by_encoded_folder db folder c Hnd Hsync Hc)
    as (Hmin & Hname & Hskip & Ht & Hi).
  split; [done|]. split; [|done].
  intros Hb. destruct (Hname Hb) as (Hg & Hp & Hf). split; [done|]. split.
  - intros r Hr Hfr. apply (Hp r Hr). by rewrite Hfolder.
  - intros r f Hr Hfts Hfr Hid. apply (Hf r f Hr Hfts); [|done]. by rewrite Hfolder.
Qed.

Lemma project_db_under_root :
  Forall (λ r, under_root users_root (r_file_path r)) (conversations project_db).
Proof. apply (bool_decide_unpack _). by vm_compute. Qed.

(** The two sessions of the folder get the name of the root of the
    project. *)
Lemma resolve_project_names_witness :
  reachable project_db
  ∧ (str "projects" ∉ [str ""; str "Users"; str "t"; str ".claude"])
  ∧ Forall (λ r, under_root users_root (r_file_path r)) (conversations project_db)
  ∧ shortest (root_group_cwds users_root my_project_folder (conversations project_db))
    = Some my_project_cwd
  ∧ basename my_project_cwd = str "my-project"
  ∧ ∀ r, r ∈ conversations (resolveEncodedProjectNames project_db).1.1 →
         folder_under users_root (r_file_path r) = Some my_project_folder →
         r_project r = Some (str "my-project").
Proof.
  assert (Hpre : str "projects" ∉ [str ""; str "Users"; str "t"; str ".claude"]).
  { apply (bool_decide_unpack _). by vm_compute. }
  assert (Hs : shortest (root_group_cwds users_root my_project_folder
                           (conversations project_db)) = Some my_project_cwd)
    by (by vm_compute).
  split; [exact project_db_reachable|]. split; [exact Hpre|].
  split; [exact project_db_under_root|]. split; [exact Hs|]. split; [by vm_compute|].
  pose proof (resolve_project_names [str ""; str "Users"; str "t"; str ".claude"]
                project_db my_project_folder my_project_cwd
                project_db_reachable Hpre project_db_under_root Hs) as (_ & H & _).
  replace (basename my_project_cwd) with (str "my-project") in H by (by vm_compute).
  exact (proj1 (proj2 (H ltac:(done)))).
Defined.

(** C2 as stated fails.  A pass over two logs of the folder [-foo]
    immediately under the projects root, of which the first records the
    cwd [/]: the folder has one cwd, its basename is empty, and after
    the pass (and after a further resolution) the two sessions still
    have different projects, namely none and [foo]. *)
Lemma resolve_skips_empty_basename :
  let db := (runFullIndex projects_dir [root_file; plain_file] empty_db).1 in
  split slash projects_dir = home_root
  ∧ (λ r, folder_under home_root (r_file_path r)) <$> conversations db
    = [Some (str "-foo"); Some (str "-foo")]
  ∧ r_cwd <$> conversations db = [Some (str "/"); None]
  ∧ shortest (root_group_cwds home_root (str "-foo") (conversations db)) = Some (str "/")
  ∧ basename (str "/") = []
  ∧ r_project <$> conversations db = [None; Some (str "foo")]
  ∧ conversations (resolveEncodedProjectNames db).1.1 = conversations db
  ∧ ¬ (∀ r, r ∈ conversations (resolveEncodedProjectNames db).1.1 →
            folder_under home_root (r_file_path r) = Some (str "-foo") →
            r_project r = Some (basename (str "/"))).
Proof.
  cbv zeta.
  set (db := (runFullIndex projects_dir [root_file; plain_file] empty_db).1).
  assert (E : conversations (resolveEncodedProjectNames db).1.1 = conversations db)
    by (vm_compute; reflexivity).
  do 6 (split; [vm_compute; reflexivity|]). split; [exact E|].
  intros H.
  assert (Hn : ¬ Forall (λ r, folder_under home_root (r_file_path r) = Some (str "-foo") →
                              r_project r = Some (basename (str "/")))
                   (conversations (resolveEncodedProjectNames db).1.1)).
  { apply (bool_decide_unpack _). vm_compute. exact I. }
  apply Hn, Forall_forall. exact H.
Qed.

(** Under a root with a directory named [projects] above it the code
    takes the segment after that directory for the folder: the logs of
    two folders under the root then fall into one group. *)
Example encodedFolder_first_projects :
  encodedFolder (str "/srv/projects/u/.claude/projects/-w-alpha/s1.jsonl") = Some (str "u")
  ∧ encodedFolder (str "/srv/projects/u/.claude/projects/-w-beta/s2.jsonl") = Some (str "u")
  ∧ folder_under [str ""; str "srv"; str "projects"; str "u"; str ".claude"; str "projects"]
      (str "/srv/projects/u/.claude/projects/-w-alpha/s1.jsonl") = Some (str "-w-alpha").
Proof. by vm_compute. Qed.
